(** * A file-backed JSON document store behind an HTTP facade

    Shallow embedding of [src/main.go]: the [Store] ([NewStore],
    [readDataFile], [saveDataFile]) and the handlers of the [/data] route
    ([getDataHandler], [updateDataHandler], the method switch of [main]).

    The program is glue around five Go packages, which are modelled here as
    far as the program uses them:
    - [encoding/json]: [Unmarshal] into a [map[string]interface{}] and
      [MarshalIndent] with prefix "" and indent of two spaces, over bytes;
    - [os]: [Stat], [ReadFile] and [WriteFile] on the one data file, with the
      failures of the operating system given as an explicit input;
    - [strconv]: the conversion between decimal literals and [float64] is a
      parameter of the development (a record [strconv]).
    - [sync]: the [RWMutex] of the [Store], for the calls that [net/http]
      runs together, each request being served in a goroutine of its own;
    - [github.com/gorilla/handlers]: the [CORS] middleware that [main] puts
      in front of the router, which answers every OPTIONS request itself.

    A byte is a [Z] in [0, 256); a Go string or byte slice is a list of
    them. *)

From Stdlib Require Import String Ascii List ZArith Lia Bool Permutation.
Import ListNotations.
Open Scope Z_scope.

(** ** Bytes *)

Definition bytes := list Z.

(** The bytes of an ASCII string literal. *)
Definition B (s : string) : bytes :=
  List.map (fun a => Z.of_N (N_of_ascii a)) (list_ascii_of_string s).
Arguments B s%_string.

(** Go's [<] on strings: bytewise lexicographic order. *)
Fixpoint bytes_ltb (a b : bytes) : bool :=
  match a, b with
  | [], [] => false
  | [], _ :: _ => true
  | _ :: _, [] => false
  | x :: a', y :: b' => (x <? y) || ((x =? y) && bytes_ltb a' b')
  end.

Fixpoint bytes_eqb (a b : bytes) : bool :=
  match a, b with
  | [], [] => true
  | x :: a', y :: b' => (x =? y) && bytes_eqb a' b'
  | _, _ => false
  end.

(** ** Package [unicode/utf8] and [unicode/utf16]

    The shifts and masks of the Go code are written as multiplications,
    divisions and remainders by powers of two. *)

Module utf8.

Definition RuneError : Z := 65533.   (* U+FFFD *)
Definition MaxRune : Z := 1114111.   (* U+10FFFF *)

(** A continuation byte, [locb <= b <= hicb]. *)
Definition cont (b : Z) : bool := (128 <=? b) && (b <=? 191).

(** [DecodeRune p]: the first rune of [p] and its width in bytes;
    [(RuneError, 1)] for an invalid encoding, [(RuneError, 0)] for no
    input. *)
Definition DecodeRune (p : bytes) : Z * nat :=
  match p with
  | [] => (RuneError, 0%nat)
  | p0 :: t =>
    if p0 <? 128 then (p0, 1%nat)
    else if (194 <=? p0) && (p0 <=? 223) then
      match t with
      | b1 :: _ =>
        if cont b1 then ((p0 - 192) * 64 + (b1 - 128), 2%nat)
        else (RuneError, 1%nat)
      | [] => (RuneError, 1%nat)
      end
    else if (224 <=? p0) && (p0 <=? 239) then
      match t with
      | b1 :: b2 :: _ =>
        if ((if p0 =? 224 then 160 else 128) <=? b1)
           && (b1 <=? (if p0 =? 237 then 159 else 191))
           && cont b2
        then ((p0 - 224) * 4096 + (b1 - 128) * 64 + (b2 - 128), 3%nat)
        else (RuneError, 1%nat)
      | _ => (RuneError, 1%nat)
      end
    else if (240 <=? p0) && (p0 <=? 244) then
      match t with
      | b1 :: b2 :: b3 :: _ =>
        if ((if p0 =? 240 then 144 else 128) <=? b1)
           && (b1 <=? (if p0 =? 244 then 143 else 191))
           && cont b2 && cont b3
        then ((p0 - 240) * 262144 + (b1 - 128) * 4096
              + (b2 - 128) * 64 + (b3 - 128), 4%nat)
        else (RuneError, 1%nat)
      | _ => (RuneError, 1%nat)
      end
    else (RuneError, 1%nat)
  end.

(** [EncodeRune r]: the UTF-8 encoding of [r]; of [RuneError] when [r] is
    a surrogate or out of range. *)
Definition EncodeRune (r : Z) : bytes :=
  if (0 <=? r) && (r <=? 127) then [r]
  else if (0 <=? r) && (r <=? 2047) then [192 + r / 64; 128 + r mod 64]
  else if (r <? 0) || (MaxRune <? r) || ((55296 <=? r) && (r <=? 57343))
  then [239; 191; 189]
  else if r <=? 65535
  then [224 + r / 4096; 128 + (r / 64) mod 64; 128 + r mod 64]
  else [240 + r / 262144; 128 + (r / 4096) mod 64;
        128 + (r / 64) mod 64; 128 + r mod 64].

(** [Valid s]: [s] consists of bytes and is valid UTF-8 (fuel: the length
    of [s]). *)
Fixpoint Valid_loop (fuel : nat) (s : bytes) : bool :=
  match s with
  | [] => true
  | b :: _ =>
    match fuel with
    | O => false
    | S n =>
      let (r, size) := DecodeRune s in
      (0 <=? b) && negb ((r =? RuneError) && (size =? 1)%nat)
      && Valid_loop n (skipn size s)
    end
  end.

Definition Valid (s : bytes) : bool := Valid_loop (length s) s.

End utf8.

Module utf16.

Definition IsSurrogate (r : Z) : bool := (55296 <=? r) && (r <? 57344).

(** [DecodeRune r1 r2]: the code point of a surrogate pair, U+FFFD when
    the pair is not one. *)
Definition DecodeRune (r1 r2 : Z) : Z :=
  if (55296 <=? r1) && (r1 <? 56320) && (56320 <=? r2) && (r2 <? 57344)
  then (r1 - 55296) * 1024 + (r2 - 56320) + 65536
  else utf8.RuneError.

End utf16.

(** ** Package [encoding/json]: the text level *)

(** *** Strings: [appendString] with [escapeHTML] set *)

(** ["0123456789abcdef"[d]]. *)
Definition hex (d : Z) : Z := if d <? 10 then 48 + d else 87 + d.

(** [htmlSafeSet]: the ASCII bytes written as they are. *)
Definition htmlSafe (b : Z) : bool :=
  (32 <=? b) && (b <? 128)
  && negb (b =? 34)    (* double quote *)
  && negb (b =? 38)    (* & *)
  && negb (b =? 60)    (* < *)
  && negb (b =? 62)    (* > *)
  && negb (b =? 92).   (* backslash *)

Definition escapeByte (b : Z) : bytes :=
  if (b =? 92) || (b =? 34) then [92; b]
  else if b =? 8 then [92; 98]          (* \b *)
  else if b =? 12 then [92; 102]        (* \f *)
  else if b =? 10 then [92; 110]        (* \n *)
  else if b =? 13 then [92; 114]        (* \r *)
  else if b =? 9 then [92; 116]         (* \t *)
  else [92; 117; 48; 48; hex (b / 16); hex (b mod 16)].  (* \u00XX *)

(** The loop of [appendString] from index [i], [src] being the bytes from
    [i] on (fuel: their number). *)
Fixpoint appendString_loop (fuel : nat) (src : bytes) : bytes :=
  match fuel, src with
  | S n, b :: t =>
    if b <? 128 then
      (if htmlSafe b then [b] else escapeByte b) ++ appendString_loop n t
    else
      let (c, size) := utf8.DecodeRune src in
      if (c =? utf8.RuneError) && (size =? 1)%nat
      then [92; 117; 102; 102; 102; 100] ++ appendString_loop n t   (* the six bytes of the escape of U+FFFD *)
      else if (c =? 8232) || (c =? 8233)       (* U+2028, U+2029 *)
      then [92; 117; 50; 48; 50; hex (c mod 16)]
           ++ appendString_loop n (skipn size src)
      else firstn size src ++ appendString_loop n (skipn size src)
  | _, _ => []
  end.

Definition appendString (src : bytes) : bytes :=
  34 :: appendString_loop (length src) src ++ [34].

(** *** Strings: the scanner's string states and [unquote] *)

Definition hexval (c : Z) : option Z :=
  if (48 <=? c) && (c <=? 57) then Some (c - 48)
  else if (97 <=? c) && (c <=? 102) then Some (c - 97 + 10)
  else if (65 <=? c) && (c <=? 70) then Some (c - 65 + 10)
  else None.

(** Four hexadecimal digits: their value, and what follows them. *)
Definition hex4 (s : bytes) : option (Z * bytes) :=
  match s with
  | a :: b :: c :: d :: t =>
    match hexval a, hexval b, hexval c, hexval d with
    | Some x, Some y, Some z, Some w =>
      Some (((x * 16 + y) * 16 + z) * 16 + w, t)
    | _, _, _, _ => None
    end
  | _ => None
  end.

(** [getu4]: the value of the escape [\uXXXX] that [s] starts with, and
    what follows it; [None] (Go's -1) when [s] does not start with one. *)
Definition getu4 (s : bytes) : option (Z * bytes) :=
  match s with
  | a :: b :: t => if (a =? 92) && (b =? 117) then hex4 t else None
  | _ => None
  end.

(** The single escapes the scanner accepts after a backslash. *)
Definition unescape (e : Z) : option Z :=
  if (e =? 34) || (e =? 92) || (e =? 47) then Some e
  else if e =? 98 then Some 8
  else if e =? 102 then Some 12
  else if e =? 110 then Some 10
  else if e =? 114 then Some 13
  else if e =? 116 then Some 9
  else None.

Definition cons_to {A B : Type} (p : list A) (r : option (list A * B))
  : option (list A * B) :=
  match r with
  | Some (s, t) => Some (p ++ s, t)
  | None => None
  end.

(** [scan_string fuel s]: [s] follows an opening quote; the decoded string
    up to the closing quote and what follows it. [None]: control
    character, bad escape, or no closing quote. *)
Fixpoint scan_string (fuel : nat) (s : bytes) : option (bytes * bytes) :=
  match fuel with
  | O => None
  | S n =>
    match s with
    | [] => None
    | c :: t =>
      if c =? 34 then Some ([], t)
      else if c =? 92 then
        match t with
        | [] => None
        | e :: t' =>
          if e =? 117 then                           (* \uXXXX *)
            match getu4 s with
            | None => None
            | Some (rr, t2) =>
              if utf16.IsSurrogate rr then
                match getu4 t2 with
                | Some (rr1, t4) =>
                  let dec := utf16.DecodeRune rr rr1 in
                  if dec =? utf8.RuneError
                  then cons_to (utf8.EncodeRune utf8.RuneError)
                               (scan_string n t2)
                  else cons_to (utf8.EncodeRune dec) (scan_string n t4)
                | None =>
                  cons_to (utf8.EncodeRune utf8.RuneError) (scan_string n t2)
                end
              else cons_to (utf8.EncodeRune rr) (scan_string n t2)
            end
          else
            match unescape e with
            | Some b => cons_to [b] (scan_string n t')
            | None => None
            end
        end
      else if c <? 32 then None
      else if c <? 128 then cons_to [c] (scan_string n t)
      else
        let (rr, size) := utf8.DecodeRune s in
        cons_to (utf8.EncodeRune rr) (scan_string n (skipn size s))
    end
  end.

(** *** Numbers: the scanner's number states *)

Definition is_digit (c : Z) : bool := (48 <=? c) && (c <=? 57).

(** The longest prefix of digits, and the rest. *)
Fixpoint digits (s : bytes) : bytes * bytes :=
  match s with
  | [] => ([], [])
  | c :: t =>
    if is_digit c then let (d, r) := digits t in (c :: d, r) else ([], s)
  end.

(** At least one digit. *)
Definition digits1 (s : bytes) : option (bytes * bytes) :=
  match digits s with
  | ([], _) => None
  | p => Some p
  end.

(** [0], or a digit from 1 to 9 and more digits. *)
Definition scan_int (s : bytes) : option (bytes * bytes) :=
  match s with
  | [] => None
  | c :: t =>
    if c =? 48 then Some ([48], t)
    else if is_digit c then let (d, r) := digits t in Some (c :: d, r)
    else None
  end.

(** An optional fraction: a dot and at least one digit. *)
Definition scan_frac (s : bytes) : option (bytes * bytes) :=
  match s with
  | c :: t => if c =? 46 then cons_to [46] (digits1 t) else Some ([], s)
  | [] => Some ([], s)
  end.

(** An optional exponent: [e] or [E], an optional sign, at least one
    digit. *)
Definition scan_exp (s : bytes) : option (bytes * bytes) :=
  match s with
  | c :: t =>
    if (c =? 101) || (c =? 69) then
      match t with
      | g :: t' =>
        if (g =? 43) || (g =? 45) then cons_to [c; g] (digits1 t')
        else cons_to [c] (digits1 t)
      | [] => None
      end
    else Some ([], s)
  | [] => Some ([], s)
  end.

(** [scan_number s]: the number literal [s] starts with, and the rest. *)
Definition scan_number (s : bytes) : option (bytes * bytes) :=
  let (sign, s1) :=
    match s with
    | c :: t => if c =? 45 then ([45], t) else ([], s)
    | [] => ([], s)
    end in
  match scan_int s1 with
  | None => None
  | Some (i, s2) =>
    match scan_frac s2 with
    | None => None
    | Some (f, s3) =>
      match scan_exp s3 with
      | None => None
      | Some (e, s4) => Some (sign ++ i ++ f ++ e, s4)
      end
    end
  end.

(** [lit] is one number literal, all of it. *)
Definition is_number_literal (lit : bytes) : bool :=
  match scan_number lit with
  | Some (_, []) => true
  | _ => false
  end.

(** *** Values: the scanner ([checkValid]) as a recursive descent *)

(** A JSON text as the scanner reads it: numbers are still literals, a
    string is unquoted, the members of an object are in the order of the
    text, duplicates included. *)
Unset Elimination Schemes.
Inductive jtree : Type :=
| JNull
| JBool (b : bool)
| JNumber (lit : bytes)
| JString (s : bytes)
| JArray (l : list jtree)
| JObject (l : list (bytes * jtree)).
Set Elimination Schemes.

Definition maxNestingDepth : Z := 10000.

Definition is_space (c : Z) : bool :=
  (c =? 32) || (c =? 9) || (c =? 13) || (c =? 10).

Fixpoint skip_space (s : bytes) : bytes :=
  match s with
  | [] => []
  | c :: t => if is_space c then skip_space t else s
  end.

Fixpoint strip_prefix (p s : bytes) : option bytes :=
  match p, s with
  | [], _ => Some s
  | _ :: _, [] => None
  | x :: p', y :: s' => if x =? y then strip_prefix p' s' else None
  end.

Definition keyword (rest_of_word : bytes) (t : jtree) (s : bytes)
  : option (jtree * bytes) :=
  match strip_prefix rest_of_word s with
  | Some r => Some (t, r)
  | None => None
  end.

(** [scan_value fuel depth s]: the value [s] starts with (after spaces)
    and what follows it; [depth] containers are open around it. [None] is
    a syntax error (or no fuel: [scan] gives enough). *)
Fixpoint scan_value (fuel : nat) (depth : Z) (s : bytes) {struct fuel}
  : option (jtree * bytes) :=
  match fuel with
  | O => None
  | S n =>
    match skip_space s with
    | [] => None
    | c :: t =>
      if c =? 123 then                                        (* { *)
        if maxNestingDepth <? depth + 1 then None
        else
          match skip_space t with
          | [] => None
          | c' :: r =>
            if c' =? 125 then Some (JObject [], r)            (* } *)
            else
              match scan_members n (depth + 1) (c' :: r) with
              | Some (l, r') => Some (JObject l, r')
              | None => None
              end
          end
      else if c =? 91 then                                    (* [ *)
        if maxNestingDepth <? depth + 1 then None
        else
          match skip_space t with
          | [] => None
          | c' :: r =>
            if c' =? 93 then Some (JArray [], r)              (* ] *)
            else
              match scan_elements n (depth + 1) (c' :: r) with
              | Some (l, r') => Some (JArray l, r')
              | None => None
              end
          end
      else if c =? 34 then                                    (* quote *)
        match scan_string (length t) t with
        | Some (str, r) => Some (JString str, r)
        | None => None
        end
      else if c =? 116 then keyword (B "rue") (JBool true) t
      else if c =? 102 then keyword (B "alse") (JBool false) t
      else if c =? 110 then keyword (B "ull") JNull t
      else if (c =? 45) || is_digit c then
        match scan_number (c :: t) with
        | Some (lit, r) => Some (JNumber lit, r)
        | None => None
        end
      else None
    end
  end

with scan_elements (fuel : nat) (depth : Z) (s : bytes) {struct fuel}
  : option (list jtree * bytes) :=
  match fuel with
  | O => None
  | S n =>
    match scan_value n depth s with
    | None => None
    | Some (v, r) =>
      match skip_space r with
      | [] => None
      | c :: r' =>
        if c =? 44 then                                       (* , *)
          match scan_elements n depth r' with
          | Some (vs, r'') => Some (v :: vs, r'')
          | None => None
          end
        else if c =? 93 then Some ([v], r')                   (* ] *)
        else None
      end
    end
  end

with scan_members (fuel : nat) (depth : Z) (s : bytes) {struct fuel}
  : option (list (bytes * jtree) * bytes) :=
  match fuel with
  | O => None
  | S n =>
    match skip_space s with
    | [] => None
    | q :: t =>
      if q =? 34 then
        match scan_string (length t) t with
        | None => None
        | Some (k, r) =>
          match skip_space r with
          | [] => None
          | c :: r1 =>
            if c =? 58 then                                   (* : *)
              match scan_value n depth r1 with
              | None => None
              | Some (v, r2) =>
                match skip_space r2 with
                | [] => None
                | c' :: r3 =>
                  if c' =? 44 then
                    match scan_members n depth r3 with
                    | Some (kvs, r4) => Some ((k, v) :: kvs, r4)
                    | None => None
                    end
                  else if c' =? 125 then Some ([(k, v)], r3)
                  else None
                end
              end
            else None
          end
        end
      else None
    end
  end.

(** [scan data]: the one value of [data], spaces allowed around it. *)
Definition scan (data : bytes) : option jtree :=
  match scan_value (2 * length data + 2) 0 data with
  | Some (t, r) =>
    match skip_space r with
    | [] => Some t
    | _ :: _ => None
    end
  | None => None
  end.

(** [json.Valid]. *)
Definition Valid (data : bytes) : bool :=
  match scan data with
  | Some _ => true
  | None => false
  end.

(** *** What stands around a value in a text *)

(** What may follow a number literal without being read into it. *)
Definition number_end (rest : bytes) : bool :=
  match rest with
  | [] => true
  | c :: _ =>
    negb (is_digit c) && negb (c =? 46) && negb (c =? 101) && negb (c =? 69)
  end.

(** What may follow a value: the end, a space, a comma or a closing
    bracket. *)
Definition value_end (rest : bytes) : bool :=
  match rest with
  | [] => true
  | c :: _ => is_space c || (c =? 44) || (c =? 93) || (c =? 125)
  end.

(** A first byte of a value is no space and no closing bracket. *)
Definition value_start (c : Z) : bool :=
  negb (is_space c) && negb (c =? 93) && negb (c =? 125).

(** The JSON values that are neither an object nor [null]. *)
Definition array_or_scalar (t : jtree) : bool :=
  match t with
  | JArray _ | JString _ | JNumber _ | JBool _ => true
  | JNull | JObject _ => false
  end.

(** The JSON values that are no object: the arrays and the scalars,
    [null] among them. *)
Definition not_object (t : jtree) : bool :=
  match t with
  | JObject _ => false
  | _ => true
  end.

(** Every string and every key of the JSON value is valid UTF-8. *)
Fixpoint strings_valid (t : jtree) : bool :=
  match t with
  | JString s => utf8.Valid s
  | JArray l => forallb strings_valid l
  | JObject l => forallb (fun kv => utf8.Valid (fst kv) && strings_valid (snd kv)) l
  | _ => true
  end.

(** The number of containers around the innermost value. *)
Fixpoint tdepth (t : jtree) : Z :=
  match t with
  | JArray l => 1 + fold_right (fun x d => Z.max (tdepth x) d) 0 l
  | JObject l => 1 + fold_right (fun kv d => Z.max (tdepth (snd kv)) d) 0 l
  | _ => 0
  end.

(** ** Package [strconv], as the JSON package uses it

    [float64] stands for Go's type; [ParseFloat lit] is
    [strconv.ParseFloat(lit, 64)], [None] when it reports an error (a value
    out of range); [FormatFloat f] is what the encoder writes for [f] (the
    shortest decimal that reads back as [f], in the format the encoder
    picks); [IsInfOrNaN f] is [math.IsInf(f, 0) || math.IsNaN(f)]. *)
Record strconv : Type := {
  float64 : Type;
  ParseFloat : bytes -> option float64;
  FormatFloat : float64 -> bytes;
  IsInfOrNaN : float64 -> bool
}.

(** What [strconv] promises: a literal is read as a finite number, and a
    finite number is written as a literal that is read back as it. *)
Definition strconv_sound (lib : strconv) : Prop :=
  (forall lit f, ParseFloat lib lit = Some f -> IsInfOrNaN lib f = false)
  /\ (forall f, IsInfOrNaN lib f = false ->
        is_number_literal (FormatFloat lib f) = true
        /\ ParseFloat lib (FormatFloat lib f) = Some f).

(** The decimal digits of [n], least significant first into [acc] (fuel:
    more than the number of digits). *)
Fixpoint itoa_loop (fuel : nat) (n : Z) (acc : bytes) : bytes :=
  match fuel with
  | O => acc
  | S fuel' =>
    let acc' := (48 + n mod 10) :: acc in
    if n <? 10 then acc' else itoa_loop fuel' (n / 10) acc'
  end.

(** An integer in decimal, as [fmt]'s [%d] and [strconv.Itoa] write it. *)
Definition itoa (n : Z) : bytes :=
  if n <? 0 then 45 :: itoa_loop (S (Z.to_nat (Z.log2 (- n)))) (- n) []
  else itoa_loop (S (Z.to_nat (Z.log2 n))) n [].

Fixpoint atoi_loop (acc : Z) (s : bytes) : Z :=
  match s with
  | [] => acc
  | c :: t => atoi_loop (acc * 10 + (c - 48)) t
  end.

(** A small [strconv] to compute with: the numbers are the integers,
    written in decimal; a literal with a fraction or an exponent is
    reported as an error. *)
Definition integers : strconv := {|
  float64 := Z;
  ParseFloat := fun lit =>
    match lit with
    | c :: t =>
      if c =? 45 then
        match scan_int t with
        | Some (d, []) => Some (- atoi_loop 0 d)
        | _ => None
        end
      else
        match scan_int lit with
        | Some (d, []) => Some (atoi_loop 0 d)
        | _ => None
        end
    | [] => None
    end;
  FormatFloat := itoa;
  IsInfOrNaN := fun _ => false
|}.

(** ** Go maps with string keys

    A [map[string]T] is the list of its entries in the order of their keys,
    each key once: the order in which [Marshal] writes them. *)

Fixpoint map_set {A : Type} (m : list (bytes * A)) (k : bytes) (v : A)
  : list (bytes * A) :=
  match m with
  | [] => [(k, v)]
  | (k', v') :: m' =>
    if bytes_ltb k k' then (k, v) :: m
    else if bytes_eqb k k' then (k, v) :: m'
    else (k', v') :: map_set m' k v
  end.

(** The keys are in strictly increasing order. *)
Fixpoint keys_sorted {A : Type} (m : list (bytes * A)) : bool :=
  match m with
  | [] => true
  | (k, _) :: m' =>
    match m' with
    | [] => true
    | (k', _) :: _ => bytes_ltb k k' && keys_sorted m'
    end
  end.

(** [m[k] = v] for the pair [kv]. *)
Definition map_store {A : Type} (m : list (bytes * A)) (kv : bytes * A)
  : list (bytes * A) :=
  map_set m (fst kv) (snd kv).

Fixpoint all_some {A : Type} (l : list (option A)) : option (list A) :=
  match l with
  | [] => Some []
  | Some a :: l' =>
    match all_some l' with
    | Some r => Some (a :: r)
    | None => None
    end
  | None :: _ => None
  end.

Definition with_key {A : Type} (k : bytes) (o : option A)
  : option (bytes * A) :=
  match o with
  | Some a => Some (k, a)
  | None => None
  end.

Fixpoint join (sep : bytes) (parts : list bytes) : bytes :=
  match parts with
  | [] => []
  | [p] => p
  | p :: ps => p ++ sep ++ join sep ps
  end.

(** ** The values of [encoding/json], [Unmarshal] and [MarshalIndent] *)

(** A Go result [(a, nil)] or [(_, err)]. *)
Inductive result (E A : Type) : Type :=
| Ok (a : A)
| Err (e : E).
Arguments Ok {E A} a.
Arguments Err {E A} e.

Inductive json_error : Type :=
| SyntaxError               (* the text is not valid JSON *)
| UnmarshalTypeError        (* a value that does not fit the Go type *)
| UnsupportedValueError.    (* an infinity or a NaN to encode *)

Section Model.

Variable lib : strconv.

(** What [Unmarshal] stores in an [interface{}]: [nil], [bool],
    [float64], [string], [[]interface{}] and [map[string]interface{}]. *)
Unset Elimination Schemes.
Inductive value : Type :=
| VNil
| VBool (b : bool)
| VFloat (f : float64 lib)
| VString (s : bytes)
| VSlice (l : list value)
| VMap (m : list (bytes * value)).
Set Elimination Schemes.

(** [type JSONData map[string]interface{}]: [None] is the nil map. *)
Definition JSONData : Type := option (list (bytes * value)).

(** *** Decoding *)

(** [valueInterface]: the Go value of a JSON value; [None] when a number
    is out of range. The members of an object are stored one after the
    other, so a later member replaces an earlier one of the same key. *)
Fixpoint decode (t : jtree) : option value :=
  match t with
  | JNull => Some VNil
  | JBool b => Some (VBool b)
  | JNumber lit =>
    match ParseFloat lib lit with
    | Some f => Some (VFloat f)
    | None => None
    end
  | JString s => Some (VString s)
  | JArray l =>
    match all_some (map decode l) with
    | Some vs => Some (VSlice vs)
    | None => None
    end
  | JObject l =>
    match all_some (map (fun kv => with_key (fst kv) (decode (snd kv))) l) with
    | Some kvs => Some (VMap (fold_left map_store kvs []))
    | None => None
    end
  end.

(** [json.Unmarshal(data, &v)] for [var v JSONData]: the text is checked
    first; [null] leaves the nil map, an object makes a map, any other
    value does not fit the type. *)
Definition Unmarshal (data : bytes) : result json_error JSONData :=
  match scan data with
  | None => Err SyntaxError
  | Some JNull => Ok None
  | Some (JObject l) =>
    match decode (JObject l) with
    | Some (VMap m) => Ok (Some m)
    | _ => Err UnmarshalTypeError
    end
  | Some _ => Err UnmarshalTypeError
  end.

(** *** Encoding *)

(** No infinity and no NaN in the value. *)
Fixpoint marshalable (v : value) : bool :=
  match v with
  | VFloat f => negb (IsInfOrNaN lib f)
  | VSlice l => forallb marshalable l
  | VMap m => forallb (fun kv => marshalable (snd kv)) m
  | _ => true
  end.

(** A new line and the indentation of depth [d], when indenting. *)
Definition newline (pretty : bool) (d : nat) : bytes :=
  if pretty then 10 :: concat (repeat [32; 32] d) else [].

Definition colon (pretty : bool) : bytes :=
  if pretty then [58; 32] else [58].

(** The text of a value inside [d] containers: compact as [Marshal]
    writes it, or as [Indent] lays it out with prefix "" and indent of two
    spaces. *)
Fixpoint encode (pretty : bool) (d : nat) (v : value) : bytes :=
  match v with
  | VNil => B "null"
  | VBool true => B "true"
  | VBool false => B "false"
  | VFloat f => FormatFloat lib f
  | VString s => appendString s
  | VSlice [] => B "[]"
  | VSlice l =>
    [91] ++ newline pretty (S d)
    ++ join (44 :: newline pretty (S d)) (map (encode pretty (S d)) l)
    ++ newline pretty d ++ [93]
  | VMap [] => B "{}"
  | VMap m =>
    [123] ++ newline pretty (S d)
    ++ join (44 :: newline pretty (S d))
         (map (fun kv => appendString (fst kv) ++ colon pretty
                         ++ encode pretty (S d) (snd kv)) m)
    ++ newline pretty d ++ [125]
  end.

Definition marshal_with (pretty : bool) (data : JSONData)
  : result json_error bytes :=
  match data with
  | None => Ok (B "null")
  | Some m =>
    if marshalable (VMap m) then Ok (encode pretty 0 (VMap m))
    else Err UnsupportedValueError
  end.

(** [json.Marshal(data)]. *)
Definition Marshal (data : JSONData) : result json_error bytes :=
  marshal_with false data.

(** [json.MarshalIndent(data, "", "  ")]. *)
Definition MarshalIndent (data : JSONData) : result json_error bytes :=
  marshal_with true data.

(** *** Documents

    What the theorems say of the values the program handles. *)

(** The JSON value that [encode] writes. *)
Fixpoint tree_of (v : value) : jtree :=
  match v with
  | VNil => JNull
  | VBool b => JBool b
  | VFloat f => JNumber (FormatFloat lib f)
  | VString s => JString s
  | VSlice l => JArray (map tree_of l)
  | VMap m => JObject (map (fun kv => (fst kv, tree_of (snd kv))) m)
  end.

(** Every string is valid UTF-8 and every number is finite and written as
    a number literal: the text of the value is the value. *)
Fixpoint printable (v : value) : bool :=
  match v with
  | VNil | VBool _ => true
  | VFloat f =>
    negb (IsInfOrNaN lib f) && is_number_literal (FormatFloat lib f)
  | VString s => utf8.Valid s
  | VSlice l => forallb printable l
  | VMap m => forallb (fun kv => utf8.Valid (fst kv) && printable (snd kv)) m
  end.

(** Every number is read back from what is written for it, and every map
    has its keys in order, each once. *)
Fixpoint faithful (v : value) : Prop :=
  match v with
  | VNil | VBool _ | VString _ => True
  | VFloat f => ParseFloat lib (FormatFloat lib f) = Some f
  | VSlice l => fold_right (fun x P => faithful x /\ P) True l
  | VMap m =>
    keys_sorted m = true
    /\ fold_right (fun kv P => faithful (snd kv) /\ P) True m
  end.

(** The number of containers around the innermost value. *)
Fixpoint nesting (v : value) : Z :=
  match v with
  | VSlice l => 1 + fold_right (fun x d => Z.max (nesting x) d) 0 l
  | VMap m => 1 + fold_right (fun kv d => Z.max (nesting (snd kv)) d) 0 m
  | _ => 0
  end.

(** A document as [Unmarshal] makes them: a map (not the nil map) of
    printable, faithful values, nested no deeper than the scanner
    reads. *)
Definition WellFormed (data : JSONData) : Prop :=
  match data with
  | None => False
  | Some m =>
    printable (VMap m) = true /\ faithful (VMap m)
    /\ nesting (VMap m) <= maxNestingDepth
  end.

(** The text is one JSON object. *)
Definition is_object_text (content : bytes) : Prop :=
  exists l, scan content = Some (JObject l).

(** Every number literal of the JSON value is in the range of
    [float64]. *)
Fixpoint in_range (t : jtree) : bool :=
  match t with
  | JNumber lit =>
    match ParseFloat lib lit with
    | Some _ => true
    | None => false
    end
  | JArray l => forallb in_range l
  | JObject l => forallb (fun kv => in_range (snd kv)) l
  | _ => true
  end.

(** The JSON value fits [JSONData]: it is [null], or an object whose
    numbers are all in range. *)
Definition fits (t : jtree) : bool :=
  match t with
  | JNull => true
  | JObject l => in_range (JObject l)
  | _ => false
  end.

(** A document whose text is the document: the nil map, or a map of
    printable values nested no deeper than the scanner reads. *)
Definition document_ok (data : JSONData) : Prop :=
  match data with
  | None => True
  | Some m =>
    printable (VMap m) = true /\ nesting (VMap m) <= maxNestingDepth
  end.

(** Fuel that [scan_value] needs for the text of a value. *)
Fixpoint vfuel (v : value) : nat :=
  match v with
  | VSlice l => S (fold_right (fun x n => S (vfuel x + n)) 0%nat l)
  | VMap m => S (fold_right (fun kv n => S (vfuel (snd kv) + n)) 0%nat m)
  | _ => 1%nat
  end.

(** The scanner reads the value back from its text, wherever the text
    stands. *)
Definition scans (v : value) : Prop :=
  printable v = true ->
  forall (pretty : bool) (d : nat) (depth : Z) (fuel : nat) (rest : bytes),
    depth + nesting v <= maxNestingDepth ->
    (vfuel v <= fuel)%nat ->
    value_end rest = true ->
    scan_value fuel depth (encode pretty d v ++ rest) = Some (tree_of v, rest).

(** ** Package [os]: the data file

    The state is the file at the store's path: absent, or its content.
    What the operating system does during one call of the program is an
    input, [env]. *)

Definition FS : Type := option bytes.

(** How one [os.WriteFile] goes: [OpenFile] with
    [O_WRONLY|O_CREATE|O_TRUNC], [Write], [Close]. *)
Inductive write_outcome : Type :=
| WriteOk                 (* all three succeed *)
| OpenFails               (* the file cannot be opened or created *)
| WriteFails (n : nat)    (* opened and truncated; [Write] fails with
                             [n] bytes written *)
| CloseFails.             (* written; [Close] reports an error *)

Record env : Type := {
  stat_fails : bool;      (* [os.Stat] fails, and not with "not exist" *)
  read_fails : bool;      (* [os.ReadFile] fails though the file exists *)
  write : write_outcome
}.

(** No failure of the operating system. *)
Definition calm : env :=
  {| stat_fails := false; read_fails := false; write := WriteOk |}.

Inductive stat_result : Type := StatOk | StatNotExist | StatError.

Definition Stat (e : env) (fs : FS) : stat_result :=
  if stat_fails e then StatError
  else match fs with
       | None => StatNotExist
       | Some _ => StatOk
       end.

(** [os.ReadFile]: the content, [None] for an error. *)
Definition ReadFile (e : env) (fs : FS) : option bytes :=
  if read_fails e then None else fs.

(** [os.WriteFile]: the file afterwards, and whether it returns an
    error. *)
Definition WriteFile (e : env) (fs : FS) (data : bytes) : FS * bool :=
  match write e with
  | WriteOk => (Some data, false)
  | OpenFails => (fs, true)
  | WriteFails n => (Some (firstn n data), true)
  | CloseFails => (Some data, true)
  end.

(** ** The [Store]

    The store is its file path and a lock; [readDataFile] holds the read
    lock and [saveDataFile] the write lock from entry to return, so each
    is one step on the file. *)

(** The errors of the store, by the message that wraps the cause. *)
Inductive store_error : Type :=
| ReadError                          (* "error reading file" *)
| ParseError (e : json_error)        (* "error unmarshaling JSON" *)
| SerializeError (e : json_error)    (* "error marshaling JSON" *)
| WriteError.                        (* "error writing to file" *)

Definition readDataFile (e : env) (fs : FS) : result store_error JSONData :=
  match ReadFile e fs with
  | None => Err ReadError
  | Some content =>
    if (length content =? 0)%nat then Ok (Some [])
    else
      match Unmarshal content with
      | Err err => Err (ParseError err)
      | Ok data => Ok data
      end
  end.

(** The file afterwards and the error returned, [None] for [nil]. *)
Definition saveDataFile (e : env) (fs : FS) (data : JSONData)
  : FS * option store_error :=
  match MarshalIndent data with
  | Err err => (fs, Some (SerializeError err))
  | Ok jsonData =>
    match WriteFile e fs jsonData with
    | (fs', true) => (fs', Some WriteError)
    | (fs', false) => (fs', None)
    end
  end.

(** How the start of the process ends: the store is there, or
    [log.Fatalf] ended the process. *)
Inductive startup : Type :=
| Started (fs : FS)
| Fatal (fs : FS).

Definition NewStore (e : env) (fs : FS) : startup :=
  match Stat e fs with
  | StatNotExist =>
    match saveDataFile e fs (Some []) with
    | (fs', Some _) => Fatal fs'
    | (fs', None) => Started fs'
    end
  | _ => Started fs
  end.

(** *** Runs of the store *)

Inductive store_op : Type :=
| OpRead
| OpReplace (data : JSONData).

(** One operation: the file afterwards, and whether it returned an
    error. *)
Definition store_step (e : env) (fs : FS) (o : store_op) : FS * bool :=
  match o with
  | OpRead =>
    (fs, match readDataFile e fs with Ok _ => false | Err _ => true end)
  | OpReplace data =>
    match saveDataFile e fs data with
    | (fs', None) => (fs', false)
    | (fs', Some _) => (fs', true)
    end
  end.

(** The file after a run in which every operation completes without an
    error; [None] when one fails. *)
Fixpoint run (fs : FS) (trace : list (env * store_op)) : option FS :=
  match trace with
  | [] => Some fs
  | (e, o) :: trace' =>
    match store_step e fs o with
    | (fs', false) => run fs' trace'
    | (_, true) => None
    end
  end.

(** What the file holds: nothing, a JSON object, or the literal
    [null]. *)
Definition stored_shape (fs : FS) : Prop :=
  match fs with
  | None => True
  | Some content =>
    content = [] \/ is_object_text content \/ content = B "null"
  end.

(** ** The handlers of [/data] *)

Record Request : Type := {
  Method : bytes;
  Body : option bytes     (* [None]: reading the body fails *)
}.

Record Response : Type := {
  StatusCode : Z;
  ContentType : bytes;
  Payload : bytes
}.

Definition MethodGet : bytes := B "GET".
Definition MethodPost : bytes := B "POST".
Definition MethodPut : bytes := B "PUT".

Definition StatusOK : Z := 200.
Definition StatusCreated : Z := 201.
Definition StatusBadRequest : Z := 400.
Definition StatusMethodNotAllowed : Z := 405.
Definition StatusInternalServerError : Z := 500.

(** [http.Error(w, msg, code)]. *)
Definition http_Error (msg : bytes) (code : Z) : Response :=
  {| StatusCode := code;
     ContentType := B "text/plain; charset=utf-8";
     Payload := msg ++ [10] |}.

Definition getDataHandler (e : env) (fs : FS) (r : Request) : Response :=
  if negb (bytes_eqb (Method r) MethodGet)
  then http_Error (B "Method Not Allowed") StatusMethodNotAllowed
  else
    match readDataFile e fs with
    | Err _ => http_Error (B "Internal Server Error") StatusInternalServerError
    | Ok data =>
      {| StatusCode := StatusOK;
         ContentType := B "application/json";
         Payload := match Marshal data with
                    | Ok b => b ++ [10]
                    | Err _ => []
                    end |}
    end.

(** [{"message": "Data successfully stored/updated", "status": %d}]. *)
Definition envelope (status : Z) : bytes :=
  B "{" ++ [34] ++ B "message" ++ [34] ++ B ": " ++ [34]
  ++ B "Data successfully stored/updated" ++ [34] ++ B ", "
  ++ [34] ++ B "status" ++ [34] ++ B ": " ++ itoa status ++ B "}".

Definition updateDataHandler (e : env) (fs : FS) (r : Request)
  : FS * Response :=
  if negb (bytes_eqb (Method r) MethodPost)
     && negb (bytes_eqb (Method r) MethodPut)
  then (fs, http_Error (B "Method Not Allowed") StatusMethodNotAllowed)
  else
    match Body r with
    | None => (fs, http_Error (B "Could not read request body") StatusBadRequest)
    | Some body =>
      match Unmarshal body with
      | Err _ =>
        (fs, http_Error (B "Invalid JSON format in request body")
                        StatusBadRequest)
      | Ok newData =>
        match saveDataFile e fs newData with
        | (fs', Some _) =>
          (fs', http_Error (B "Internal Server Error: Failed to save data")
                           StatusInternalServerError)
        | (fs', None) =>
          let status :=
            if bytes_eqb (Method r) MethodPost then StatusCreated
            else StatusOK in
          (fs', {| StatusCode := status;
                   ContentType := B "application/json";
                   Payload := envelope status |})
        end
      end
    end.

(** The handler that [main] registers for [/data]. *)
Definition dataRoute (e : env) (fs : FS) (r : Request) : FS * Response :=
  if bytes_eqb (Method r) MethodGet then (fs, getDataHandler e fs r)
  else if bytes_eqb (Method r) MethodPost || bytes_eqb (Method r) MethodPut
  then updateDataHandler e fs r
  else (fs, http_Error (B "Method Not Allowed") StatusMethodNotAllowed).

End Model.

Arguments VNil {lib}.
Arguments VBool {lib} b.
Arguments VFloat {lib} f.
Arguments VString {lib} s.
Arguments VSlice {lib} l.
Arguments VMap {lib} m.
Arguments OpRead {lib}.
Arguments OpReplace {lib} data.

(** ** The middleware in front of the router

    [main] serves [handlers.CORS(headers, methods, origins)(router)]:
    every request goes through the middleware of
    [github.com/gorilla/handlers] before the router sees it. With the
    options of [main] every origin is allowed, the allowed methods are
    GET, POST, PUT, DELETE and OPTIONS, and the allowed headers are the
    four that the package allows by itself and the three that [main]
    adds.

    The middleware never hands an OPTIONS request to the router. When the
    request names no origin it returns at once; nothing has been written
    then, and [net/http] sends 200 and no body. When it names one, the
    request is a preflight, and the middleware writes a status and no
    body. Every other request goes to the router (with headers added to
    the answer when an origin is named, which [Response] does not
    hold). *)

Definition MethodOptions : bytes := B "OPTIONS".

Definition StatusForbidden : Z := 403.

(** The headers of a request that the middleware reads. *)
Record CorsHeaders : Type := {
  Origin : bytes;                              (* [r.Header.Get("Origin")]: empty when there is none *)
  AccessControlRequestMethod : option bytes;   (* [None]: the request has no such header *)
  AccessControlRequestHeaders : list bytes     (* the names between the commas of the header,
                                                  trimmed and in canonical form *)
}.

(** [ch.isMatch]. *)
Definition isMatch (needle : bytes) (haystack : list bytes) : bool :=
  existsb (bytes_eqb needle) haystack.

Definition defaultCorsHeaders : list bytes :=
  [B "Accept"; B "Accept-Language"; B "Content-Language"; B "Origin"].

(** [handlers.AllowedHeaders] adds to the headers allowed by default. *)
Definition allowedHeaders : list bytes :=
  defaultCorsHeaders ++ [B "X-Requested-With"; B "Content-Type"; B "Authorization"].

(** [handlers.AllowedMethods] replaces the methods allowed by default. *)
Definition allowedMethods : list bytes :=
  [B "GET"; B "POST"; B "PUT"; B "DELETE"; B "OPTIONS"].

(** An answer of a status alone: no content type and no body. *)
Definition status_only (code : Z) : Response :=
  {| StatusCode := code; ContentType := []; Payload := [] |}.

(** [cors.ServeHTTP] around the handler [h]; [fs] is the file, which the
    middleware does not touch. *)
Definition CORS (h : Request -> FS * Response) (fs : FS) (c : CorsHeaders)
    (r : Request) : FS * Response :=
  if (length (Origin c) =? 0)%nat then                  (* [!ch.isOriginAllowed(origin)] *)
    if negb (bytes_eqb (Method r) MethodOptions) then h r
    else (fs, status_only StatusOK)
  else if bytes_eqb (Method r) MethodOptions then
    match AccessControlRequestMethod c with
    | None => (fs, status_only StatusBadRequest)
    | Some method =>
      if negb (isMatch method allowedMethods)
      then (fs, status_only StatusMethodNotAllowed)
      else if forallb (fun v => (length v =? 0)%nat
                                || isMatch v defaultCorsHeaders
                                || isMatch v allowedHeaders)
                      (AccessControlRequestHeaders c)
      then (fs, status_only StatusOK)
      else (fs, status_only StatusForbidden)
    end
  else h r.

(** What the server of [main] answers to a request on /data. *)
Definition served (lib : strconv) (e : env) (fs : FS) (c : CorsHeaders)
    (r : Request) : FS * Response :=
  CORS (dataRoute lib e fs) fs c r.

(** ** The lock of the store: calls that run together

    [net/http] serves every request in a goroutine of its own, so calls of
    [readDataFile] and [saveDataFile] on the one [Store] run together.
    Here a call advances by the steps between which another call can run:
    taking the lock, the file operations, releasing the lock (deferred, so
    on every path). [os.WriteFile] is three steps, [OpenFile] (which
    truncates), [Write] and [Close]; [os.ReadFile] is one step. *)

Module sync.

(** [sync.RWMutex]: the number of holders of the read lock, and whether
    the write lock is held. *)
Record RWMutex : Type := { readers : nat; writer : bool }.

Definition unlocked : RWMutex := {| readers := 0; writer := false |}.

(** [mu.RLock()]: [None] when the caller has to wait. (Go makes a reader
    wait also while a writer is waiting; the model lets it in, which only
    adds runs.) *)
Definition RLock (mu : RWMutex) : option RWMutex :=
  if writer mu then None
  else Some {| readers := S (readers mu); writer := false |}.

Definition RUnlock (mu : RWMutex) : RWMutex :=
  {| readers := pred (readers mu); writer := writer mu |}.

(** [mu.Lock()]: [None] when the caller has to wait. *)
Definition Lock (mu : RWMutex) : option RWMutex :=
  if writer mu then None
  else match readers mu with
       | O => Some {| readers := 0; writer := true |}
       | S _ => None
       end.

Definition Unlock (mu : RWMutex) : RWMutex :=
  {| readers := readers mu; writer := false |}.

End sync.

Section Goroutines.

Variable lib : strconv.

(** Where a call of [readDataFile] or [saveDataFile] stands. *)
Inductive call : Type :=
| read_entry                                      (* before [s.mu.RLock()] *)
| read_locked                                     (* before [os.ReadFile] *)
| read_exit (res : result store_error (JSONData lib))   (* before the deferred [RUnlock] *)
| read_done (res : result store_error (JSONData lib))   (* returned *)
| save_entry (data : JSONData lib)                (* before [s.mu.Lock()] *)
| save_locked (data : JSONData lib)               (* before [MarshalIndent] *)
| save_opened (jsonData : bytes)                  (* [os.WriteFile]: before [Write] *)
| save_written (failed : bool)                    (* [os.WriteFile]: before [Close] *)
| save_exit (err : option store_error)            (* before the deferred [Unlock] *)
| save_done (err : option store_error).           (* returned *)

(** One step of a call: the file, the lock and the call afterwards;
    [None] when the call waits for the lock or has returned. *)
Definition call_step (e : env) (fs : FS) (mu : sync.RWMutex) (c : call)
  : option (FS * sync.RWMutex * call) :=
  match c with
  | read_entry =>
    match sync.RLock mu with
    | Some mu' => Some (fs, mu', read_locked)
    | None => None
    end
  | read_locked => Some (fs, mu, read_exit (readDataFile lib e fs))
  | read_exit res => Some (fs, sync.RUnlock mu, read_done res)
  | read_done _ => None
  | save_entry data =>
    match sync.Lock mu with
    | Some mu' => Some (fs, mu', save_locked data)
    | None => None
    end
  | save_locked data =>
    match MarshalIndent lib data with
    | Err err => Some (fs, mu, save_exit (Some (SerializeError err)))
    | Ok jsonData =>
      match write e with
      | OpenFails => Some (fs, mu, save_exit (Some WriteError))
      | _ => Some (Some [], mu, save_opened jsonData)
      end
    end
  | save_opened jsonData =>
    match write e with
    | WriteFails n => Some (Some (firstn n jsonData), mu, save_written true)
    | _ => Some (Some jsonData, mu, save_written false)
    end
  | save_written failed =>
    let close_fails := match write e with CloseFails => true | _ => false end in
    Some (fs, mu, save_exit (if failed || close_fails then Some WriteError else None))
  | save_exit err => Some (fs, sync.Unlock mu, save_done err)
  | save_done _ => None
  end.

(** The file, the lock of the store, and the calls under way, each with
    what the operating system does for it. *)
Record world : Type := {
  file : FS;
  mu : sync.RWMutex;
  calls : list (env * call)
}.

Fixpoint set_call (l : list (env * call)) (i : nat) (c : call)
  : list (env * call) :=
  match l, i with
  | [], _ => []
  | (e, _) :: l', O => (e, c) :: l'
  | x :: l', S j => x :: set_call l' j c
  end.

(** Call [i] takes a step. *)
Definition step (w : world) (i : nat) : option world :=
  match nth_error (calls w) i with
  | None => None
  | Some (e, c) =>
    match call_step e (file w) (mu w) c with
    | None => None
    | Some (fs', mu', c') =>
      Some {| file := fs'; mu := mu'; calls := set_call (calls w) i c' |}
    end
  end.

(** A schedule names the call that runs next, step after step; a call
    that cannot take a step is passed over. *)
Fixpoint exec (w : world) (sched : list nat) : world :=
  match sched with
  | [] => w
  | i :: sched' =>
    exec (match step w i with Some w' => w' | None => w end) sched'
  end.

Definition spawn (eo : env * store_op lib) : env * call :=
  (fst eo, match snd eo with
           | OpRead => read_entry
           | OpReplace data => save_entry data
           end).

(** The calls of [trace] are all made while none has started. *)
Definition go (fs : FS) (trace : list (env * store_op lib)) : world :=
  {| file := fs; mu := sync.unlocked; calls := map spawn trace |}.

(** Call [i] runs alone from entry to return: [readDataFile] or
    [saveDataFile] as one step. *)
Definition run_alone (w : world) (i : nat) : world :=
  match nth_error (calls w) i with
  | Some (e, read_entry) =>
    {| file := file w; mu := mu w;
       calls := set_call (calls w) i (read_done (readDataFile lib e (file w))) |}
  | Some (e, save_entry data) =>
    {| file := fst (saveDataFile lib e (file w) data); mu := mu w;
       calls := set_call (calls w) i
                  (save_done (snd (saveDataFile lib e (file w) data))) |}
  | _ => w
  end.

(** The calls that hold the read lock, that hold the write lock, that
    have returned. *)
Definition holds_read (c : call) : bool :=
  match c with
  | read_locked | read_exit _ => true
  | _ => false
  end.

Definition holds_write (c : call) : bool :=
  match c with
  | save_locked _ | save_opened _ | save_written _ | save_exit _ => true
  | _ => false
  end.

Definition returned (c : call) : bool :=
  match c with
  | read_done _ | save_done _ => true
  | _ => false
  end.

(** The number of calls in one of these states. *)
Definition inside (p : call -> bool) (l : list (env * call)) : nat :=
  length (filter (fun ec => p (snd ec)) l).

(** The steps that a call has still to take, at most. *)
Definition remaining (c : call) : nat :=
  match c with
  | read_entry => 3
  | read_locked => 2
  | read_exit _ => 1
  | read_done _ => 0
  | save_entry _ => 5
  | save_locked _ => 4
  | save_opened _ => 3
  | save_written _ => 2
  | save_exit _ => 1
  | save_done _ => 0
  end.

Definition todo (l : list (env * call)) : nat :=
  fold_right (fun ec n => (remaining (snd ec) + n)%nat) 0%nat l.

(** The lock counts its holders. *)
Definition lock_inv (w : world) : Prop :=
  sync.readers (mu w) = inside holds_read (calls w)
  /\ (if sync.writer (mu w) then 1%nat else 0%nat) = inside holds_write (calls w)
  /\ (sync.writer (mu w) = true -> sync.readers (mu w) = 0%nat).

(** How call [i], in state [c], stands to the calls that have taken
    effect, in the order [order]; [ws] is the world in which these have run
    alone, one after the other, from the start [w0]. A read takes effect at
    [os.ReadFile], a save when it releases the lock. *)
Definition call_inv (w0 ws w : world) (order : list nat) (i : nat)
    (e : env) (c : call) : Prop :=
  match c with
  | read_entry | read_locked =>
    ~ In i order /\ nth_error (calls w0) i = Some (e, read_entry)
  | read_exit res | read_done res =>
    In i order /\ nth_error (calls ws) i = Some (e, read_done res)
  | save_entry d =>
    ~ In i order /\ nth_error (calls w0) i = Some (e, save_entry d)
  | save_locked d =>
    ~ In i order /\ nth_error (calls w0) i = Some (e, save_entry d)
    /\ file w = file ws
  | save_opened text =>
    ~ In i order
    /\ exists d, nth_error (calls w0) i = Some (e, save_entry d)
                 /\ MarshalIndent lib d = Ok text
                 /\ write e <> OpenFails
                 /\ file w = Some []
  | save_written failed =>
    ~ In i order
    /\ exists d text,
         nth_error (calls w0) i = Some (e, save_entry d)
         /\ MarshalIndent lib d = Ok text
         /\ write e <> OpenFails
         /\ file w = match write e with
                     | WriteFails n => Some (firstn n text)
                     | _ => Some text
                     end
         /\ failed = match write e with WriteFails _ => true | _ => false end
  | save_exit err =>
    ~ In i order
    /\ exists d, nth_error (calls w0) i = Some (e, save_entry d)
                 /\ saveDataFile lib e (file ws) d = (file w, err)
  | save_done err =>
    In i order /\ nth_error (calls ws) i = Some (e, save_done err)
  end.

(** What holds of every world that a schedule reaches from [w0]. *)
Definition serial_inv (w0 w : world) : Prop :=
  exists order,
    NoDup order
    /\ (forall i, In i order -> (i < length (calls w0))%nat)
    /\ lock_inv w
    /\ length (calls w) = length (calls w0)
    /\ (forall i e c, nth_error (calls w) i = Some (e, c) ->
          call_inv w0 (fold_left run_alone order w0) w order i e c)
    /\ (inside holds_write (calls w) = 0%nat ->
        file w = file (fold_left run_alone order w0)).

End Goroutines.

Arguments read_entry {lib}.
Arguments read_locked {lib}.
Arguments read_exit {lib} res.
Arguments read_done {lib} res.
Arguments save_entry {lib} data.
Arguments save_locked {lib} data.
Arguments save_opened {lib} jsonData.
Arguments save_written {lib} failed.
Arguments save_exit {lib} err.
Arguments save_done {lib} err.
Arguments file {lib} w.
Arguments mu {lib} w.
Arguments calls {lib} w.
Arguments call_step {lib} e fs mu c.
Arguments set_call {lib} l i c.
Arguments step {lib} w i.
Arguments exec {lib} w sched.
Arguments spawn {lib} eo.
Arguments go {lib} fs trace.
Arguments run_alone {lib} w i.
Arguments holds_read {lib} c.
Arguments holds_write {lib} c.
Arguments returned {lib} c.
Arguments inside {lib} p l.
Arguments remaining {lib} c.
Arguments todo {lib} l.
Arguments lock_inv {lib} w.
Arguments call_inv {lib} w0 ws w order i e c.
Arguments serial_inv {lib} w0 w.

(** ** What is safe inside HTML *)

(** A byte that is not below 32 and is none of [&], [<] and [>]: it opens
    no tag and no entity in HTML and is none of the control characters of
    ASCII from 0 to 31. The byte 127 and the bytes from 128 on pass: the
    encoder writes DEL and the characters from U+0080 on as they are. *)
Definition html_safe (b : Z) : bool :=
  (32 <=? b) && negb (b =? 38) && negb (b =? 60) && negb (b =? 62).

(** The bytes of a number literal: digits, signs, the dot and the letter
    of the exponent. *)
Definition number_byte (c : Z) : bool :=
  is_digit c || (c =? 43) || (c =? 45) || (c =? 46) || (c =? 69) || (c =? 101).

(** ** Examples *)

(** The document [{"cart": [1, 2, 3]}], the body that carries it and
    the text that [saveDataFile] writes for it. *)
Definition cart : JSONData integers :=
  Some [(B "cart",
         VSlice [@VFloat integers 1; @VFloat integers 2; @VFloat integers 3])].

Definition cart_body : bytes :=
  B "{" ++ [34] ++ B "cart" ++ [34] ++ B ": [1,2,3]}".

Definition empty_cart_body : bytes :=
  B "{" ++ [34] ++ B "cart" ++ [34] ++ B ": []}".

Definition cart_text : bytes :=
  B "{" ++ [10] ++ B "  " ++ [34] ++ B "cart" ++ [34] ++ B ": ["
  ++ [10] ++ B "    1," ++ [10] ++ B "    2," ++ [10] ++ B "    3"
  ++ [10] ++ B "  ]" ++ [10] ++ B "}".

(** The file can be opened, and no byte can be written. *)
Definition disk_full : env :=
  {| stat_fails := false; read_fails := false; write := WriteFails 0 |}.


(** A request that names no origin, and the preflight that a browser
    sends before a PUT of JSON from another origin. *)
Definition no_origin : CorsHeaders :=
  {| Origin := []; AccessControlRequestMethod := None;
     AccessControlRequestHeaders := [] |}.

Definition preflight_put : CorsHeaders :=
  {| Origin := B "http://localhost:3000";
     AccessControlRequestMethod := Some (B "PUT");
     AccessControlRequestHeaders := [B "Content-Type"] |}.

(** The body [{"a": 1, "a": 2}], in which a key stands twice. *)
Definition twice_body : bytes :=
  B "{" ++ [34] ++ B "a" ++ [34] ++ B ": 1, " ++ [34] ++ B "a" ++ [34] ++ B ": 2}".

(** A file whose document holds a tag and an ampersand. *)
Definition tag_file : bytes :=
  B "{" ++ [34] ++ B "note" ++ [34] ++ B ": " ++ [34] ++ B "<b>&" ++ [34] ++ B "}".

(** A save of the cart and a read that run together, and a schedule in
    which the save takes the lock first and the read waits for it. *)
Definition together : list (env * store_op integers) :=
  [(calm, OpReplace cart); (calm, OpRead)].

Definition post_first : list nat :=
  [0; 1; 0; 1; 0; 0; 1; 0; 1; 1; 1]%nat.


(** * Verification *)

(** Turns the boolean tests among the hypotheses into propositions. *)
Ltac bool_hyps :=
  repeat match goal with
  | H : _ && _ = true |- _ => apply andb_prop in H; destruct H
  | H : _ || _ = false |- _ => apply orb_false_elim in H; destruct H
  | H : negb _ = true |- _ => apply negb_true_iff in H
  | H : negb _ = false |- _ => apply negb_false_iff in H
  | H : (_ <? _) = true |- _ => apply Z.ltb_lt in H
  | H : (_ <? _) = false |- _ => apply Z.ltb_ge in H
  | H : (_ <=? _) = true |- _ => apply Z.leb_le in H
  | H : (_ <=? _) = false |- _ => apply Z.leb_gt in H
  | H : (_ =? _) = true |- _ => apply Z.eqb_eq in H
  | H : (_ =? _) = false |- _ => apply Z.eqb_neq in H
  end.

(** Replaces the comparisons of the goal that [lia] decides by their
    values. *)
Ltac decide_tests :=
  repeat match goal with
  | |- context [?a <? ?b] =>
    first [ replace (a <? b) with true by (symmetry; apply Z.ltb_lt; lia)
          | replace (a <? b) with false by (symmetry; apply Z.ltb_ge; lia) ]
  | |- context [?a <=? ?b] =>
    first [ replace (a <=? b) with true by (symmetry; apply Z.leb_le; lia)
          | replace (a <=? b) with false by (symmetry; apply Z.leb_gt; lia) ]
  | |- context [?a =? ?b] =>
    first [ replace (a =? b) with true by (symmetry; apply Z.eqb_eq; lia)
          | replace (a =? b) with false by (symmetry; apply Z.eqb_neq; lia) ]
  end;
  cbn [andb orb negb].

(** ** UTF-8 *)

(** A rune decoded from a valid encoding is encoded by the bytes it was
    read from. *)
Lemma EncodeRune_DecodeRune (p0 : Z) (t : bytes) (r : Z) (size : nat) :
  0 <= p0 ->
  utf8.DecodeRune (p0 :: t) = (r, size) ->
  (r =? utf8.RuneError) && (size =? 1)%nat = false ->
  utf8.EncodeRune r = firstn size (p0 :: t) /\ (1 <= size <= S (length t))%nat.
Proof.
  intros Hp0 Hd Hv. unfold utf8.DecodeRune in Hd.
  destruct (p0 <? 128) eqn:E1.
  { inversion Hd; subst. bool_hyps. unfold utf8.EncodeRune. decide_tests.
    cbn [firstn length]. split; [reflexivity|lia]. }
  destruct ((194 <=? p0) && (p0 <=? 223)) eqn:E2.
  { destruct t as [|b1 t]; [inversion Hd; subst; discriminate|].
    unfold utf8.cont in Hd. destruct ((128 <=? b1) && (b1 <=? 191)) eqn:E3;
      [|inversion Hd; subst; discriminate].
    inversion Hd; subst. bool_hyps. unfold utf8.EncodeRune. decide_tests.
    cbn [firstn length]. split; [|lia]. f_equal; [|f_equal]; Z.div_mod_to_equations; lia. }
  destruct ((224 <=? p0) && (p0 <=? 239)) eqn:E3.
  { destruct t as [|b1 [|b2 t]]; try (inversion Hd; subst; discriminate).
    unfold utf8.cont in Hd.
    match type of Hd with (if ?c then _ else _) = _ => destruct c eqn:E4 end;
      [|inversion Hd; subst; discriminate].
    inversion Hd; subst. clear Hd Hv. bool_hyps. unfold utf8.EncodeRune, utf8.MaxRune.
    set (r := (p0 - 224) * 4096 + (b1 - 128) * 64 + (b2 - 128)).
    assert (Hr : 128 <= b1 <= 191 /\ 2048 <= r <= 65535 /\ ~ (55296 <= r <= 57343)).
    { unfold r. destruct (p0 =? 224) eqn:Ea; destruct (p0 =? 237) eqn:Eb; bool_hyps; lia. }
    destruct (Z_le_gt_dec 55296 r); decide_tests;
      (cbn [firstn length]; split; [|lia]); unfold r;
      (f_equal; [|f_equal; [|f_equal]]); Z.div_mod_to_equations; lia. }
  destruct ((240 <=? p0) && (p0 <=? 244)) eqn:E4.
  { destruct t as [|b1 [|b2 [|b3 t]]]; try (inversion Hd; subst; discriminate).
    unfold utf8.cont in Hd.
    match type of Hd with (if ?c then _ else _) = _ => destruct c eqn:E5 end;
      [|inversion Hd; subst; discriminate].
    inversion Hd; subst. clear Hd Hv. bool_hyps. unfold utf8.EncodeRune, utf8.MaxRune.
    set (r := (p0 - 240) * 262144 + (b1 - 128) * 4096 + (b2 - 128) * 64 + (b3 - 128)).
    assert (Hr : 128 <= b1 <= 191 /\ 65536 <= r <= 1114111).
    { unfold r. destruct (p0 =? 240) eqn:Ea; destruct (p0 =? 244) eqn:Eb; bool_hyps; lia. }
    decide_tests. cbn [firstn length]. split; [|lia]. unfold r. f_equal; [|f_equal; [|f_equal; [|f_equal]]]; Z.div_mod_to_equations; lia. }
  inversion Hd; subst. discriminate.
Qed.

(** Decoding reads no more than the bytes of the rune. *)
Lemma DecodeRune_prefix (p0 : Z) (t x : bytes) (r : Z) (size : nat) :
  utf8.DecodeRune (p0 :: t) = (r, size) ->
  (r =? utf8.RuneError) && (size =? 1)%nat = false ->
  utf8.DecodeRune (firstn size (p0 :: t) ++ x) = (r, size).
Proof.
  intros Hd Hv. unfold utf8.DecodeRune in Hd.
  destruct (p0 <? 128) eqn:E1.
  { inversion Hd; subst. cbn [firstn app]. unfold utf8.DecodeRune. now rewrite E1. }
  destruct ((194 <=? p0) && (p0 <=? 223)) eqn:E2.
  { destruct t as [|b1 t]; [inversion Hd; subst; discriminate|].
    destruct (utf8.cont b1) eqn:E3; [|inversion Hd; subst; discriminate].
    inversion Hd; subst. cbn [firstn app]. unfold utf8.DecodeRune.
    now rewrite E1, E2, E3. }
  destruct ((224 <=? p0) && (p0 <=? 239)) eqn:E3.
  { destruct t as [|b1 [|b2 t]]; try (inversion Hd; subst; discriminate).
    match type of Hd with (if ?c then _ else _) = _ => destruct c eqn:E4 end;
      [|inversion Hd; subst; discriminate].
    inversion Hd; subst. cbn [firstn app]. unfold utf8.DecodeRune.
    now rewrite E1, E2, E3, E4. }
  destruct ((240 <=? p0) && (p0 <=? 244)) eqn:E4.
  { destruct t as [|b1 [|b2 [|b3 t]]]; try (inversion Hd; subst; discriminate).
    match type of Hd with (if ?c then _ else _) = _ => destruct c eqn:E5 end;
      [|inversion Hd; subst; discriminate].
    inversion Hd; subst. cbn [firstn app]. unfold utf8.DecodeRune.
    now rewrite E1, E2, E3, E4, E5. }
  inversion Hd; subst. discriminate.
Qed.

Lemma hexval_hex (d : Z) : 0 <= d < 16 -> hexval (hex d) = Some d.
Proof.
  intros H. unfold hex, hexval.
  destruct (d <? 10) eqn:E; bool_hyps; decide_tests; f_equal; lia.
Qed.

(** What the scanner reads back from an escaped byte. *)
Lemma scan_string_escapeByte (n : nat) (b : Z) (rest : bytes) :
  0 <= b < 128 -> htmlSafe b = false ->
  scan_string (S n) (escapeByte b ++ rest) = cons_to [b] (scan_string n rest).
Proof.
  intros Hb Hs. unfold escapeByte.
  destruct ((b =? 92) || (b =? 34)) eqn:E1.
  { apply orb_true_iff in E1. destruct E1 as [E|E]; apply Z.eqb_eq in E; subst; reflexivity. }
  apply orb_false_elim in E1. destruct E1 as [E1 E1'].
  destruct (b =? 8) eqn:E2; [apply Z.eqb_eq in E2; subst; reflexivity|].
  destruct (b =? 12) eqn:E3; [apply Z.eqb_eq in E3; subst; reflexivity|].
  destruct (b =? 10) eqn:E4; [apply Z.eqb_eq in E4; subst; reflexivity|].
  destruct (b =? 13) eqn:E5; [apply Z.eqb_eq in E5; subst; reflexivity|].
  destruct (b =? 9) eqn:E6; [apply Z.eqb_eq in E6; subst; reflexivity|].
  cbn [app scan_string].
  change (92 =? 34) with false. change (92 =? 92) with true.
  change (117 =? 117) with true. cbv iota.
  unfold getu4, hex4. change ((92 =? 92) && (117 =? 117)) with true. cbv iota.
  change (hexval 48) with (Some 0).
  rewrite !hexval_hex by (Z.div_mod_to_equations; lia).
  replace (((0 * 16 + 0) * 16 + b / 16) * 16 + b mod 16) with b
    by (Z.div_mod_to_equations; lia).
  unfold utf16.IsSurrogate, utf8.EncodeRune. decide_tests. reflexivity.
Qed.

(** The scanner reads a string back from what [appendString] writes for
    it, when the string is valid UTF-8. *)
Lemma scan_string_appendString_loop (n : nat) :
  forall (s : bytes) (k fuel : nat) (rest : bytes),
    (length s <= n)%nat ->
    utf8.Valid_loop k s = true ->
    (length (appendString_loop n s) < fuel)%nat ->
    scan_string fuel (appendString_loop n s ++ 34 :: rest) = Some (s, rest).
Proof.
  induction n as [|n IH]; intros s k fuel rest Hlen Hval Hfuel.
  - destruct s; [|cbn in Hlen; lia].
    destruct fuel; [cbn in Hfuel; lia|]. reflexivity.
  - destruct s as [|b t].
    { destruct fuel; [cbn in Hfuel; lia|]. reflexivity. }
    destruct k as [|k]; [discriminate|].
    cbn [utf8.Valid_loop] in Hval.
    destruct (utf8.DecodeRune (b :: t)) as [c size] eqn:Hd.
    apply andb_prop in Hval. destruct Hval as [Hval Hrest].
    apply andb_prop in Hval. destruct Hval as [Hb Hok].
    apply Z.leb_le in Hb. apply negb_true_iff in Hok.
    destruct (EncodeRune_DecodeRune b t c size Hb Hd Hok) as [Henc Hsize].
    cbn [appendString_loop] in *. rewrite Hd in *.
    destruct (b <? 128) eqn:Eb.
    + (* ASCII *)
      apply Z.ltb_lt in Eb.
      assert (size = 1%nat).
      { unfold utf8.DecodeRune in Hd. replace (b <? 128) with true in Hd by (symmetry; apply Z.ltb_lt; lia).
        now inversion Hd. }
      subst size. cbn [skipn] in Hrest.
      destruct fuel as [|fuel]; [lia|].
      destruct (htmlSafe b) eqn:Es.
      * cbn [app] in *. cbn [scan_string].
        unfold htmlSafe in Es. bool_hyps. decide_tests.
        rewrite (IH t k fuel rest); [reflexivity|cbn in Hlen; lia|assumption|cbn in Hfuel; lia].
      * rewrite <- app_assoc. rewrite scan_string_escapeByte by (auto; lia).
        rewrite length_app in Hfuel.
        assert (1 <= length (escapeByte b))%nat.
        { unfold escapeByte. repeat match goal with |- context [if ?c then _ else _] => destruct c end; cbn; lia. }
        rewrite (IH t k fuel rest); [reflexivity|cbn in Hlen; lia|assumption|lia].
    + (* a rune of several bytes *)
      apply Z.ltb_ge in Eb. rewrite Hok in *.
      assert (Hsk : (length (skipn size (b :: t)) <= n)%nat).
      { rewrite length_skipn. cbn [length] in *. lia. }
      assert (Hsplit : firstn size (b :: t) ++ skipn size (b :: t) = b :: t)
        by apply firstn_skipn.
      destruct fuel as [|fuel]; [lia|].
      destruct ((c =? 8232) || (c =? 8233)) eqn:Els.
      * assert (Hc : 8232 <= c <= 8233).
        { apply orb_true_iff in Els. destruct Els as [E|E]; apply Z.eqb_eq in E; lia. }
        cbn [app] in *. cbn [scan_string].
        change (92 =? 34) with false. change (92 =? 92) with true.
        change (117 =? 117) with true. cbv iota.
        unfold getu4, hex4. change ((92 =? 92) && (117 =? 117)) with true. cbv iota.
        change (hexval 50) with (Some 2). change (hexval 48) with (Some 0).
        rewrite hexval_hex by (Z.div_mod_to_equations; lia).
        replace (((2 * 16 + 0) * 16 + 2) * 16 + c mod 16) with c
          by (Z.div_mod_to_equations; lia).
        unfold utf16.IsSurrogate. decide_tests.
        rewrite (IH (skipn size (b :: t)) k fuel rest); [|assumption|assumption|cbn [length] in Hfuel; lia].
        cbn [cons_to]. rewrite Henc, Hsplit. reflexivity.
      * rewrite <- app_assoc.
        assert (Hfirst : exists u, firstn size (b :: t) = b :: u).
        { destruct size; [lia|]. cbn [firstn]. eauto. }
        destruct Hfirst as [u Hu].
        pose proof (DecodeRune_prefix b t (appendString_loop n (skipn size (b :: t)) ++ 34 :: rest) c size Hd Hok) as Hp.
        rewrite length_app in Hfuel.
        assert (Hlu : length (firstn size (b :: t)) = size) by (apply firstn_length_le; cbn [length]; lia).
        rewrite Hu in *. cbn [app] in *. cbn [scan_string]. decide_tests.
        rewrite Hp. cbv iota beta.
        replace (skipn size (b :: u ++ appendString_loop n (skipn size (b :: t)) ++ 34 :: rest))
          with (appendString_loop n (skipn size (b :: t)) ++ 34 :: rest).
        2:{ change (b :: u ++ ?x) with ((b :: u) ++ x). rewrite skipn_app, Hlu, Nat.sub_diag.
            rewrite skipn_all2 with (l := b :: u) by lia. reflexivity. }
        rewrite (IH (skipn size (b :: t)) k fuel rest); [|assumption|assumption|cbn [length] in Hfuel; lia].
        cbn [cons_to]. rewrite Henc. cbn [app]. rewrite Hsplit. reflexivity.
Qed.

(** ** Number literals *)

Lemma digits_sound (s : bytes) : fst (digits s) ++ snd (digits s) = s.
Proof.
  induction s as [|c t IH]; [reflexivity|].
  cbn [digits]. destruct (is_digit c); [|reflexivity].
  destruct (digits t) as [d r]. cbn [fst snd app] in *. now rewrite IH.
Qed.

Lemma digits_app (s rest : bytes) :
  number_end rest = true ->
  digits (s ++ rest) = (fst (digits s), snd (digits s) ++ rest).
Proof.
  intros Hend. induction s as [|c t IH].
  - cbn [app digits fst snd]. destruct rest as [|c r]; [reflexivity|].
    cbn [number_end] in Hend. cbn [digits].
    destruct (is_digit c); [discriminate|reflexivity].
  - cbn [app digits]. destruct (is_digit c); [|reflexivity].
    rewrite IH. destruct (digits t) as [d r]. reflexivity.
Qed.

Lemma digits1_app (s rest d r : bytes) :
  number_end rest = true ->
  digits1 s = Some (d, r) -> digits1 (s ++ rest) = Some (d, r ++ rest).
Proof.
  intros Hend. unfold digits1. rewrite (digits_app s rest Hend).
  destruct (digits s) as [[|c d'] r']; [discriminate|].
  cbn [fst snd]. intros H. now inversion H.
Qed.

Lemma digits1_sound (s d r : bytes) : digits1 s = Some (d, r) -> s = d ++ r.
Proof.
  unfold digits1. pose proof (digits_sound s) as Hs.
  destruct (digits s) as [[|c d'] r']; [discriminate|].
  intros H. injection H as <- <-. symmetry. exact Hs.
Qed.

Lemma scan_int_app (s rest i r : bytes) :
  number_end rest = true ->
  scan_int s = Some (i, r) -> scan_int (s ++ rest) = Some (i, r ++ rest).
Proof.
  intros Hend. destruct s as [|c t]; [discriminate|].
  cbn [app scan_int]. destruct (c =? 48).
  - intros H. now inversion H.
  - destruct (is_digit c); [|discriminate].
    rewrite (digits_app t rest Hend). destruct (digits t) as [d r'].
    cbn [fst snd]. intros H. now inversion H.
Qed.

Lemma scan_int_sound (s i r : bytes) : scan_int s = Some (i, r) -> s = i ++ r.
Proof.
  destruct s as [|c t]; [discriminate|]. cbn [scan_int].
  destruct (c =? 48) eqn:E.
  - apply Z.eqb_eq in E. subst. intros H. now inversion H.
  - destruct (is_digit c); [|discriminate].
    pose proof (digits_sound t) as Hs. destruct (digits t) as [d r'].
    intros H. injection H as <- <-. cbn [fst snd app] in *. now rewrite Hs.
Qed.

Lemma scan_frac_app (s rest f r : bytes) :
  number_end rest = true ->
  scan_frac s = Some (f, r) -> scan_frac (s ++ rest) = Some (f, r ++ rest).
Proof.
  intros Hend. destruct s as [|c t].
  - intros H. inversion H; subst. cbn [app].
    destruct rest as [|c r]; [reflexivity|]. cbn [number_end] in Hend.
    cbn [scan_frac].
    destruct (is_digit c), (c =? 46); try discriminate; reflexivity.
  - cbn [app scan_frac]. destruct (c =? 46).
    + destruct (digits1 t) as [[d r']|] eqn:Hd; [|discriminate].
      rewrite (digits1_app t rest d r' Hend Hd). cbn [cons_to].
      intros H. now inversion H.
    + intros H. now inversion H.
Qed.

Lemma scan_frac_sound (s f r : bytes) : scan_frac s = Some (f, r) -> s = f ++ r.
Proof.
  destruct s as [|c t]; [intros H; now inversion H|]. cbn [scan_frac].
  destruct (c =? 46) eqn:E.
  - apply Z.eqb_eq in E. subst.
    destruct (digits1 t) as [[d r']|] eqn:Hd; [|discriminate].
    apply digits1_sound in Hd. cbn [cons_to]. intros H. inversion H; subst. reflexivity.
  - intros H. now inversion H.
Qed.

Lemma scan_exp_app (s rest x r : bytes) :
  number_end rest = true ->
  scan_exp s = Some (x, r) -> scan_exp (s ++ rest) = Some (x, r ++ rest).
Proof.
  intros Hend. destruct s as [|c t].
  - intros H. inversion H; subst. cbn [app].
    destruct rest as [|c r]; [reflexivity|]. cbn [number_end] in Hend.
    cbn [scan_exp].
    destruct (is_digit c), (c =? 46), (c =? 101), (c =? 69);
      try discriminate; reflexivity.
  - cbn [app scan_exp]. destruct ((c =? 101) || (c =? 69)).
    + destruct t as [|g t']; [discriminate|]. cbn [app].
      destruct ((g =? 43) || (g =? 45)).
      * destruct (digits1 t') as [[d r']|] eqn:Hd; [|discriminate].
        rewrite (digits1_app t' rest d r' Hend Hd). cbn [cons_to].
        intros H. now inversion H.
      * destruct (digits1 (g :: t')) as [[d r']|] eqn:Hd; [|discriminate].
        change (g :: t' ++ rest) with ((g :: t') ++ rest).
        rewrite (digits1_app (g :: t') rest d r' Hend Hd). cbn [cons_to].
        intros H. now inversion H.
    + intros H. now inversion H.
Qed.

Lemma scan_exp_sound (s x r : bytes) : scan_exp s = Some (x, r) -> s = x ++ r.
Proof.
  destruct s as [|c t]; [intros H; now inversion H|]. cbn [scan_exp].
  destruct ((c =? 101) || (c =? 69)).
  - destruct t as [|g t']; [discriminate|].
    destruct ((g =? 43) || (g =? 45)).
    + destruct (digits1 t') as [[d r']|] eqn:Hd; [|discriminate].
      apply digits1_sound in Hd. cbn [cons_to]. intros H. inversion H; subst. reflexivity.
    + destruct (digits1 (g :: t')) as [[d r']|] eqn:Hd; [|discriminate].
      apply digits1_sound in Hd. cbn [cons_to]. intros H. inversion H; subst.
      cbn [app]. now rewrite Hd.
  - intros H. now inversion H.
Qed.

Lemma scan_number_sound (s l r : bytes) :
  scan_number s = Some (l, r) -> s = l ++ r.
Proof.
  unfold scan_number.
  set (p := match s with
            | [] => ([], s)
            | c :: t => if c =? 45 then ([45], t) else ([], s)
            end).
  assert (Hp : s = fst p ++ snd p).
  { unfold p. destruct s as [|c t]; [reflexivity|].
    destruct (c =? 45) eqn:E; [|reflexivity]. apply Z.eqb_eq in E. now subst. }
  destruct p as [sign s1]. cbn [fst snd] in Hp.
  destruct (scan_int s1) as [[i s2]|] eqn:Hi; [|discriminate].
  destruct (scan_frac s2) as [[f s3]|] eqn:Hf; [|discriminate].
  destruct (scan_exp s3) as [[e s4]|] eqn:He; [|discriminate].
  intros H. inversion H; subst.
  apply scan_int_sound in Hi. apply scan_frac_sound in Hf. apply scan_exp_sound in He.
  subst. now rewrite <- !app_assoc.
Qed.

Lemma scan_number_app (s rest l r : bytes) :
  number_end rest = true ->
  scan_number s = Some (l, r) -> scan_number (s ++ rest) = Some (l, r ++ rest).
Proof.
  intros Hend. unfold scan_number.
  destruct s as [|c t]; [discriminate|]. cbn [app].
  assert (Hgen : forall sign s1,
    match scan_int s1 with
    | Some (i, s2) =>
      match scan_frac s2 with
      | Some (f, s3) =>
        match scan_exp s3 with
        | Some (e, s4) => Some (sign ++ i ++ f ++ e, s4)
        | None => None
        end
      | None => None
      end
    | None => None
    end = Some (l, r) ->
    match scan_int (s1 ++ rest) with
    | Some (i, s2) =>
      match scan_frac s2 with
      | Some (f, s3) =>
        match scan_exp s3 with
        | Some (e, s4) => Some (sign ++ i ++ f ++ e, s4)
        | None => None
        end
      | None => None
      end
    | None => None
    end = Some (l, r ++ rest)).
  { intros sign s1.
    destruct (scan_int s1) as [[i s2]|] eqn:Hi; [|discriminate].
    destruct (scan_frac s2) as [[f s3]|] eqn:Hf; [|discriminate].
    destruct (scan_exp s3) as [[e s4]|] eqn:He; [|discriminate].
    rewrite (scan_int_app _ _ _ _ Hend Hi), (scan_frac_app _ _ _ _ Hend Hf),
      (scan_exp_app _ _ _ _ Hend He).
    intros H. now inversion H. }
  destruct (c =? 45).
  - apply Hgen.
  - apply (Hgen [] (c :: t)).
Qed.

(** A number literal, followed by what ends it, is read as itself. *)
Lemma scan_number_literal (lit rest : bytes) :
  is_number_literal lit = true -> number_end rest = true ->
  scan_number (lit ++ rest) = Some (lit, rest).
Proof.
  unfold is_number_literal. intros Hlit Hend.
  destruct (scan_number lit) as [[l r]|] eqn:Hs; [|discriminate].
  destruct r; [|discriminate].
  pose proof (scan_number_sound _ _ _ Hs) as Heq. rewrite app_nil_r in Heq. subst l.
  now rewrite (scan_number_app _ _ _ _ Hend Hs).
Qed.

(** A number literal starts with a minus sign or a digit. *)
Lemma number_literal_head (lit : bytes) :
  is_number_literal lit = true ->
  exists c t, lit = c :: t /\ (c =? 45) || is_digit c = true.
Proof.
  unfold is_number_literal, scan_number. intros H.
  destruct lit as [|c t]; [discriminate|]. exists c, t. split; [reflexivity|].
  destruct (c =? 45); [reflexivity|]. cbn [orb].
  cbn [scan_int] in H. destruct (c =? 48) eqn:E.
  - apply Z.eqb_eq in E. now subst.
  - destruct (is_digit c); [reflexivity|discriminate].
Qed.

(** ** The scanner, by the first byte of a value *)

Lemma value_end_number_end (rest : bytes) :
  value_end rest = true -> number_end rest = true.
Proof.
  destruct rest as [|c r]; [reflexivity|]. cbn [value_end number_end].
  unfold is_space, is_digit. intros H.
  repeat (apply orb_true_iff in H; destruct H as [H|H]);
    apply Z.eqb_eq in H; subst; reflexivity.
Qed.

Lemma skip_space_indent (d : nat) (s : bytes) :
  skip_space (concat (repeat [32; 32] d) ++ s) = skip_space s.
Proof. induction d as [|d IH]; [reflexivity|]. cbn. exact IH. Qed.

Lemma skip_space_newline (pretty : bool) (d : nat) (s : bytes) :
  skip_space (newline pretty d ++ s) = skip_space s.
Proof.
  destruct pretty; [|reflexivity]. unfold newline. cbn [app skip_space].
  change (is_space 10) with true. cbv iota. apply skip_space_indent.
Qed.

Lemma value_end_newline (pretty : bool) (d : nat) (c : Z) (r : bytes) :
  (c =? 93) || (c =? 125) = true -> value_end (newline pretty d ++ c :: r) = true.
Proof.
  intros H. destruct pretty; [reflexivity|]. cbn [newline app value_end].
  rewrite <- !orb_assoc. rewrite H. now rewrite !orb_true_r.
Qed.

Lemma scan_value_skip (fuel : nat) (depth : Z) (pretty : bool) (d : nat) (s : bytes) :
  scan_value fuel depth (newline pretty d ++ s) = scan_value fuel depth s.
Proof.
  destruct fuel; [reflexivity|]. cbn [scan_value]. now rewrite skip_space_newline.
Qed.

Lemma scan_elements_skip (fuel : nat) (depth : Z) (pretty : bool) (d : nat) (s : bytes) :
  scan_elements fuel depth (newline pretty d ++ s) = scan_elements fuel depth s.
Proof.
  destruct fuel; [reflexivity|]. cbn [scan_elements]. now rewrite scan_value_skip.
Qed.

Lemma scan_members_skip (fuel : nat) (depth : Z) (pretty : bool) (d : nat) (s : bytes) :
  scan_members fuel depth (newline pretty d ++ s) = scan_members fuel depth s.
Proof.
  destruct fuel; [reflexivity|]. cbn [scan_members]. now rewrite skip_space_newline.
Qed.

Lemma skip_space_start (c : Z) (r : bytes) :
  value_start c = true -> skip_space (c :: r) = c :: r.
Proof.
  unfold value_start. intros H. cbn [skip_space].
  destruct (is_space c); [discriminate|reflexivity].
Qed.

(** The equations of [scan_value], by the first byte. *)

Lemma scan_value_string (n : nat) (depth : Z) (s rest : bytes) :
  utf8.Valid s = true ->
  scan_value (S n) depth (appendString s ++ rest) = Some (JString s, rest).
Proof.
  intros Hv. unfold appendString. cbn [app scan_value skip_space].
  change (is_space 34) with false. cbv iota.
  change (34 =? 123) with false. change (34 =? 91) with false.
  change (34 =? 34) with true. cbv iota.
  rewrite <- app_assoc. cbn [app].
  rewrite (scan_string_appendString_loop (length s) s (length s) _ rest);
    [reflexivity|lia|exact Hv|].
  rewrite length_app. cbn [length]. lia.
Qed.

Lemma scan_value_number (n : nat) (depth : Z) (lit rest : bytes) :
  is_number_literal lit = true -> value_end rest = true ->
  scan_value (S n) depth (lit ++ rest) = Some (JNumber lit, rest).
Proof.
  intros Hlit Hend.
  destruct (number_literal_head lit Hlit) as (c & t & -> & Hc).
  pose proof (scan_number_literal (c :: t) rest Hlit (value_end_number_end _ Hend)) as Hs.
  cbn [app] in *. cbn [scan_value skip_space].
  assert (Hcases : c = 45 \/ 48 <= c <= 57).
  { apply orb_true_iff in Hc. destruct Hc as [H|H]; [apply Z.eqb_eq in H; auto|].
    unfold is_digit in H. bool_hyps. lia. }
  replace (is_space c) with false.
  2:{ symmetry. unfold is_space. repeat (apply orb_false_iff; split); apply Z.eqb_neq; lia. }
  replace (c =? 123) with false by (symmetry; apply Z.eqb_neq; lia).
  replace (c =? 91) with false by (symmetry; apply Z.eqb_neq; lia).
  replace (c =? 34) with false by (symmetry; apply Z.eqb_neq; lia).
  replace (c =? 116) with false by (symmetry; apply Z.eqb_neq; lia).
  replace (c =? 102) with false by (symmetry; apply Z.eqb_neq; lia).
  replace (c =? 110) with false by (symmetry; apply Z.eqb_neq; lia).
  rewrite Hc, Hs. reflexivity.
Qed.

Lemma scan_value_array (n : nat) (depth : Z) (t : bytes) :
  depth + 1 <= maxNestingDepth ->
  scan_value (S n) depth (91 :: t) =
  match skip_space t with
  | [] => None
  | c' :: r =>
    if c' =? 93 then Some (JArray [], r)
    else
      match scan_elements n (depth + 1) (c' :: r) with
      | Some (l, r') => Some (JArray l, r')
      | None => None
      end
  end.
Proof.
  intros H. cbn [scan_value skip_space]. change (is_space 91) with false. cbv iota.
  change (91 =? 123) with false. change (91 =? 91) with true. cbv iota.
  replace (maxNestingDepth <? depth + 1) with false by (symmetry; apply Z.ltb_ge; lia).
  reflexivity.
Qed.

Lemma scan_value_object (n : nat) (depth : Z) (t : bytes) :
  depth + 1 <= maxNestingDepth ->
  scan_value (S n) depth (123 :: t) =
  match skip_space t with
  | [] => None
  | c' :: r =>
    if c' =? 125 then Some (JObject [], r)
    else
      match scan_members n (depth + 1) (c' :: r) with
      | Some (l, r') => Some (JObject l, r')
      | None => None
      end
  end.
Proof.
  intros H. cbn [scan_value skip_space]. change (is_space 123) with false. cbv iota.
  change (123 =? 123) with true. cbv iota.
  replace (maxNestingDepth <? depth + 1) with false by (symmetry; apply Z.ltb_ge; lia).
  reflexivity.
Qed.

(** ** The fuel of the scanner is enough *)

Lemma skip_space_length (s : bytes) : (length (skip_space s) <= length s)%nat.
Proof.
  induction s as [|c t IH]; [cbn; lia|]. cbn [skip_space].
  destruct (is_space c); cbn [length]; lia.
Qed.

Lemma cons_to_inv {A C : Type} (p : list A) (o : option (list A * C)) (s : list A) (r : C) :
  cons_to p o = Some (s, r) -> exists s', o = Some (s', r) /\ s = p ++ s'.
Proof.
  destruct o as [[s' r']|]; [|discriminate]. cbn [cons_to].
  intros H. inversion H; subst. eauto.
Qed.

Lemma getu4_length (s t : bytes) (r : Z) :
  getu4 s = Some (r, t) -> length s = (6 + length t)%nat.
Proof.
  unfold getu4, hex4. destruct s as [|x [|y [|a [|b [|c [|d s]]]]]]; try discriminate;
    try (destruct ((x =? 92) && (y =? 117)); discriminate).
  destruct ((x =? 92) && (y =? 117)); [|discriminate].
  destruct (hexval a), (hexval b), (hexval c), (hexval d); try discriminate.
  intros H. inversion H; subst. reflexivity.
Qed.

(** A string that is read ends before the end of the input. *)
Lemma scan_string_consumes (n : nat) :
  forall (s str r : bytes),
    scan_string n s = Some (str, r) -> (length r < length s)%nat.
Proof.
  induction n as [|n IH]; intros s str r; [discriminate|].
  cbn [scan_string]. destruct s as [|c t]; [discriminate|].
  destruct (c =? 34). { intros H. inversion H; subst. cbn [length]. lia. }
  destruct (c =? 92).
  { destruct t as [|e t']; [discriminate|]. destruct (e =? 117).
    - destruct (getu4 (c :: e :: t')) as [[rr t2]|] eqn:Hg; [|discriminate].
      apply getu4_length in Hg.
      assert (Hrec : forall p, cons_to p (scan_string n t2) = Some (str, r) ->
                               (length r < length (c :: e :: t'))%nat).
      { intros p H. apply cons_to_inv in H. destruct H as (s' & H & _).
        apply IH in H. lia. }
      destruct (utf16.IsSurrogate rr); [|apply Hrec].
      destruct (getu4 t2) as [[rr1 t4]|] eqn:Hg'; [|apply Hrec].
      apply getu4_length in Hg'.
      destruct (utf16.DecodeRune rr rr1 =? utf8.RuneError); [apply Hrec|].
      intros H. apply cons_to_inv in H. destruct H as (s' & H & _).
      apply IH in H. lia.
    - destruct (unescape e); [|discriminate].
      intros H. apply cons_to_inv in H. destruct H as (s' & H & _).
      apply IH in H. cbn [length]. lia. }
  destruct (c <? 32); [discriminate|].
  destruct (c <? 128).
  { intros H. apply cons_to_inv in H. destruct H as (s' & H & _).
    apply IH in H. cbn [length]. lia. }
  destruct (utf8.DecodeRune (c :: t)) as [rr size].
  intros H. apply cons_to_inv in H. destruct H as (s' & H & _).
  apply IH in H. rewrite length_skipn in H. lia.
Qed.

(** More fuel than the length of the input changes nothing for a
    string. *)
Lemma scan_string_fuel (n : nat) :
  forall (m : nat) (s : bytes),
    (length s <= n)%nat -> (n <= m)%nat -> scan_string n s = scan_string m s.
Proof.
  induction n as [|n IH]; intros m s Hlen Hm.
  - destruct s; [|cbn in Hlen; lia]. destruct m; reflexivity.
  - destruct m as [|m]; [lia|]. cbn [scan_string].
    destruct s as [|c t]; [reflexivity|]. cbn [length] in Hlen.
    destruct (c =? 34); [reflexivity|].
    destruct (c =? 92).
    { destruct t as [|e t']; [reflexivity|]. destruct (e =? 117).
      - destruct (getu4 (c :: e :: t')) as [[rr t2]|] eqn:Hg; [|reflexivity].
        apply getu4_length in Hg. cbn [length] in Hg, Hlen.
        rewrite (IH m t2) by lia.
        destruct (utf16.IsSurrogate rr); [|reflexivity].
        destruct (getu4 t2) as [[rr1 t4]|] eqn:Hg'; [|reflexivity].
        apply getu4_length in Hg'. rewrite (IH m t4) by lia. reflexivity.
      - destruct (unescape e); [|reflexivity]. cbn [length] in Hlen.
        rewrite (IH m t') by lia. reflexivity. }
    destruct (c <? 32); [reflexivity|].
    destruct (c <? 128); [rewrite (IH m t) by lia; reflexivity|].
    destruct (utf8.DecodeRune (c :: t)) as [rr size] eqn:Hd.
    assert (Hsize : (1 <= size)%nat).
    { unfold utf8.DecodeRune in Hd.
      repeat match type of Hd with
             | (if ?c then _ else _) = _ => destruct c
             | match ?l with _ => _ end = _ => destruct l
             end; inversion Hd; lia. }
    rewrite (IH m (skipn size (c :: t))); [reflexivity| |lia].
    rewrite length_skipn. cbn [length]. lia.
Qed.

Lemma strip_prefix_length (p s r : bytes) :
  strip_prefix p s = Some r -> (length r <= length s)%nat.
Proof.
  revert s. induction p as [|x p IH]; intros s.
  - cbn. intros H. inversion H; subst. lia.
  - destruct s as [|y s]; [discriminate|]. cbn [strip_prefix].
    destruct (x =? y); [|discriminate]. intros H. apply IH in H. cbn [length]. lia.
Qed.

Lemma scan_number_consumes (s l r : bytes) :
  scan_number s = Some (l, r) -> (length r < length s)%nat.
Proof.
  intros H. pose proof (scan_number_sound _ _ _ H) as Hs.
  assert (Hl : l <> []).
  { unfold scan_number in H.
    destruct (match s with
              | [] => ([], s)
              | c :: t => if c =? 45 then ([45], t) else ([], s)
              end) as [sign s1].
    destruct (scan_int s1) as [[i s2]|] eqn:Hi; [|discriminate].
    destruct (scan_frac s2) as [[f s3]|]; [|discriminate].
    destruct (scan_exp s3) as [[e s4]|]; [|discriminate].
    inversion H; subst.
    assert (i <> []).
    { destruct s1 as [|c t]; [discriminate|]. cbn [scan_int] in Hi.
      destruct (c =? 48); [inversion Hi; discriminate|].
      destruct (is_digit c); [|discriminate]. destruct (digits t). inversion Hi; discriminate. }
    destruct sign; destruct i; cbn; congruence. }
  subst s. rewrite length_app. destruct l; [contradiction|cbn [length]; lia].
Qed.

(** Whatever the scanner reads, it reads at least one byte; and fuel
    beyond twice the length of the input changes nothing. *)
Lemma scan_consumes (fuel : nat) :
  (forall depth s t r, scan_value fuel depth s = Some (t, r) -> (length r < length s)%nat)
  /\ (forall depth s l r, scan_elements fuel depth s = Some (l, r) -> (length r < length s)%nat)
  /\ (forall depth s l r, scan_members fuel depth s = Some (l, r) -> (length r < length s)%nat).
Proof.
  induction fuel as [|n (IHv & IHe & IHm)]; [repeat split; discriminate|].
  repeat split.
  - intros depth s t r. cbn [scan_value].
    pose proof (skip_space_length s) as Hsk.
    destruct (skip_space s) as [|c u]; [discriminate|]. cbn [length] in Hsk.
    pose proof (skip_space_length u) as Hsk'.
    destruct (c =? 123).
    { destruct (maxNestingDepth <? depth + 1); [discriminate|].
      destruct (skip_space u) as [|c' w]; [discriminate|]. cbn [length] in Hsk'.
      destruct (c' =? 125); [intros H; inversion H; subst; lia|].
      destruct (scan_members n (depth + 1) (c' :: w)) as [[l r']|] eqn:Hm; [|discriminate].
      apply IHm in Hm. cbn [length] in Hm. intros H; inversion H; subst; lia. }
    destruct (c =? 91).
    { destruct (maxNestingDepth <? depth + 1); [discriminate|].
      destruct (skip_space u) as [|c' w]; [discriminate|]. cbn [length] in Hsk'.
      destruct (c' =? 93); [intros H; inversion H; subst; lia|].
      destruct (scan_elements n (depth + 1) (c' :: w)) as [[l r']|] eqn:Hm; [|discriminate].
      apply IHe in Hm. cbn [length] in Hm. intros H; inversion H; subst; lia. }
    destruct (c =? 34).
    { destruct (scan_string (length u) u) as [[str r']|] eqn:Hs; [|discriminate].
      apply scan_string_consumes in Hs. intros H; inversion H; subst; lia. }
    assert (Hkw : forall w x, keyword w x u = Some (t, r) -> (length r < length s)%nat).
    { intros w x. unfold keyword. destruct (strip_prefix w u) as [r'|] eqn:Hp; [|discriminate].
      apply strip_prefix_length in Hp. intros H; inversion H; subst; lia. }
    destruct (c =? 116); [apply Hkw|]. destruct (c =? 102); [apply Hkw|].
    destruct (c =? 110); [apply Hkw|].
    destruct ((c =? 45) || is_digit c); [|discriminate].
    destruct (scan_number (c :: u)) as [[lit r']|] eqn:Hn; [|discriminate].
    apply scan_number_consumes in Hn. cbn [length] in Hn.
    intros H; inversion H; subst; lia.
  - intros depth s l r. cbn [scan_elements].
    destruct (scan_value n depth s) as [[v r1]|] eqn:Hv; [|discriminate].
    apply IHv in Hv. pose proof (skip_space_length r1) as Hsk.
    destruct (skip_space r1) as [|c r']; [discriminate|]. cbn [length] in Hsk.
    destruct (c =? 44).
    { destruct (scan_elements n depth r') as [[vs r'']|] eqn:He; [|discriminate].
      apply IHe in He. intros H; inversion H; subst; lia. }
    destruct (c =? 93); [|discriminate]. intros H; inversion H; subst; lia.
  - intros depth s l r. cbn [scan_members].
    pose proof (skip_space_length s) as Hsk.
    destruct (skip_space s) as [|q u]; [discriminate|]. cbn [length] in Hsk.
    destruct (q =? 34); [|discriminate].
    destruct (scan_string (length u) u) as [[k r0]|] eqn:Hs; [|discriminate].
    apply scan_string_consumes in Hs. pose proof (skip_space_length r0) as Hsk0.
    destruct (skip_space r0) as [|c r1]; [discriminate|]. cbn [length] in Hsk0.
    destruct (c =? 58); [|discriminate].
    destruct (scan_value n depth r1) as [[v r2]|] eqn:Hv; [|discriminate].
    apply IHv in Hv. pose proof (skip_space_length r2) as Hsk2.
    destruct (skip_space r2) as [|c' r3]; [discriminate|]. cbn [length] in Hsk2.
    destruct (c' =? 44).
    { destruct (scan_members n depth r3) as [[kvs r4]|] eqn:Hm; [|discriminate].
      apply IHm in Hm. intros H; inversion H; subst; lia. }
    destruct (c' =? 125); [|discriminate]. intros H; inversion H; subst; lia.
Qed.

Lemma scan_fuel (fuel : nat) :
  (forall fuel' depth s, (2 * length s + 1 <= fuel)%nat -> (fuel <= fuel')%nat ->
     scan_value fuel depth s = scan_value fuel' depth s)
  /\ (forall fuel' depth s, (2 * length s + 2 <= fuel)%nat -> (fuel <= fuel')%nat ->
        scan_elements fuel depth s = scan_elements fuel' depth s)
  /\ (forall fuel' depth s, (2 * length s + 2 <= fuel)%nat -> (fuel <= fuel')%nat ->
        scan_members fuel depth s = scan_members fuel' depth s).
Proof.
  induction fuel as [|n (IHv & IHe & IHm)]; [repeat split; intros; lia|].
  destruct (scan_consumes n) as (Cv & _ & _).
  repeat split; intros [|n'] depth s Hlen Hle; try lia.
  - cbn [scan_value].
    pose proof (skip_space_length s) as Hsk.
    destruct (skip_space s) as [|c u]; [reflexivity|]. cbn [length] in Hsk.
    pose proof (skip_space_length u) as Hsk'.
    destruct (c =? 123).
    { destruct (maxNestingDepth <? depth + 1); [reflexivity|].
      destruct (skip_space u) as [|c' w]; [reflexivity|]. cbn [length] in Hsk'.
      destruct (c' =? 125); [reflexivity|].
      rewrite (IHm n' (depth + 1) (c' :: w)) by (cbn [length]; lia). reflexivity. }
    destruct (c =? 91); [|reflexivity].
    destruct (maxNestingDepth <? depth + 1); [reflexivity|].
    destruct (skip_space u) as [|c' w]; [reflexivity|]. cbn [length] in Hsk'.
    destruct (c' =? 93); [reflexivity|].
    rewrite (IHe n' (depth + 1) (c' :: w)) by (cbn [length]; lia). reflexivity.
  - cbn [scan_elements]. rewrite <- (IHv n' depth s) by lia.
    destruct (scan_value n depth s) as [[v r1]|] eqn:Hv; [|reflexivity].
    apply Cv in Hv. pose proof (skip_space_length r1) as Hsk.
    destruct (skip_space r1) as [|c r']; [reflexivity|]. cbn [length] in Hsk.
    destruct (c =? 44); [|reflexivity].
    rewrite (IHe n' depth r') by lia. reflexivity.
  - cbn [scan_members].
    pose proof (skip_space_length s) as Hsk.
    destruct (skip_space s) as [|q u]; [reflexivity|]. cbn [length] in Hsk.
    destruct (q =? 34); [|reflexivity].
    destruct (scan_string (length u) u) as [[k r0]|] eqn:Hs; [|reflexivity].
    apply scan_string_consumes in Hs. pose proof (skip_space_length r0) as Hsk0.
    destruct (skip_space r0) as [|c r1]; [reflexivity|]. cbn [length] in Hsk0.
    destruct (c =? 58); [|reflexivity].
    rewrite <- (IHv n' depth r1) by lia.
    destruct (scan_value n depth r1) as [[v r2]|] eqn:Hv; [|reflexivity].
    apply Cv in Hv. pose proof (skip_space_length r2) as Hsk2.
    destruct (skip_space r2) as [|c' r3]; [reflexivity|]. cbn [length] in Hsk2.
    destruct (c' =? 44); [|reflexivity].
    rewrite (IHm n' depth r3) by lia. reflexivity.
Qed.

(** [scan] does not run out of fuel: with any more fuel the scanner reads
    the same. *)
Lemma scan_enough_fuel (data : bytes) (fuel : nat) :
  (2 * length data + 2 <= fuel)%nat ->
  scan_value fuel 0 data = scan_value (2 * length data + 2) 0 data.
Proof.
  intros H. symmetry. apply (proj1 (scan_fuel (2 * length data + 2))); lia.
Qed.

(** ** What the scanner reads is valid UTF-8 *)

Lemma DecodeRune_size (s : bytes) (r : Z) (size : nat) :
  s <> [] -> utf8.DecodeRune s = (r, size) -> (1 <= size)%nat.
Proof.
  intros Hs Hd. unfold utf8.DecodeRune in Hd. destruct s as [|p0 t]; [contradiction|].
  repeat match type of Hd with
         | (if ?c then _ else _) = _ => destruct c
         | match ?l with _ => _ end = _ => destruct l
         end; inversion Hd; lia.
Qed.

Lemma Valid_loop_more (n : nat) :
  forall (m : nat) (s : bytes),
    utf8.Valid_loop n s = true -> (n <= m)%nat -> utf8.Valid_loop m s = true.
Proof.
  induction n as [|n IH]; intros m s H Hm.
  - destruct s; [destruct m; reflexivity|discriminate].
  - destruct m as [|m]; [lia|]. destruct s as [|b t]; [reflexivity|].
    cbn [utf8.Valid_loop] in *. destruct (utf8.DecodeRune (b :: t)) as [r size].
    apply andb_prop in H. destruct H as [H Hrest]. rewrite H. cbn [andb].
    apply (IH m); [exact Hrest|lia].
Qed.

Lemma Valid_loop_Valid (n : nat) :
  forall s : bytes, utf8.Valid_loop n s = true -> utf8.Valid s = true.
Proof.
  unfold utf8.Valid. induction n as [|n IH]; intros s H.
  - destruct s; [reflexivity|discriminate].
  - destruct s as [|b t]; [reflexivity|]. cbn [length utf8.Valid_loop] in *.
    destruct (utf8.DecodeRune (b :: t)) as [r size] eqn:Hd.
    apply andb_prop in H. destruct H as [H Hrest]. rewrite H. cbn [andb].
    apply IH in Hrest. apply (Valid_loop_more _ _ _ Hrest).
    rewrite length_skipn. cbn [length].
    pose proof (DecodeRune_size (b :: t) r size ltac:(discriminate) Hd). lia.
Qed.

(** A valid string stays valid with one more rune in front. *)
Lemma Valid_rune (p s : bytes) (b : Z) (t : bytes) (r : Z) :
  p = b :: t -> 0 <= b ->
  utf8.DecodeRune (p ++ s) = (r, length p) ->
  (r =? utf8.RuneError) && (length p =? 1)%nat = false ->
  utf8.Valid s = true -> utf8.Valid (p ++ s) = true.
Proof.
  intros -> Hb Hd Hok Hs. apply (Valid_loop_Valid (S (length s))).
  cbn [app utf8.Valid_loop] in *. rewrite Hd, Hok.
  replace (0 <=? b) with true by (symmetry; apply Z.leb_le; lia). cbn [andb negb].
  change (b :: t ++ s) with ((b :: t) ++ s).
  rewrite skipn_app, Nat.sub_diag, skipn_all. exact Hs.
Qed.

Lemma Valid_ascii (c : Z) (s : bytes) :
  0 <= c < 128 -> utf8.Valid s = true -> utf8.Valid (c :: s) = true.
Proof.
  intros Hc Hs. apply (Valid_rune [c] s c [] c eq_refl); [lia| | |exact Hs].
  - cbn [app utf8.DecodeRune length].
    replace (c <? 128) with true by (symmetry; apply Z.ltb_lt; lia). reflexivity.
  - apply andb_false_iff. left. apply Z.eqb_neq. unfold utf8.RuneError. lia.
Qed.

(** The encoding of a rune decodes as one rune, all of it. *)
Lemma DecodeRune_EncodeRune (r : Z) (s : bytes) :
  exists b t r',
    utf8.EncodeRune r = b :: t /\ 0 <= b
    /\ utf8.DecodeRune (utf8.EncodeRune r ++ s) = (r', length (utf8.EncodeRune r))
    /\ (r' =? utf8.RuneError) && (length (utf8.EncodeRune r) =? 1)%nat = false.
Proof.
  unfold utf8.EncodeRune, utf8.MaxRune.
  destruct ((0 <=? r) && (r <=? 127)) eqn:E1.
  { bool_hyps. exists r, [], r. repeat split; [lia| |].
    - cbn [app utf8.DecodeRune length]. now decide_tests.
    - apply andb_false_iff. left. apply Z.eqb_neq. unfold utf8.RuneError. lia. }
  destruct ((0 <=? r) && (r <=? 2047)) eqn:E2.
  { bool_hyps. assert (128 <= r) by (apply andb_false_iff in E1; destruct E1; bool_hyps; lia).
    eexists _, _, _. split; [reflexivity|]. split; [Z.div_mod_to_equations; lia|].
    split; [|apply andb_false_r].
    cbn [app utf8.DecodeRune length]. unfold utf8.cont.
    assert (194 <= 192 + r / 64 <= 223) by (Z.div_mod_to_equations; lia).
    assert (128 <= 128 + r mod 64 <= 191) by (Z.div_mod_to_equations; lia).
    decide_tests. cbn [andb]. reflexivity. }
  destruct ((r <? 0) || (1114111 <? r) || ((55296 <=? r) && (r <=? 57343))) eqn:E3.
  { exists 239, [191; 189], utf8.RuneError. repeat split; lia || reflexivity. }
  apply orb_false_elim in E3. destruct E3 as [E3 E5].
  apply orb_false_elim in E3. destruct E3 as [E3 E4]. bool_hyps.
  assert (Hr : 2048 <= r <= 1114111 /\ ~ (55296 <= r <= 57343)).
  { apply andb_false_iff in E2. apply andb_false_iff in E5.
    destruct E2, E5; bool_hyps; lia. }
  clear E1 E2 E5.
  destruct (r <=? 65535) eqn:E6; bool_hyps.
  { eexists _, _, _. split; [reflexivity|]. split; [Z.div_mod_to_equations; lia|].
    split; [|apply andb_false_r].
    cbn [app utf8.DecodeRune length]. unfold utf8.cont.
    assert (224 <= 224 + r / 4096 <= 239) by (Z.div_mod_to_equations; lia).
    assert (128 <= 128 + (r / 64) mod 64 <= 191) by (Z.div_mod_to_equations; lia).
    assert (128 <= 128 + r mod 64 <= 191) by (Z.div_mod_to_equations; lia).
    assert (224 + r / 4096 = 224 -> 160 <= 128 + (r / 64) mod 64) by (Z.div_mod_to_equations; lia).
    assert (224 + r / 4096 = 237 -> 128 + (r / 64) mod 64 <= 159) by (Z.div_mod_to_equations; lia).
    replace (224 + r / 4096 <? 128) with false by (symmetry; apply Z.ltb_ge; lia).
    replace ((194 <=? 224 + r / 4096) && (224 + r / 4096 <=? 223)) with false
      by (symmetry; apply andb_false_iff; right; apply Z.leb_gt; lia).
    replace ((224 <=? 224 + r / 4096) && (224 + r / 4096 <=? 239)) with true
      by (symmetry; apply andb_true_intro; split; apply Z.leb_le; lia).
    destruct (224 + r / 4096 =? 224) eqn:Ea; destruct (224 + r / 4096 =? 237) eqn:Eb;
      bool_hyps; decide_tests; reflexivity. }
  eexists _, _, _. split; [reflexivity|]. split; [Z.div_mod_to_equations; lia|].
  split; [|apply andb_false_r].
  cbn [app utf8.DecodeRune length]. unfold utf8.cont.
  assert (240 <= 240 + r / 262144 <= 244) by (Z.div_mod_to_equations; lia).
  assert (128 <= 128 + (r / 4096) mod 64 <= 191) by (Z.div_mod_to_equations; lia).
  assert (128 <= 128 + (r / 64) mod 64 <= 191) by (Z.div_mod_to_equations; lia).
  assert (128 <= 128 + r mod 64 <= 191) by (Z.div_mod_to_equations; lia).
  assert (240 + r / 262144 = 240 -> 144 <= 128 + (r / 4096) mod 64) by (Z.div_mod_to_equations; lia).
  assert (240 + r / 262144 = 244 -> 128 + (r / 4096) mod 64 <= 143) by (Z.div_mod_to_equations; lia).
  replace (240 + r / 262144 <? 128) with false by (symmetry; apply Z.ltb_ge; lia).
  replace ((194 <=? 240 + r / 262144) && (240 + r / 262144 <=? 223)) with false
    by (symmetry; apply andb_false_iff; right; apply Z.leb_gt; lia).
  replace ((224 <=? 240 + r / 262144) && (240 + r / 262144 <=? 239)) with false
    by (symmetry; apply andb_false_iff; right; apply Z.leb_gt; lia).
  replace ((240 <=? 240 + r / 262144) && (240 + r / 262144 <=? 244)) with true
    by (symmetry; apply andb_true_intro; split; apply Z.leb_le; lia).
  destruct (240 + r / 262144 =? 240) eqn:Ea; destruct (240 + r / 262144 =? 244) eqn:Eb;
    bool_hyps; decide_tests; reflexivity.
Qed.

Lemma Valid_EncodeRune (r : Z) (s : bytes) :
  utf8.Valid s = true -> utf8.Valid (utf8.EncodeRune r ++ s) = true.
Proof.
  intros Hs. destruct (DecodeRune_EncodeRune r s) as (b & t & r' & Heq & Hb & Hd & Hok).
  now apply (Valid_rune (utf8.EncodeRune r) s b t r').
Qed.

(** The string that the scanner reads is valid UTF-8. *)
Lemma scan_string_Valid (n : nat) :
  forall (s str r : bytes), scan_string n s = Some (str, r) -> utf8.Valid str = true.
Proof.
  induction n as [|n IH]; intros s str r; [discriminate|].
  cbn [scan_string]. destruct s as [|c t]; [discriminate|].
  assert (Hrec : forall p u, cons_to (utf8.EncodeRune p) (scan_string n u) = Some (str, r) ->
                             utf8.Valid str = true).
  { intros p u H. apply cons_to_inv in H. destruct H as (s' & H & ->).
    apply Valid_EncodeRune. exact (IH _ _ _ H). }
  destruct (c =? 34). { intros H. inversion H; subst. reflexivity. }
  destruct (c =? 92).
  { destruct t as [|e t']; [discriminate|]. destruct (e =? 117).
    - destruct (getu4 (c :: e :: t')) as [[rr t2]|]; [|discriminate].
      destruct (utf16.IsSurrogate rr); [|apply Hrec].
      destruct (getu4 t2) as [[rr1 t4]|]; [|apply Hrec].
      destruct (utf16.DecodeRune rr rr1 =? utf8.RuneError); apply Hrec.
    - destruct (unescape e) as [b|] eqn:Hu; [|discriminate].
      intros H. apply cons_to_inv in H. destruct H as (s' & H & ->).
      cbn [app]. apply Valid_ascii; [|exact (IH _ _ _ H)].
      unfold unescape in Hu.
      repeat match type of Hu with
             | (if ?c then _ else _) = _ => destruct c eqn:?
             end; inversion Hu; subst; lia. }
  destruct (c <? 32) eqn:E32; [discriminate|].
  destruct (c <? 128) eqn:E128.
  { intros H. apply cons_to_inv in H. destruct H as (s' & H & ->).
    cbn [app]. bool_hyps. apply Valid_ascii; [lia|exact (IH _ _ _ H)]. }
  destruct (utf8.DecodeRune (c :: t)) as [rr size]. apply Hrec.
Qed.

(** ** What the scanner reads *)

Lemma fold_max_le {A : Type} (f : A -> Z) (l : list A) (N : Z) :
  fold_right (fun x d => Z.max (f x) d) 0 l <= N
  <-> 0 <= N /\ Forall (fun x => f x <= N) l.
Proof.
  induction l as [|x l IH]; cbn [fold_right].
  - split; [intros H; split; [lia|constructor]|tauto].
  - rewrite Z.max_lub_iff, IH. split.
    + intros (Hx & H0 & Hl). split; [lia|]. now constructor.
    + intros (H0 & Hl). inversion Hl; subst. tauto.
Qed.

(** The scanner reads valid strings and no deeper than it may. *)
Lemma scan_tree (fuel : nat) :
  (forall depth s t r, scan_value fuel depth s = Some (t, r) ->
     depth <= maxNestingDepth ->
     strings_valid t = true /\ depth + tdepth t <= maxNestingDepth)
  /\ (forall depth s l r, scan_elements fuel depth s = Some (l, r) ->
        depth <= maxNestingDepth ->
        forallb strings_valid l = true
        /\ Forall (fun x => depth + tdepth x <= maxNestingDepth) l)
  /\ (forall depth s l r, scan_members fuel depth s = Some (l, r) ->
        depth <= maxNestingDepth ->
        forallb (fun kv => utf8.Valid (fst kv) && strings_valid (snd kv)) l = true
        /\ Forall (fun kv => depth + tdepth (snd kv) <= maxNestingDepth) l).
Proof.
  induction fuel as [|n (IHv & IHe & IHm)]; [repeat split; discriminate|].
  split; [|split].
  - intros depth s t r. cbn [scan_value].
    destruct (skip_space s) as [|c u]; [discriminate|].
    destruct (c =? 123).
    { destruct (maxNestingDepth <? depth + 1) eqn:Hd; [discriminate|]. bool_hyps.
      destruct (skip_space u) as [|c' w]; [discriminate|].
      destruct (c' =? 125).
      { intros H _. inversion H; subst. cbn. split; [reflexivity|lia]. }
      destruct (scan_members n (depth + 1) (c' :: w)) as [[l r']|] eqn:Hm; [|discriminate].
      intros H _. inversion H; subst. destruct (IHm _ _ _ _ Hm Hd) as [Hs Hdep].
      split; [exact Hs|]. cbn [tdepth].
      assert (fold_right (fun kv d => Z.max (tdepth (snd kv)) d) 0 l <= maxNestingDepth - (depth + 1)).
      { apply fold_max_le. split; [lia|]. eapply Forall_impl; [|exact Hdep].
        cbv beta. intros; lia. }
      lia. }
    destruct (c =? 91).
    { destruct (maxNestingDepth <? depth + 1) eqn:Hd; [discriminate|]. bool_hyps.
      destruct (skip_space u) as [|c' w]; [discriminate|].
      destruct (c' =? 93).
      { intros H _. inversion H; subst. cbn. split; [reflexivity|lia]. }
      destruct (scan_elements n (depth + 1) (c' :: w)) as [[l r']|] eqn:Hm; [|discriminate].
      intros H _. inversion H; subst. destruct (IHe _ _ _ _ Hm Hd) as [Hs Hdep].
      split; [exact Hs|]. cbn [tdepth].
      assert (fold_right (fun x d => Z.max (tdepth x) d) 0 l <= maxNestingDepth - (depth + 1)).
      { apply fold_max_le. split; [lia|]. eapply Forall_impl; [|exact Hdep].
        cbv beta. intros; lia. }
      lia. }
    destruct (c =? 34).
    { destruct (scan_string (length u) u) as [[str r']|] eqn:Hs; [|discriminate].
      intros H Hd. inversion H; subst. cbn [strings_valid tdepth].
      split; [exact (scan_string_Valid _ _ _ _ Hs)|lia]. }
    assert (Hkw : forall w x, strings_valid x = true -> tdepth x = 0 ->
                  keyword w x u = Some (t, r) -> depth <= maxNestingDepth ->
                  strings_valid t = true /\ depth + tdepth t <= maxNestingDepth).
    { intros w x Hx Hx0. unfold keyword. destruct (strip_prefix w u); [|discriminate].
      intros H Hd. inversion H; subst. split; [exact Hx|lia]. }
    destruct (c =? 116); [now apply Hkw|]. destruct (c =? 102); [now apply Hkw|].
    destruct (c =? 110); [now apply Hkw|].
    destruct ((c =? 45) || is_digit c); [|discriminate].
    destruct (scan_number (c :: u)) as [[lit r']|]; [|discriminate].
    intros H Hd. inversion H; subst. cbn. split; [reflexivity|lia].
  - intros depth s l r. cbn [scan_elements].
    destruct (scan_value n depth s) as [[v r1]|] eqn:Hv; [|discriminate].
    destruct (skip_space r1) as [|c r']; [discriminate|].
    destruct (c =? 44).
    { destruct (scan_elements n depth r') as [[vs r'']|] eqn:He; [|discriminate].
      intros H Hd. inversion H; subst.
      destruct (IHv _ _ _ _ Hv Hd) as [Hs1 Hd1]. destruct (IHe _ _ _ _ He Hd) as [Hs2 Hd2].
      cbn [forallb]. rewrite Hs1, Hs2. split; [reflexivity|now constructor]. }
    destruct (c =? 93); [|discriminate]. intros H Hd. inversion H; subst.
    destruct (IHv _ _ _ _ Hv Hd) as [Hs1 Hd1]. cbn [forallb]. rewrite Hs1.
    split; [reflexivity|now repeat constructor].
  - intros depth s l r. cbn [scan_members].
    destruct (skip_space s) as [|q u]; [discriminate|].
    destruct (q =? 34); [|discriminate].
    destruct (scan_string (length u) u) as [[k r0]|] eqn:Hs; [|discriminate].
    apply scan_string_Valid in Hs.
    destruct (skip_space r0) as [|c r1]; [discriminate|].
    destruct (c =? 58); [|discriminate].
    destruct (scan_value n depth r1) as [[v r2]|] eqn:Hv; [|discriminate].
    destruct (skip_space r2) as [|c' r3]; [discriminate|].
    destruct (c' =? 44).
    { destruct (scan_members n depth r3) as [[kvs r4]|] eqn:Hm; [|discriminate].
      intros H Hd. inversion H; subst.
      destruct (IHv _ _ _ _ Hv Hd) as [Hs1 Hd1]. destruct (IHm _ _ _ _ Hm Hd) as [Hs2 Hd2].
      cbn [forallb fst snd]. rewrite Hs, Hs1, Hs2. split; [reflexivity|now constructor]. }
    destruct (c' =? 125); [|discriminate]. intros H Hd. inversion H; subst.
    destruct (IHv _ _ _ _ Hv Hd) as [Hs1 Hd1]. cbn [forallb fst snd]. rewrite Hs, Hs1.
    split; [reflexivity|now repeat constructor].
Qed.

Lemma scan_strings_valid (data : bytes) (t : jtree) :
  scan data = Some t -> strings_valid t = true /\ tdepth t <= maxNestingDepth.
Proof.
  unfold scan.
  destruct (scan_value (2 * length data + 2) 0 data) as [[t' r]|] eqn:Hs; [|discriminate].
  destruct (skip_space r); [|discriminate]. intros H. inversion H; subst.
  destruct (proj1 (scan_tree _) _ _ _ _ Hs) as [Hv Hd]; [unfold maxNestingDepth; lia|].
  split; [exact Hv|lia].
Qed.

(** ** The order of keys *)

Lemma bytes_eqb_eq (a b : bytes) : bytes_eqb a b = true <-> a = b.
Proof.
  revert b. induction a as [|x a IH]; intros [|y b]; cbn [bytes_eqb];
    try (split; [discriminate|discriminate]); [tauto|].
  rewrite andb_true_iff, Z.eqb_eq, IH. split; [intros [-> ->]; reflexivity|].
  intros H. now inversion H.
Qed.

Lemma bytes_ltb_irrefl (a : bytes) : bytes_ltb a a = false.
Proof.
  induction a as [|x a IH]; [reflexivity|]. cbn [bytes_ltb].
  rewrite Z.ltb_irrefl, Z.eqb_refl, IH. reflexivity.
Qed.

Lemma bytes_ltb_trans (a b c : bytes) :
  bytes_ltb a b = true -> bytes_ltb b c = true -> bytes_ltb a c = true.
Proof.
  revert b c. induction a as [|x a IH]; intros [|y b] [|z c]; cbn [bytes_ltb];
    try discriminate; try reflexivity.
  intros H1 H2. apply orb_true_iff in H1, H2. apply orb_true_iff.
  destruct H1 as [H1|H1], H2 as [H2|H2]; bool_hyps.
  - left. apply Z.ltb_lt. lia.
  - left. apply Z.ltb_lt. lia.
  - left. apply Z.ltb_lt. lia.
  - right. apply andb_true_intro. split; [apply Z.eqb_eq; lia|]. eapply IH; eassumption.
Qed.

Lemma bytes_ltb_asym (a b : bytes) :
  bytes_ltb a b = true -> bytes_ltb b a = false.
Proof.
  intros H. destruct (bytes_ltb b a) eqn:E; [|reflexivity].
  pose proof (bytes_ltb_trans _ _ _ H E) as Ht. now rewrite bytes_ltb_irrefl in Ht.
Qed.

Lemma bytes_ltb_neq (a b : bytes) :
  bytes_ltb a b = true -> bytes_eqb b a = false.
Proof.
  intros H. destruct (bytes_eqb b a) eqn:E; [|reflexivity].
  apply bytes_eqb_eq in E. subst. now rewrite bytes_ltb_irrefl in H.
Qed.

Lemma keys_sorted_tail {A : Type} (kv : bytes * A) (m : list (bytes * A)) :
  keys_sorted (kv :: m) = true -> keys_sorted m = true.
Proof.
  destruct kv as [k v]. cbn [keys_sorted]. destruct m as [|[k' v'] m]; [reflexivity|].
  intros H. apply andb_prop in H. tauto.
Qed.

Lemma keys_sorted_head {A : Type} (k : bytes) (v : A) (m : list (bytes * A)) :
  keys_sorted ((k, v) :: m) = true ->
  forall k' v', In (k', v') m -> bytes_ltb k k' = true.
Proof.
  revert k v. induction m as [|[k1 v1] m IH]; intros k v Hs k' v' Hin; [destruct Hin|].
  cbn [keys_sorted] in Hs. apply andb_prop in Hs. destruct Hs as [Hlt Hs].
  destruct Hin as [Heq|Hin]; [now inversion Heq; subst|].
  apply (bytes_ltb_trans k k1 k' Hlt). exact (IH k1 v1 Hs k' v' Hin).
Qed.

(** Storing a key greater than every key of the map adds it at the end. *)
Lemma map_set_last {A : Type} (m : list (bytes * A)) (k : bytes) (v : A) :
  keys_sorted (m ++ [(k, v)]) = true -> map_set m k v = m ++ [(k, v)].
Proof.
  induction m as [|[k' v'] m IH]; intros Hs; [reflexivity|].
  cbn [map_set app].
  assert (Hlt : bytes_ltb k' k = true).
  { apply (keys_sorted_head k' v' (m ++ [(k, v)]) Hs k v). apply in_or_app. right. now left. }
  rewrite (bytes_ltb_asym _ _ Hlt), (bytes_ltb_neq _ _ Hlt).
  rewrite IH; [reflexivity|]. exact (keys_sorted_tail _ _ Hs).
Qed.

Lemma fold_map_store_sorted {A : Type} (m acc : list (bytes * A)) :
  keys_sorted (acc ++ m) = true -> fold_left map_store m acc = acc ++ m.
Proof.
  revert acc. induction m as [|[k v] m IH]; intros acc Hs.
  - now rewrite app_nil_r.
  - cbn [fold_left]. unfold map_store at 2. cbn [fst snd].
    assert (Hs' : keys_sorted (acc ++ [(k, v)]) = true).
    { clear IH. revert Hs. induction acc as [|[k0 v0] acc IHa]; intros Hs; [reflexivity|].
      cbn [app] in *. pose proof (keys_sorted_tail _ _ Hs) as Ht.
      specialize (IHa Ht). cbn [keys_sorted] in *.
      destruct acc as [|[k1 v1] acc]; cbn [app] in *.
      - apply andb_prop in Hs. destruct Hs as [Hs _]. now rewrite Hs.
      - apply andb_prop in Hs. destruct Hs as [Hs _]. now rewrite Hs, IHa. }
    rewrite (map_set_last acc k v Hs').
    rewrite IH; rewrite <- app_assoc; [reflexivity|exact Hs].
Qed.

(** ** Stores into a map *)

Lemma bytes_ltb_total (a b : bytes) :
  bytes_ltb a b = false -> bytes_eqb a b = false -> bytes_ltb b a = true.
Proof.
  revert b. induction a as [|x a IH]; intros [|y b]; cbn [bytes_ltb bytes_eqb];
    try discriminate; try reflexivity.
  intros H1 H2. apply orb_false_elim in H1. destruct H1 as [H1 H1'].
  apply Z.ltb_ge in H1. destruct (Z.eq_dec x y) as [->|Hne].
  - rewrite Z.eqb_refl in *. cbn [andb] in *. rewrite Z.ltb_irrefl. cbn [orb].
    now apply IH.
  - replace (y <? x) with true by (symmetry; apply Z.ltb_lt; lia). reflexivity.
Qed.

Lemma keys_sorted_cons {A : Type} (k : bytes) (v : A) (m : list (bytes * A)) :
  keys_sorted ((k, v) :: m) = true
  <-> keys_sorted m = true /\ Forall (fun kv => bytes_ltb k (fst kv) = true) m.
Proof.
  split.
  - intros H. split; [exact (keys_sorted_tail _ _ H)|].
    apply Forall_forall. intros [k' v'] Hin. exact (keys_sorted_head k v m H k' v' Hin).
  - intros [Hs Hall]. cbn [keys_sorted]. destruct m as [|[k' v'] m]; [reflexivity|].
    inversion Hall; subst. cbn [fst] in *. apply andb_true_intro. auto.
Qed.

Lemma map_set_In {A : Type} (m : list (bytes * A)) (k : bytes) (v : A) (kv : bytes * A) :
  In kv (map_set m k v) -> kv = (k, v) \/ In kv m.
Proof.
  induction m as [|[k' v'] m IH]; cbn [map_set].
  - intros [H|[]]. now left.
  - destruct (bytes_ltb k k'); [intros [H|H]; auto|].
    destruct (bytes_eqb k k'); [intros [H|H]; [auto|right; now right]|].
    intros [H|H]; [right; now left|]. destruct (IH H); [auto|right; now right].
Qed.

Lemma map_set_sorted {A : Type} (m : list (bytes * A)) (k : bytes) (v : A) :
  keys_sorted m = true -> keys_sorted (map_set m k v) = true.
Proof.
  induction m as [|[k' v'] m IH]; intros Hs; [reflexivity|]. cbn [map_set].
  destruct (bytes_ltb k k') eqn:Hlt.
  - apply keys_sorted_cons. split; [exact Hs|]. constructor; [exact Hlt|].
    apply keys_sorted_cons in Hs. destruct Hs as [_ Hall].
    eapply Forall_impl; [|exact Hall]. cbv beta. intros kv H.
    eapply bytes_ltb_trans; eassumption.
  - destruct (bytes_eqb k k') eqn:Heq.
    + apply bytes_eqb_eq in Heq. subst k'.
      apply keys_sorted_cons in Hs. apply keys_sorted_cons. exact Hs.
    + apply keys_sorted_cons in Hs. destruct Hs as [Hs Hall].
      apply keys_sorted_cons. split; [now apply IH|].
      apply Forall_forall. intros kv Hin. apply map_set_In in Hin.
      destruct Hin as [->|Hin]; [now apply bytes_ltb_total|].
      rewrite Forall_forall in Hall. now apply Hall.
Qed.

Lemma fold_map_store {A : Type} (P : bytes * A -> Prop) (kvs acc : list (bytes * A)) :
  Forall P kvs -> Forall P acc -> keys_sorted acc = true ->
  Forall P (fold_left map_store kvs acc)
  /\ keys_sorted (fold_left map_store kvs acc) = true.
Proof.
  revert acc. induction kvs as [|[k v] kvs IH]; intros acc Hk Ha Hs; [auto|].
  inversion Hk; subst. cbn [fold_left]. apply IH; [assumption| |].
  - unfold map_store. cbn [fst snd]. apply Forall_forall. intros kv Hin.
    apply map_set_In in Hin. destruct Hin as [->|Hin]; [assumption|].
    rewrite Forall_forall in Ha. auto.
  - now apply map_set_sorted.
Qed.

(** ** Lists of results, and the induction on JSON values *)

Lemma jtree_ind' (P : jtree -> Prop) :
  P JNull -> (forall b, P (JBool b)) -> (forall lit, P (JNumber lit)) ->
  (forall s, P (JString s)) ->
  (forall l, Forall P l -> P (JArray l)) ->
  (forall l, Forall (fun kv => P (snd kv)) l -> P (JObject l)) ->
  forall t, P t.
Proof.
  intros Hnull Hbool Hnumber Hstring Harray Hobject.
  fix IH 1. intros [ |b|lit|s|l|l].
  - exact Hnull.
  - apply Hbool.
  - apply Hnumber.
  - apply Hstring.
  - apply Harray. induction l as [|x l IHl]; constructor; [apply IH|exact IHl].
  - apply Hobject. induction l as [|[k x] l IHl]; constructor; [apply IH|exact IHl].
Qed.

Lemma all_some_map {A C : Type} (f : A -> option C) (l : list A) :
  (exists r, all_some (map f l) = Some r) <-> Forall (fun x => exists c, f x = Some c) l.
Proof.
  induction l as [|x l IH]; cbn [map all_some].
  - split; [constructor|eauto].
  - split.
    + intros [r H]. destruct (f x) as [c|] eqn:Hx; [|discriminate].
      destruct (all_some (map f l)) as [r'|] eqn:Hl; [|discriminate].
      constructor; [eauto|]. apply IH. eauto.
    + intros H. inversion H as [|? ? [c Hc] Hl]; subst. rewrite Hc.
      apply IH in Hl. destruct Hl as [r ->]. eauto.
Qed.

Lemma all_some_Forall2 {A C : Type} (f : A -> option C) (l : list A) (r : list C) :
  all_some (map f l) = Some r -> Forall2 (fun x c => f x = Some c) l r.
Proof.
  revert r. induction l as [|x l IH]; intros r; cbn [map all_some].
  - intros H. inversion H. constructor.
  - destruct (f x) as [c|] eqn:Hx; [|discriminate].
    destruct (all_some (map f l)) as [r'|]; [|discriminate].
    intros H. inversion H; subst. constructor; auto.
Qed.

(** ** The text of a value is read back as the value *)

Section Codec.

Variable lib : strconv.
Local Abbreviation value := (value lib).

Lemma value_ind' (P : value -> Prop) :
  P VNil -> (forall b, P (VBool b)) -> (forall f, P (VFloat f)) ->
  (forall s, P (VString s)) ->
  (forall l, Forall P l -> P (VSlice l)) ->
  (forall m, Forall (fun kv => P (snd kv)) m -> P (VMap m)) ->
  forall v, P v.
Proof.
  intros Hnil Hbool Hfloat Hstring Hslice Hmap.
  fix IH 1. intros [ |b|f|s|l|m].
  - exact Hnil.
  - apply Hbool.
  - apply Hfloat.
  - apply Hstring.
  - apply Hslice. induction l as [|x l IHl]; constructor; [apply IH|exact IHl].
  - apply Hmap. induction m as [|[k x] m IHm]; constructor; [apply IH|exact IHm].
Qed.

Lemma encode_head (pretty : bool) (d : nat) (v : value) :
  printable lib v = true ->
  exists c t, encode lib pretty d v = c :: t /\ value_start c = true.
Proof.
  destruct v as [ |[|]|f|s|[|x l]|[|kv m]]; cbn [encode printable]; intros Hp;
    try (eexists; eexists; split; [reflexivity|reflexivity]).
  apply andb_prop in Hp. destruct Hp as [_ Hlit].
  destruct (number_literal_head _ Hlit) as (c & t & Heq & Hc).
  exists c, t. split; [exact Heq|].
  apply orb_true_iff in Hc. unfold value_start, is_space.
  destruct Hc as [H|H]; [apply Z.eqb_eq in H; subst; reflexivity|].
  unfold is_digit in H. bool_hyps.
  apply andb_true_intro; split; [apply andb_true_intro; split|];
    apply negb_true_iff; [repeat (apply orb_false_iff; split)| |]; apply Z.eqb_neq; lia.
Qed.

Lemma fold_max_nonneg {A : Type} (f : A -> Z) (l : list A) :
  0 <= fold_right (fun x d => Z.max (f x) d) 0 l.
Proof. induction l as [|x l IH]; cbn [fold_right]; lia. Qed.

Lemma scan_elements_join (pretty : bool) (d d' : nat) (depth : Z) (x : value) (l : list value) :
  Forall (scans lib) (x :: l) ->
  forallb (printable lib) (x :: l) = true ->
  depth + fold_right (fun x d => Z.max (nesting lib x) d) 0 (x :: l) <= maxNestingDepth ->
  forall (fuel : nat) (rest : bytes),
    (fold_right (fun x n => S (vfuel lib x + n)) 0%nat (x :: l) <= fuel)%nat ->
    scan_elements fuel depth
      (join (44 :: newline pretty d) (map (encode lib pretty d) (x :: l))
       ++ newline pretty d' ++ 93 :: rest)
    = Some (map (tree_of lib) (x :: l), rest).
Proof.
  revert x. induction l as [|y l IH]; intros x Hall Hp Hdepth fuel rest Hfuel.
  - inversion Hall as [|? ? Hx _]; subst.
    cbn [forallb] in Hp. apply andb_prop in Hp. destruct Hp as [Hpx _].
    cbn [fold_right] in *. cbn [map join].
    destruct fuel as [|fuel]; [lia|]. cbn [scan_elements].
    rewrite (Hx Hpx pretty d depth fuel (newline pretty d' ++ 93 :: rest));
      [| lia | lia | apply value_end_newline; reflexivity].
    rewrite skip_space_newline. reflexivity.
  - inversion Hall as [|? ? Hx Hall']; subst.
    cbn [forallb] in Hp. apply andb_prop in Hp. destruct Hp as [Hpx Hp'].
    change (fold_right (fun x d => Z.max (nesting lib x) d) 0 (x :: y :: l))
      with (Z.max (nesting lib x) (fold_right (fun x d => Z.max (nesting lib x) d) 0 (y :: l))) in Hdepth.
    change (fold_right (fun x n => S (vfuel lib x + n)) 0%nat (x :: y :: l))
      with (S (vfuel lib x + fold_right (fun x n => S (vfuel lib x + n)) 0%nat (y :: l))) in Hfuel.
    change (join (44 :: newline pretty d) (map (encode lib pretty d) (x :: y :: l)))
      with (encode lib pretty d x ++ (44 :: newline pretty d)
            ++ join (44 :: newline pretty d) (map (encode lib pretty d) (y :: l))).
    destruct fuel as [|fuel]; [lia|]. cbn [scan_elements].
    rewrite <- !app_assoc.
    rewrite (Hx Hpx pretty d depth fuel); [| lia | lia | reflexivity].
    cbn [app skip_space]. change (is_space 44) with false. cbv iota.
    change (44 =? 44) with true. cbv iota.
    rewrite scan_elements_skip.
    rewrite (IH y Hall' Hp'); [reflexivity | lia | lia].
Qed.

Lemma scan_members_join (pretty : bool) (d d' : nat) (depth : Z)
    (kv : bytes * value) (m : list (bytes * value)) :
  Forall (fun kv => scans lib (snd kv)) (kv :: m) ->
  forallb (fun kv => utf8.Valid (fst kv) && printable lib (snd kv)) (kv :: m) = true ->
  depth + fold_right (fun kv d => Z.max (nesting lib (snd kv)) d) 0 (kv :: m) <= maxNestingDepth ->
  forall (fuel : nat) (rest : bytes),
    (fold_right (fun kv n => S (vfuel lib (snd kv) + n)) 0%nat (kv :: m) <= fuel)%nat ->
    scan_members fuel depth
      (join (44 :: newline pretty d)
         (map (fun kv => appendString (fst kv) ++ colon pretty
                         ++ encode lib pretty d (snd kv)) (kv :: m))
       ++ newline pretty d' ++ 125 :: rest)
    = Some (map (fun kv => (fst kv, tree_of lib (snd kv))) (kv :: m), rest).
Proof.
  assert (Hkey : forall n k x X,
    utf8.Valid k = true ->
    scan_members (S n) depth ((appendString k ++ colon pretty ++ x) ++ X) =
    match scan_value n depth (x ++ X) with
    | None => None
    | Some (v, r2) =>
      match skip_space r2 with
      | [] => None
      | c' :: r3 =>
        if c' =? 44 then
          match scan_members n depth r3 with
          | Some (kvs, r4) => Some ((k, v) :: kvs, r4)
          | None => None
          end
        else if c' =? 125 then Some ([(k, v)], r3)
        else None
      end
    end).
  { intros n k x X Hv. unfold appendString. rewrite <- !app_assoc.
    cbn [app scan_members skip_space].
    change (is_space 34) with false. cbv iota. change (34 =? 34) with true. cbv iota.
    rewrite <- app_assoc. cbn [app].
    rewrite (scan_string_appendString_loop (length k) k (length k) _ (colon pretty ++ x ++ X));
      [|lia|exact Hv|rewrite length_app; cbn [length]; lia].
    destruct pretty; cbn [colon app skip_space]; change (is_space 58) with false;
      cbv iota; change (58 =? 58) with true; cbv iota.
    - destruct n; [reflexivity|]. cbn [scan_value skip_space].
      change (is_space 32) with true. cbv iota. reflexivity.
    - reflexivity. }
  revert kv. induction m as [|kv' m IH]; intros [k x] Hall Hp Hdepth fuel rest Hfuel.
  - inversion Hall as [|? ? Hx _]; subst. cbn [snd] in Hx.
    cbn [forallb fst snd] in Hp. apply andb_prop in Hp. destruct Hp as [Hpx _].
    apply andb_prop in Hpx. destruct Hpx as [Hk Hpx].
    cbn [fold_right fst snd] in *. cbn [map join fst snd].
    destruct fuel as [|fuel]; [lia|].
    rewrite Hkey by exact Hk.
    rewrite (Hx Hpx pretty d depth fuel (newline pretty d' ++ 125 :: rest));
      [| lia | lia | apply value_end_newline; reflexivity].
    rewrite skip_space_newline. reflexivity.
  - inversion Hall as [|? ? Hx Hall']; subst. cbn [snd] in Hx.
    cbn [forallb] in Hp. apply andb_prop in Hp. destruct Hp as [Hpx Hp'].
    cbn [fst snd] in Hpx. apply andb_prop in Hpx. destruct Hpx as [Hk Hpx].
    change (fold_right (fun kv d => Z.max (nesting lib (snd kv)) d) 0 ((k, x) :: kv' :: m))
      with (Z.max (nesting lib x) (fold_right (fun kv d => Z.max (nesting lib (snd kv)) d) 0 (kv' :: m))) in Hdepth.
    change (fold_right (fun kv n => S (vfuel lib (snd kv) + n)) 0%nat ((k, x) :: kv' :: m))
      with (S (vfuel lib x + fold_right (fun kv n => S (vfuel lib (snd kv) + n)) 0%nat (kv' :: m))) in Hfuel.
    match goal with |- scan_members _ _ (join ?sep (map ?f ((k, x) :: kv' :: m)) ++ ?tl) = _ =>
      change (join sep (map f ((k, x) :: kv' :: m)))
        with ((appendString k ++ colon pretty ++ encode lib pretty d x) ++ sep ++ join sep (map f (kv' :: m)))
    end.
    destruct fuel as [|fuel]; [lia|].
    rewrite <- (app_assoc (appendString k ++ colon pretty ++ encode lib pretty d x)).
    rewrite Hkey by exact Hk.
    rewrite <- !app_assoc.
    rewrite (Hx Hpx pretty d depth fuel); [| lia | lia | reflexivity].
    cbn [app skip_space]. change (is_space 44) with false. cbv iota.
    change (44 =? 44) with true. cbv iota.
    rewrite scan_members_skip.
    rewrite (IH kv' Hall' Hp'); [reflexivity | lia | lia].
Qed.

(** The scanner reads back the text of a printable value. *)
Lemma scan_value_encode (v : value) : scans lib v.
Proof.
  induction v as [ |b|f|s|l IHl|m IHm] using value_ind';
    intros Hp pretty d depth fuel rest Hdepth Hfuel Hend;
    (destruct fuel as [|fuel]; [cbn [vfuel] in Hfuel; lia|]).
  - reflexivity.
  - destruct b; reflexivity.
  - cbn [printable] in Hp. apply andb_prop in Hp. destruct Hp as [_ Hlit].
    cbn [encode tree_of]. now apply scan_value_number.
  - cbn [encode tree_of]. now apply scan_value_string.
  - destruct l as [|x l].
    { cbn [nesting fold_right] in Hdepth. cbn [encode tree_of map].
      change (B "[]" ++ rest) with (91 :: 93 :: rest).
      rewrite scan_value_array by lia. reflexivity. }
    cbn [nesting] in Hdepth. cbn [vfuel] in Hfuel. cbn [printable] in Hp.
    pose proof (fold_max_nonneg (nesting lib) (x :: l)) as Hnn.
    cbn [encode tree_of]. rewrite <- !app_assoc. cbn [app].
    rewrite scan_value_array by lia. rewrite skip_space_newline.
    pose proof Hp as Hp0. cbn [forallb] in Hp0. apply andb_prop in Hp0.
    destruct Hp0 as [Hpx _].
    destruct (encode_head pretty (S d) x Hpx) as (c & t & Hx & Hc).
    assert (Hjoin : exists t', join (44 :: newline pretty (S d)) (map (encode lib pretty (S d)) (x :: l))
                    ++ newline pretty d ++ 93 :: rest = c :: t').
    { destruct l; cbn [map join]; rewrite Hx; cbn [app]; eauto. }
    destruct Hjoin as [t' Hj]. rewrite Hj. rewrite skip_space_start by exact Hc.
    unfold value_start in Hc. bool_hyps.
    replace (c =? 93) with false by (symmetry; apply Z.eqb_neq; assumption).
    rewrite <- Hj.
    rewrite (scan_elements_join pretty (S d) d (depth + 1) x l IHl Hp); [reflexivity|lia|lia].
  - destruct m as [|kv m].
    { cbn [nesting fold_right] in Hdepth. cbn [encode tree_of map].
      change (B "{}" ++ rest) with (123 :: 125 :: rest).
      rewrite scan_value_object by lia. reflexivity. }
    cbn [nesting] in Hdepth. cbn [vfuel] in Hfuel. cbn [printable] in Hp.
    pose proof (fold_max_nonneg (fun kv => nesting lib (snd kv)) (kv :: m)) as Hnn.
    cbn [encode tree_of]. rewrite <- !app_assoc. cbn [app].
    rewrite scan_value_object by lia. rewrite skip_space_newline.
    assert (Hjoin : exists t', join (44 :: newline pretty (S d))
                      (map (fun kv => appendString (fst kv) ++ colon pretty
                                      ++ encode lib pretty (S d) (snd kv)) (kv :: m))
                    ++ newline pretty d ++ 125 :: rest = 34 :: t').
    { destruct m; cbn [map join]; unfold appendString; cbn [app]; eauto. }
    destruct Hjoin as [t' Hj]. rewrite Hj. cbn [skip_space].
    change (is_space 34) with false. cbv iota. change (34 =? 125) with false. cbv iota.
    rewrite <- Hj.
    rewrite (scan_members_join pretty (S d) d (depth + 1) kv m IHm Hp); [reflexivity|lia|lia].
Qed.

Lemma faithful_Forall (l : list value) :
  fold_right (fun x P => faithful lib x /\ P) True l -> Forall (faithful lib) l.
Proof.
  induction l as [|x l IH]; cbn [fold_right]; [constructor|].
  intros [Hx Hl]. constructor; auto.
Qed.

Lemma faithful_Forall_snd (m : list (bytes * value)) :
  fold_right (fun kv P => faithful lib (snd kv) /\ P) True m ->
  Forall (fun kv => faithful lib (snd kv)) m.
Proof.
  induction m as [|x l IH]; cbn [fold_right]; [constructor|].
  intros [Hx Hl]. constructor; auto.
Qed.

(** Decoding the JSON value of a faithful value gives the value. *)
Lemma decode_tree_of (v : value) :
  faithful lib v -> decode lib (tree_of lib v) = Some v.
Proof.
  induction v as [ |b|f|s|l IHl|m IHm] using value_ind'; intros Hf;
    try reflexivity.
  - cbn [tree_of decode]. cbn [faithful] in Hf. now rewrite Hf.
  - cbn [tree_of decode]. cbn [faithful] in Hf. apply faithful_Forall in Hf.
    assert (H : all_some (map (decode lib) (map (tree_of lib) l)) = Some l).
    { induction l as [|x l IH]; [reflexivity|].
      inversion IHl; subst. inversion Hf; subst. cbn [map all_some].
      rewrite H1 by assumption. rewrite IH by assumption. reflexivity. }
    now rewrite H.
  - cbn [tree_of decode]. cbn [faithful] in Hf. destruct Hf as [Hs Hf].
    apply faithful_Forall_snd in Hf.
    assert (H : all_some (map (fun kv => with_key (fst kv) (decode lib (snd kv)))
                          (map (fun kv => (fst kv, tree_of lib (snd kv))) m)) = Some m).
    { clear Hs. induction m as [|[k x] m IH]; [reflexivity|].
      inversion IHm; subst. inversion Hf; subst. cbn [map all_some fst snd] in *.
      rewrite H1 by assumption. cbn [with_key]. rewrite IH by assumption. reflexivity. }
    rewrite H. rewrite (fold_map_store_sorted m []); [reflexivity|exact Hs].
Qed.

(** The fuel of [scan] is enough for the text of a value. *)

Lemma join_fuel {A : Type} (f : A -> bytes) (g : A -> nat) (sep : bytes) (l : list A) :
  (1 <= length sep)%nat ->
  Forall (fun x => (g x <= length (f x))%nat) l ->
  (fold_right (fun x n => S (g x + n)) 0%nat l <= S (length (join sep (map f l))))%nat.
Proof.
  intros Hsep Hall. induction Hall as [|x l Hx Hall IH]; [cbn; lia|].
  destruct l as [|y l].
  - cbn [fold_right map join]. lia.
  - change (join sep (map f (x :: y :: l))) with (f x ++ sep ++ join sep (map f (y :: l))).
    change (fold_right (fun x n => S (g x + n)) 0%nat (x :: y :: l))
      with (S (g x + fold_right (fun x n => S (g x + n)) 0%nat (y :: l))).
    rewrite !length_app. lia.
Qed.

Lemma vfuel_length (pretty : bool) (v : value) :
  printable lib v = true ->
  forall d, (vfuel lib v <= length (encode lib pretty d v))%nat.
Proof.
  induction v as [ |b|f|s|l IHl|m IHm] using value_ind'; intros Hp d.
  - cbn. lia.
  - destruct b; cbn; lia.
  - cbn [printable] in Hp. apply andb_prop in Hp. destruct Hp as [_ Hlit].
    destruct (number_literal_head _ Hlit) as (c & t & Heq & _).
    cbn [vfuel encode]. rewrite Heq. cbn [length]. lia.
  - cbn [vfuel encode]. unfold appendString. cbn [length]. lia.
  - destruct l as [|x l]; [cbn; lia|].
    cbn [printable] in Hp. cbn [vfuel encode].
    assert (Hall : Forall (fun x => (vfuel lib x <= length (encode lib pretty (S d) x))%nat) (x :: l)).
    { rewrite forallb_forall in Hp. rewrite Forall_forall in *. intros y Hy. apply IHl; auto. }
    assert (Hsep : (1 <= length (44%Z :: newline pretty (S d)))%nat) by (cbn [length]; lia).
    pose proof (join_fuel (encode lib pretty (S d)) (vfuel lib) (44 :: newline pretty (S d)) (x :: l)
                  Hsep Hall) as Hj.
    rewrite !length_app. cbn [length]. lia.
  - destruct m as [|kv m]; [cbn; lia|].
    cbn [printable] in Hp. cbn [vfuel encode].
    assert (Hall : Forall (fun kv => (vfuel lib (snd kv)
                     <= length (appendString (fst kv) ++ colon pretty ++ encode lib pretty (S d) (snd kv)))%nat)
                     (kv :: m)).
    { rewrite forallb_forall in Hp. rewrite Forall_forall in *. intros y Hy.
      specialize (Hp y Hy). apply andb_prop in Hp. destruct Hp as [_ Hp].
      specialize (IHm y Hy Hp (S d)). rewrite !length_app. lia. }
    assert (Hsep : (1 <= length (44%Z :: newline pretty (S d)))%nat) by (cbn [length]; lia).
    pose proof (join_fuel (fun kv : bytes * value => appendString (fst kv) ++ colon pretty ++ encode lib pretty (S d) (snd kv))
                  (fun kv => vfuel lib (snd kv)) (44 :: newline pretty (S d)) (kv :: m)
                  Hsep Hall) as Hj.
    rewrite !length_app. cbn [length].
    match goal with
    | |- (S ?a <= 1 + (?x + (?j + (?y + 1))))%nat =>
      assert (a <= S j)%nat by exact Hj; lia
    end.
Qed.

(** [scan] reads back the text of a printable value. *)
Lemma scan_encode (pretty : bool) (v : value) :
  printable lib v = true -> nesting lib v <= maxNestingDepth ->
  scan (encode lib pretty 0 v) = Some (tree_of lib v).
Proof.
  intros Hp Hn. unfold scan.
  pose proof (scan_value_encode v Hp pretty 0%nat 0 (2 * length (encode lib pretty 0 v) + 2)%nat []) as H.
  rewrite app_nil_r in H. rewrite H; [reflexivity|lia| |reflexivity].
  pose proof (vfuel_length pretty v Hp 0%nat). lia.
Qed.

(** [Unmarshal] reads a well-formed document back from its text. *)
Lemma Unmarshal_encode (pretty : bool) (m : list (bytes * value)) :
  WellFormed lib (Some m) ->
  Unmarshal lib (encode lib pretty 0 (VMap m)) = Ok (Some m).
Proof.
  intros (Hp & Hf & Hn). unfold Unmarshal.
  rewrite (scan_encode pretty (VMap m) Hp Hn).
  pose proof (decode_tree_of (VMap m) Hf) as Hd.
  cbn [tree_of] in *. now rewrite Hd.
Qed.

End Codec.

(** ** What [Unmarshal] returns is a well-formed document *)

Section Unmarshalled.

Variable lib : strconv.
Hypothesis Hlib : strconv_sound lib.

Lemma faithful_of_Forall (l : list (value lib)) :
  Forall (faithful lib) l -> fold_right (fun x P => faithful lib x /\ P) True l.
Proof. induction 1; cbn [fold_right]; auto. Qed.

Lemma faithful_of_Forall_snd (m : list (bytes * value lib)) :
  Forall (fun kv => faithful lib (snd kv)) m ->
  fold_right (fun kv P => faithful lib (snd kv) /\ P) True m.
Proof. induction 1; cbn [fold_right]; auto. Qed.

Lemma decode_well_formed (t : jtree) :
  forall v, decode lib t = Some v -> strings_valid t = true ->
            printable lib v = true /\ faithful lib v /\ nesting lib v <= tdepth t.
Proof.
  destruct Hlib as [Hfin Hfmt].
  induction t as [ |b|lit|s|l IHl|l IHl] using jtree_ind'; intros v Hv Hs; cbn [decode] in Hv.
  - inversion Hv; subst. cbn. repeat split; lia.
  - inversion Hv; subst. cbn. repeat split; lia.
  - destruct (ParseFloat lib lit) as [f|] eqn:Hp; [|discriminate]. inversion Hv; subst.
    apply Hfin in Hp. destruct (Hfmt f Hp) as [Hlit Hrt].
    cbn [printable faithful nesting tdepth]. rewrite Hp, Hlit. repeat split; [exact Hrt|lia].
  - inversion Hv; subst. cbn [strings_valid] in Hs. cbn. repeat split; [exact Hs|lia].
  - destruct (all_some (map (decode lib) l)) as [vs|] eqn:Hall; [|discriminate].
    inversion Hv; subst. apply all_some_Forall2 in Hall.
    cbn [strings_valid] in Hs. rewrite forallb_forall in Hs.
    assert (H : Forall (fun v => printable lib v = true /\ faithful lib v
                         /\ nesting lib v <= fold_right (fun x d => Z.max (tdepth x) d) 0 l) vs).
    { clear Hv. induction Hall as [|x v l vs Hx Hall IH]; [constructor|].
      inversion IHl as [|? ? IHx IHl']; subst.
      destruct (IHx v Hx (Hs x (or_introl eq_refl))) as (Hp & Hf & Hn).
      constructor; [cbn [fold_right]; repeat split; auto; lia|].
      eapply Forall_impl; [|apply IH; [exact IHl'|intros y Hy; apply Hs; now right]].
      cbv beta. cbn [fold_right]. intros a (Ha1 & Ha2 & Ha3). repeat split; auto; lia. }
    cbn [printable faithful nesting tdepth]. repeat split.
    + apply forallb_forall. rewrite Forall_forall in H. intros x Hx. now apply H.
    + apply faithful_of_Forall. eapply Forall_impl; [|exact H]. cbv beta. tauto.
    + pose proof (fold_max_nonneg tdepth l).
      assert (fold_right (fun x d => Z.max (nesting lib x) d) 0 vs
              <= fold_right (fun x d => Z.max (tdepth x) d) 0 l).
      { apply fold_max_le. split; [assumption|]. eapply Forall_impl; [|exact H]. cbv beta. tauto. }
      lia.
  - destruct (all_some (map (fun kv => with_key (fst kv) (decode lib (snd kv))) l))
      as [kvs|] eqn:Hall; [|discriminate].
    inversion Hv; subst. apply all_some_Forall2 in Hall.
    cbn [strings_valid] in Hs. rewrite forallb_forall in Hs.
    set (N := fold_right (fun kv d => Z.max (tdepth (snd kv)) d) 0 l).
    assert (H : Forall (fun kv => (utf8.Valid (fst kv) && printable lib (snd kv) = true)
                         /\ faithful lib (snd kv) /\ nesting lib (snd kv) <= N) kvs).
    { clear Hv. subst N. induction Hall as [|x kv l kvs Hx Hall IH]; [constructor|].
      inversion IHl as [|? ? IHx IHl']; subst.
      pose proof (Hs x (or_introl eq_refl)) as Hsx. apply andb_prop in Hsx.
      destruct Hsx as [Hk Hsx].
      destruct (decode lib (snd x)) as [v|] eqn:Hd; [|discriminate].
      cbn [with_key] in Hx. inversion Hx; subst. cbn [fst snd].
      destruct (IHx v eq_refl Hsx) as (Hp & Hf & Hn).
      constructor; [cbn [fold_right fst snd]; rewrite Hk, Hp; repeat split; auto; lia|].
      eapply Forall_impl; [|apply IH; [exact IHl'|intros y Hy; apply Hs; now right]].
      cbv beta. cbn [fold_right]. intros a (Ha1 & Ha2 & Ha3). repeat split; auto; lia. }
    destruct (fold_map_store _ kvs [] H (Forall_nil _) eq_refl) as [Hm Hsorted].
    cbn [printable faithful nesting tdepth]. repeat split.
    + apply forallb_forall. rewrite Forall_forall in Hm. intros x Hx. now apply Hm.
    + exact Hsorted.
    + apply faithful_of_Forall_snd. eapply Forall_impl; [|exact Hm]. cbv beta. tauto.
    + pose proof (fold_max_nonneg (fun kv => tdepth (snd kv)) l).
      assert (fold_right (fun kv d => Z.max (nesting lib (snd kv)) d) 0 (fold_left map_store kvs [])
              <= N).
      { apply (fold_max_le (fun kv => nesting lib (snd kv))). split; [assumption|].
        eapply Forall_impl; [|exact Hm]. cbv beta. tauto. }
      fold N. lia.
Qed.

(** Every document that [Unmarshal] returns is the nil map or
    well-formed. *)
Lemma Unmarshal_WellFormed (data : bytes) (D : JSONData lib) :
  Unmarshal lib data = Ok D -> D = None \/ WellFormed lib D.
Proof.
  unfold Unmarshal. destruct (scan data) as [t|] eqn:Hs; [|discriminate].
  destruct (scan_strings_valid data t Hs) as [Hv Hd].
  destruct t; try discriminate; [intros H; inversion H; now left|].
  destruct (decode lib (JObject l)) as [v|] eqn:Hdec; [|discriminate].
  destruct (decode_well_formed (JObject l) v Hdec Hv) as (Hp & Hf & Hn).
  destruct v; try discriminate. intros H. inversion H; subst. right.
  cbn [WellFormed]. repeat split; [exact Hp|apply Hf|apply Hf|lia].
Qed.

End Unmarshalled.

(** ** The instance [integers] keeps the promises of [strconv] *)

Lemma digits_all (r : bytes) :
  forallb is_digit r = true -> digits r = (r, []).
Proof.
  induction r as [|c r IH]; [reflexivity|]. cbn [forallb digits].
  intros H. apply andb_prop in H. destruct H as [Hc Hr]. rewrite Hc, (IH Hr). reflexivity.
Qed.

Lemma itoa_loop_digits (f : nat) :
  forall (n : Z) (acc : bytes),
    1 <= n < 10 ^ Z.of_nat f ->
    exists d r,
      itoa_loop f n acc = d :: r ++ acc
      /\ 49 <= d <= 57
      /\ forallb is_digit r = true
      /\ forall a, atoi_loop a (d :: r ++ acc)
                   = atoi_loop (a * 10 ^ Z.of_nat (S (length r)) + n) acc.
Proof.
  induction f as [|f IH]; intros n acc Hn; [cbn in Hn; lia|].
  cbn [itoa_loop]. destruct (n <? 10) eqn:E; bool_hyps.
  - exists (48 + n mod 10), []. cbn [app length forallb].
    repeat split; try (Z.div_mod_to_equations; lia).
    intros a. cbn [atoi_loop]. f_equal. change (10 ^ Z.of_nat 1) with 10.
    Z.div_mod_to_equations; lia.
  - assert (Hq : 1 <= n / 10 < 10 ^ Z.of_nat f).
    { rewrite Nat2Z.inj_succ, Z.pow_succ_r in Hn by lia. Z.div_mod_to_equations; lia. }
    destruct (IH (n / 10) ((48 + n mod 10) :: acc) Hq) as (d & r & Heq & Hd & Hr & Hat).
    exists d, (r ++ [48 + n mod 10]). rewrite Heq, <- app_assoc. cbn [app].
    repeat split; try lia.
    + rewrite forallb_app, Hr. cbn [forallb]. unfold is_digit.
      replace ((48 <=? 48 + n mod 10) && (48 + n mod 10 <=? 57)) with true; [reflexivity|].
      symmetry. apply andb_true_intro. split; apply Z.leb_le; Z.div_mod_to_equations; lia.
    + intros a. rewrite Hat. cbn [atoi_loop]. f_equal.
      rewrite length_app. cbn [length]. rewrite Nat.add_1_r.
      rewrite (Nat2Z.inj_succ (S (length r))), Z.pow_succ_r by lia.
      Z.div_mod_to_equations; lia.
Qed.

Lemma itoa_positive (n : Z) :
  1 <= n ->
  exists d r,
    itoa_loop (S (Z.to_nat (Z.log2 n))) n [] = d :: r
    /\ 49 <= d <= 57 /\ forallb is_digit r = true /\ atoi_loop 0 (d :: r) = n.
Proof.
  intros Hn.
  assert (Hf : 1 <= n < 10 ^ Z.of_nat (S (Z.to_nat (Z.log2 n)))).
  { split; [lia|]. rewrite Nat2Z.inj_succ, Z2Nat.id by apply Z.log2_nonneg.
    destruct (Z.log2_spec n ltac:(lia)) as [_ H].
    eapply Z.lt_le_trans; [exact H|]. apply Z.pow_le_mono_l.
    pose proof (Z.log2_nonneg n). lia. }
  destruct (itoa_loop_digits _ n [] Hf) as (d & r & Heq & Hd & Hr & Hat).
  rewrite app_nil_r in *. exists d, r. repeat split; try assumption; try lia.
  rewrite Hat. cbn [atoi_loop]. lia.
Qed.

Lemma scan_int_digits (d : Z) (r : bytes) :
  49 <= d <= 57 -> forallb is_digit r = true -> scan_int (d :: r) = Some (d :: r, []).
Proof.
  intros Hd Hr. cbn [scan_int].
  replace (d =? 48) with false by (symmetry; apply Z.eqb_neq; lia).
  replace (is_digit d) with true
    by (symmetry; unfold is_digit; apply andb_true_intro; split; apply Z.leb_le; lia).
  now rewrite (digits_all r Hr).
Qed.

Lemma integers_sound : strconv_sound integers.
Proof.
  split; [reflexivity|]. intros z _. cbn [FormatFloat ParseFloat integers].
  unfold itoa. destruct (z <? 0) eqn:Ez; bool_hyps.
  - destruct (itoa_positive (- z) ltac:(lia)) as (d & r & -> & Hd & Hr & Hat).
    pose proof (scan_int_digits d r Hd Hr) as Hs. split.
    + unfold is_number_literal, scan_number. change (45 =? 45) with true. cbv iota.
      rewrite Hs. reflexivity.
    + change (45 =? 45) with true. cbv iota. rewrite Hs, Hat.
      now rewrite Z.opp_involutive.
  - destruct (Z.eq_dec z 0) as [->|Hz]; [split; reflexivity|].
    destruct (itoa_positive z ltac:(lia)) as (d & r & -> & Hd & Hr & Hat).
    pose proof (scan_int_digits d r Hd Hr) as Hs. split.
    + unfold is_number_literal, scan_number.
      replace (d =? 45) with false by (symmetry; apply Z.eqb_neq; lia).
      rewrite Hs. reflexivity.
    + replace (d =? 45) with false by (symmetry; apply Z.eqb_neq; lia).
      rewrite Hs, Hat. reflexivity.
Qed.

(** ** The store and the handlers *)

Section Claims.

Variable lib : strconv.
Local Abbreviation value := (value lib).

(** A JSON value is decoded exactly when its numbers are in range. *)
Lemma decode_in_range (t : jtree) :
  in_range lib t = true <-> exists v, decode lib t = Some v.
Proof.
  induction t as [ |b|lit|s|l IHl|l IHl] using jtree_ind'; cbn [in_range decode];
    try (split; [eauto|reflexivity]).
  - destruct (ParseFloat lib lit); split; eauto; try discriminate.
    intros [v H]. discriminate.
  - rewrite forallb_forall. rewrite Forall_forall in IHl. split.
    + intros H.
      destruct (proj2 (all_some_map (decode lib) l)) as [r ->]; [|eauto].
      apply Forall_forall. intros x Hx. apply IHl; auto.
    + intros [v H] x Hx.
      destruct (all_some (map (decode lib) l)) as [r|] eqn:Hr; [|discriminate].
      pose proof (proj1 (all_some_map (decode lib) l) (ex_intro _ r Hr)) as Hall.
      rewrite Forall_forall in Hall. apply IHl; auto.
  - rewrite forallb_forall. rewrite Forall_forall in IHl. split.
    + intros H.
      destruct (proj2 (all_some_map (fun kv => with_key (fst kv) (decode lib (snd kv))) l))
        as [r ->]; [|eauto].
      apply Forall_forall. intros x Hx.
      destruct (proj1 (IHl x Hx) (H x Hx)) as [v ->]. cbn [with_key]. eauto.
    + intros [v H] x Hx.
      destruct (all_some (map (fun kv => with_key (fst kv) (decode lib (snd kv))) l))
        as [r|] eqn:Hr; [|discriminate].
      pose proof (proj1 (all_some_map _ l) (ex_intro _ r Hr)) as Hall.
      rewrite Forall_forall in Hall. destruct (Hall x Hx) as [c Hc].
      apply IHl; [exact Hx|]. destruct (decode lib (snd x)); [eauto|discriminate].
Qed.

Lemma printable_marshalable (v : value) :
  printable lib v = true -> marshalable lib v = true.
Proof.
  induction v as [ |b|f|s|l IHl|m IHm] using value_ind'; cbn [printable marshalable];
    intros Hp; try reflexivity.
  - apply andb_prop in Hp. tauto.
  - rewrite forallb_forall in *. rewrite Forall_forall in IHl. auto.
  - rewrite forallb_forall in *. rewrite Forall_forall in IHm. intros kv Hin.
    specialize (Hp kv Hin). apply andb_prop in Hp. apply IHm; tauto.
Qed.

(** The text of a map is not empty. *)
Lemma encode_map_length (pretty : bool) (d : nat) (m : list (bytes * value)) :
  (length (encode lib pretty d (VMap m)) =? 0)%nat = false.
Proof. destruct m; reflexivity. Qed.

(** What [saveDataFile] does when nothing fails. *)
Lemma saveDataFile_ok (e : env) (fs : FS) (m : list (bytes * value)) :
  printable lib (VMap m) = true -> write e = WriteOk ->
  saveDataFile lib e fs (Some m) = (Some (encode lib true 0 (VMap m)), None).
Proof.
  intros Hp Hw. unfold saveDataFile, MarshalIndent, marshal_with.
  rewrite (printable_marshalable _ Hp). unfold WriteFile. now rewrite Hw.
Qed.

(** [saveDataFile] returns no error only when the text of the document is
    written, all of it. *)
Lemma saveDataFile_success (e : env) (fs fs' : FS) (data : JSONData lib) :
  saveDataFile lib e fs data = (fs', None) ->
  exists text, MarshalIndent lib data = Ok text /\ fs' = Some text /\ write e = WriteOk.
Proof.
  unfold saveDataFile. destruct (MarshalIndent lib data) as [text|err]; [|discriminate].
  unfold WriteFile. destruct (write e); intros H; inversion H; subst. eauto.
Qed.

(** When [saveDataFile] returns an error the file is as before, unless
    the error comes from inside [os.WriteFile]. *)
Lemma saveDataFile_failure (e : env) (fs fs' : FS) (data : JSONData lib) (err : store_error) :
  saveDataFile lib e fs data = (fs', Some err) ->
  fs' = fs \/ (err = WriteError /\ (write e = CloseFails \/ exists n, write e = WriteFails n)).
Proof.
  unfold saveDataFile. destruct (MarshalIndent lib data) as [text|err'].
  - unfold WriteFile. destruct (write e) eqn:Hw; intros H; inversion H; subst; eauto.
  - intros H. inversion H; subst. now left.
Qed.

Lemma MarshalIndent_shape (data : JSONData lib) (text : bytes) :
  document_ok lib data -> MarshalIndent lib data = Ok text ->
  is_object_text text \/ text = B "null".
Proof.
  destruct data as [m|]; cbn [document_ok]; unfold MarshalIndent, marshal_with.
  - intros [Hp Hn]. rewrite (printable_marshalable _ Hp). intros H.
    pose proof (scan_encode lib true (VMap m) Hp Hn) as Hsc.
    assert (Heq : encode lib true 0 (VMap m) = text) by congruence.
    rewrite Heq in Hsc. left.
    exists (map (fun kv => (fst kv, tree_of lib (snd kv))) m). exact Hsc.
  - intros _ H. inversion H. now right.
Qed.

(** [Unmarshal] accepts [null] and the objects that fit, nothing else. *)
Lemma Unmarshal_Ok (data : bytes) (D : JSONData lib) :
  Unmarshal lib data = Ok D ->
  exists t, scan data = Some t /\ fits lib t = true /\ array_or_scalar t = false.
Proof.
  unfold Unmarshal. destruct (scan data) as [t|]; [|discriminate].
  intros H. exists t. split; [reflexivity|].
  destruct t; try discriminate; [split; reflexivity|].
  cbn [fits array_or_scalar]. split; [|reflexivity].
  apply decode_in_range. destruct (decode lib (JObject l)) as [v|]; [eauto|discriminate].
Qed.

Lemma Unmarshal_Err (data : bytes) (err : json_error) :
  Unmarshal lib data = Err err ->
  Valid data = false \/ exists t, scan data = Some t /\ fits lib t = false.
Proof.
  unfold Unmarshal, Valid. destruct (scan data) as [t|]; [|now left].
  intros H. right. exists t. split; [reflexivity|].
  destruct t; try discriminate; try reflexivity.
  cbn [fits]. destruct (in_range lib (JObject l)) eqn:Hr; [|reflexivity].
  apply decode_in_range in Hr. destruct Hr as [v Hv]. rewrite Hv in H.
  cbn [decode] in Hv. destruct (all_some _); [|discriminate].
  inversion Hv; subst. discriminate.
Qed.

Lemma Unmarshal_array_or_scalar (data : bytes) (t : jtree) :
  scan data = Some t -> array_or_scalar t = true ->
  Unmarshal lib data = Err UnmarshalTypeError.
Proof.
  unfold Unmarshal. intros -> H. destruct t; try discriminate; reflexivity.
Qed.

Lemma Unmarshal_invalid (data : bytes) :
  Valid data = false -> Unmarshal lib data = Err SyntaxError.
Proof.
  unfold Unmarshal, Valid. destruct (scan data); [discriminate|reflexivity].
Qed.

Lemma method_eqb (a b : bytes) : bytes_eqb a b = false <-> a <> b.
Proof.
  split.
  - intros H Heq. apply bytes_eqb_eq in Heq. congruence.
  - intros H. destruct (bytes_eqb a b) eqn:E; [|reflexivity].
    apply bytes_eqb_eq in E. contradiction.
Qed.

(** An update that is answered with 200 or 201 has decoded the body and
    written the text of the document, all of it. *)
Lemma update_accepted (e : env) (fs : FS) (r : Request) :
  Method r = MethodPost \/ Method r = MethodPut ->
  StatusCode (snd (dataRoute lib e fs r)) < 400 ->
  exists body D text,
    Body r = Some body /\ Unmarshal lib body = Ok D
    /\ MarshalIndent lib D = Ok text
    /\ fst (dataRoute lib e fs r) = Some text.
Proof.
  intros Hm.
  assert (Hupd : dataRoute lib e fs r = updateDataHandler lib e fs r
                 /\ negb (bytes_eqb (Method r) MethodPost) && negb (bytes_eqb (Method r) MethodPut) = false).
  { destruct Hm as [H|H]; unfold dataRoute; rewrite H; split; reflexivity. }
  destruct Hupd as [-> Hneg]. unfold updateDataHandler. rewrite Hneg.
  destruct (Body r) as [body|] eqn:Hb; [|intros Hok; cbv in Hok; discriminate].
  destruct (Unmarshal lib body) as [D|err] eqn:Hu; [|intros Hok; cbv in Hok; discriminate].
  destruct (saveDataFile lib e fs D) as [fs' [err|]] eqn:Hs;
    [intros Hok; cbv in Hok; discriminate|].
  destruct (saveDataFile_success _ _ _ _ Hs) as (text & Hmar & -> & _).
  intros _. exists body, D, text. cbn [fst]. repeat split; assumption || reflexivity.
Qed.

(** A request on /data that is answered below 400 is a GET, a POST or a
    PUT; a GET leaves the file as it is. *)
Lemma served_methods (e : env) (fs : FS) (r : Request) :
  StatusCode (snd (dataRoute lib e fs r)) < 400 ->
  (Method r = MethodGet /\ fst (dataRoute lib e fs r) = fs)
  \/ Method r = MethodPost \/ Method r = MethodPut.
Proof.
  unfold dataRoute. destruct (bytes_eqb (Method r) MethodGet) eqn:Hg.
  { apply bytes_eqb_eq in Hg. intros _. left. now split. }
  destruct (bytes_eqb (Method r) MethodPost) eqn:Hp.
  { apply bytes_eqb_eq in Hp. intros _. right. now left. }
  destruct (bytes_eqb (Method r) MethodPut) eqn:Hu.
  { apply bytes_eqb_eq in Hu. intros _. right. now right. }
  cbn [orb snd StatusCode http_Error]. intros H. cbv in H. discriminate.
Qed.

(** What a POST or PUT stores is what a read returns: the document of the
    body. *)
Lemma update_then_read (e e' : env) (fs : FS) (r : Request) :
  strconv_sound lib ->
  Method r = MethodPost \/ Method r = MethodPut ->
  StatusCode (snd (dataRoute lib e fs r)) < 400 ->
  read_fails e' = false ->
  exists body D,
    Body r = Some body /\ Unmarshal lib body = Ok D
    /\ readDataFile lib e' (fst (dataRoute lib e fs r)) = Ok D.
Proof.
  intros Hlib Hm Hok Hr.
  destruct (update_accepted e fs r Hm Hok) as (body & D & text & Hb & Hu & Hmar & ->).
  exists body, D. repeat split; [exact Hb|exact Hu|].
  unfold readDataFile, ReadFile. rewrite Hr.
  destruct (Unmarshal_WellFormed lib Hlib body D Hu) as [->|Hwf].
  - inversion Hmar; subst. reflexivity.
  - destruct D as [m|]; [|destruct Hwf]. pose proof Hwf as (Hp & _ & _).
    unfold MarshalIndent, marshal_with in Hmar.
    rewrite (printable_marshalable _ Hp) in Hmar.
    assert (Heq : encode lib true 0 (VMap m) = text) by congruence.
    rewrite <- Heq, encode_map_length. now rewrite (Unmarshal_encode lib true m Hwf).
Qed.

(** The requests on /data that are answered below 400 keep the shape of
    the file. *)
Lemma served_file_shape (e : env) (fs : FS) (r : Request) :
  strconv_sound lib ->
  stored_shape fs ->
  StatusCode (snd (dataRoute lib e fs r)) < 400 ->
  stored_shape (fst (dataRoute lib e fs r)).
Proof.
  intros Hlib Hfs Hok. destruct (served_methods e fs r Hok) as [[_ ->]|Hm]; [exact Hfs|].
  destruct (update_accepted e fs r Hm Hok) as (body & D & text & Hb & Hu & Hmar & ->).
  cbn [stored_shape]. right. apply (MarshalIndent_shape D text); [|exact Hmar].
  destruct (Unmarshal_WellFormed lib Hlib body D Hu) as [->|Hwf]; [exact I|].
  destruct D as [m|]; [|destruct Hwf]. destruct Hwf as (Hp & _ & Hn). now split.
Qed.

(** C1: for every well-formed JSON object [D], [saveDataFile D] (replace)
    followed by [readDataFile] (read) returns exactly [D], when the write
    and the read themselves succeed. *)
Theorem replace_then_read (e1 e2 : env) (fs : FS) (D : JSONData lib) :
  WellFormed lib D ->
  write e1 = WriteOk ->
  read_fails e2 = false ->
  snd (saveDataFile lib e1 fs D) = None
  /\ readDataFile lib e2 (fst (saveDataFile lib e1 fs D)) = Ok D.
Proof.
  destruct D as [m|]; [|intros []]. intros Hwf Hw Hr.
  pose proof Hwf as (Hp & _ & _).
  rewrite (saveDataFile_ok e1 fs m Hp Hw). cbn [fst snd]. split; [reflexivity|].
  unfold readDataFile, ReadFile. rewrite Hr, encode_map_length.
  now rewrite (Unmarshal_encode lib true m Hwf).
Qed.

(** C2, as amended: started on a path where the file is absent, empty, a
    JSON object or the literal null, and run through reads and replaces
    (by the nil map or by a map of printable values) that all complete
    without an error, the store leaves a file that is empty, a JSON object
    or the literal null; no array and no other scalar is persisted. *)
Theorem file_shape_invariant (e0 : env) (fs0 fs1 fs2 : FS)
    (trace : list (env * store_op lib)) :
  stored_shape fs0 ->
  NewStore lib e0 fs0 = Started fs1 ->
  Forall (fun eo => match snd eo with
                    | OpReplace D => document_ok lib D
                    | OpRead => True
                    end) trace ->
  run lib fs1 trace = Some fs2 ->
  stored_shape fs1 /\ stored_shape fs2.
Proof.
  intros H0 Hnew Hdocs Hrun.
  assert (H1 : stored_shape fs1).
  { unfold NewStore in Hnew. destruct (Stat e0 fs0).
    - now inversion Hnew; subst.
    - destruct (saveDataFile lib e0 fs0 (Some [])) as [fs' [err|]] eqn:Hs; [discriminate|].
      inversion Hnew; subst.
      destruct (saveDataFile_success _ _ _ _ Hs) as (text & Hm & -> & _).
      inversion Hm; subst. cbn [stored_shape]. right. left. now exists [].
    - now inversion Hnew; subst. }
  split; [exact H1|]. clear Hnew H0. revert fs1 H1 Hrun.
  induction Hdocs as [|[e o] trace Ho Hdocs IH]; intros fs1 H1 Hrun.
  - cbn [run] in Hrun. now inversion Hrun; subst.
  - cbn [run] in Hrun. cbn [snd] in Ho. destruct o as [|D]; cbn [store_step] in Hrun.
    + destruct (readDataFile lib e fs1); [|discriminate]. now apply (IH fs1).
    + destruct (saveDataFile lib e fs1 D) as [fs' [err|]] eqn:Hs; [discriminate|].
      apply (IH fs'); [|exact Hrun].
      destruct (saveDataFile_success _ _ _ _ Hs) as (text & Hm & -> & _).
      cbn [stored_shape]. right. exact (MarshalIndent_shape D text Ho Hm).
Qed.

(** C3, as amended: a POST or PUT on /data whose body is not valid JSON is
    answered with 400 and the file is unchanged; every request on /data is
    answered with 200 or 201, or with a status from 400 on, and in the
    second case the file is unchanged unless the error comes from inside
    the file write (the file was opened, so truncated, before the write or
    the close failed); an update answered with 200 or 201 has written the
    text of the document of the body, and a GET leaves the file as it
    is. *)
Theorem failure_leaves_file (e : env) (fs : FS) (r : Request) :
  (forall body,
      Method r = MethodPost \/ Method r = MethodPut ->
      Body r = Some body -> Valid body = false ->
      dataRoute lib e fs r
      = (fs, http_Error (B "Invalid JSON format in request body") StatusBadRequest))
  /\ (StatusCode (snd (dataRoute lib e fs r)) = StatusOK
      \/ StatusCode (snd (dataRoute lib e fs r)) = StatusCreated
      \/ (400 <= StatusCode (snd (dataRoute lib e fs r))
          /\ (fst (dataRoute lib e fs r) = fs
              \/ (StatusCode (snd (dataRoute lib e fs r)) = StatusInternalServerError
                  /\ (write e = CloseFails \/ exists n, write e = WriteFails n)))))
  /\ (Method r = MethodPost \/ Method r = MethodPut ->
      StatusCode (snd (dataRoute lib e fs r)) < 400 ->
      exists body D text,
        Body r = Some body /\ Unmarshal lib body = Ok D
        /\ MarshalIndent lib D = Ok text
        /\ fst (dataRoute lib e fs r) = Some text)
  /\ (Method r = MethodGet -> fst (dataRoute lib e fs r) = fs).
Proof.
  assert (Hupd : Method r = MethodPost \/ Method r = MethodPut ->
                 dataRoute lib e fs r = updateDataHandler lib e fs r
                 /\ negb (bytes_eqb (Method r) MethodPost) && negb (bytes_eqb (Method r) MethodPut) = false).
  { intros [H|H]; unfold dataRoute; rewrite H; split; reflexivity. }
  split; [|split; [|split]].
  - intros body Hm Hb Hv. destruct (Hupd Hm) as [-> Hneg].
    unfold updateDataHandler. rewrite Hneg, Hb, (Unmarshal_invalid body Hv). reflexivity.
  - unfold dataRoute. destruct (bytes_eqb (Method r) MethodGet) eqn:Hg.
    { cbn [fst snd]. unfold getDataHandler. rewrite Hg. cbn [negb].
      destruct (readDataFile lib e fs); cbn [StatusCode http_Error];
        [left; reflexivity|right; right; split; [unfold StatusInternalServerError; lia|now left]]. }
    destruct (bytes_eqb (Method r) MethodPost || bytes_eqb (Method r) MethodPut) eqn:Hpp.
    2:{ cbn [fst snd StatusCode http_Error]. right; right.
        split; [unfold StatusMethodNotAllowed; lia|now left]. }
    unfold updateDataHandler.
    replace (negb (bytes_eqb (Method r) MethodPost) && negb (bytes_eqb (Method r) MethodPut))
      with false by (rewrite <- negb_orb, Hpp; reflexivity).
    destruct (Body r) as [body|].
    2:{ cbn [fst snd StatusCode http_Error]. right; right.
        split; [unfold StatusBadRequest; lia|now left]. }
    destruct (Unmarshal lib body) as [D|err].
    2:{ cbn [fst snd StatusCode http_Error]. right; right.
        split; [unfold StatusBadRequest; lia|now left]. }
    destruct (saveDataFile lib e fs D) as [fs' [err|]] eqn:Hs.
    + cbn [fst snd StatusCode http_Error]. right; right.
      split; [unfold StatusInternalServerError; lia|].
      destruct (saveDataFile_failure _ _ _ _ _ Hs) as [->|[_ Hw]]; [now left|right].
      split; [reflexivity|exact Hw].
    + cbn [fst snd StatusCode].
      destruct (bytes_eqb (Method r) MethodPost); [right; left|left]; reflexivity.
  - apply update_accepted.
  - intros Hg. unfold dataRoute. rewrite Hg. reflexivity.
Qed.

(** C4, as amended: [readDataFile] fails with a [ReadError] exactly when
    the file cannot be read; with a [ParseError] exactly when the content
    is not empty and is not valid JSON or is a valid JSON value that does
    not fit the document type (an array, a string, a number, a boolean,
    or an object with a number out of range); and succeeds otherwise. *)
Theorem read_error_taxonomy (e : env) (fs : FS) :
  (readDataFile lib e fs = Err ReadError <-> ReadFile e fs = None)
  /\ (forall content, ReadFile e fs = Some content ->
        ((exists err, readDataFile lib e fs = Err (ParseError err))
         <-> content <> []
             /\ (Valid content = false
                 \/ exists t, scan content = Some t /\ fits lib t = false))
        /\ ((exists D, readDataFile lib e fs = Ok D)
            <-> content = []
                \/ exists t, scan content = Some t /\ fits lib t = true))
  /\ (forall t, array_or_scalar t = true -> fits lib t = false).
Proof.
  split; [|split].
  - unfold readDataFile. destruct (ReadFile e fs) as [content|]; [|tauto].
    split; [|discriminate].
    destruct (length content =? 0)%nat; [discriminate|].
    destruct (Unmarshal lib content); discriminate.
  - intros content Hread. unfold readDataFile. rewrite Hread.
    destruct content as [|c content].
    { cbn [length Nat.eqb]. split; split.
      - intros [err H]. discriminate.
      - intros [H _]. now contradiction H.
      - now left.
      - eauto. }
    cbn [length Nat.eqb].
    destruct (Unmarshal lib (c :: content)) as [D|err] eqn:Hu.
    + destruct (Unmarshal_Ok _ _ Hu) as (t & Hs & Hfit & _). split; split.
      * intros [err H]. discriminate.
      * intros [_ [Hv|(t' & Hs' & Hfit')]].
        -- unfold Valid in Hv. now rewrite Hs in Hv.
        -- rewrite Hs in Hs'. inversion Hs'; subst. congruence.
      * intros _. right. eauto.
      * eauto.
    + pose proof (Unmarshal_Err _ _ Hu) as Hwhy. split; split.
      * intros _. split; [discriminate|exact Hwhy].
      * eauto.
      * intros [D H]. discriminate.
      * intros [H|(t & Hs & Hfit)]; [discriminate|].
        destruct Hwhy as [Hv|(t' & Hs' & Hfit')].
        -- unfold Valid in Hv. now rewrite Hs in Hv.
        -- rewrite Hs in Hs'. inversion Hs'; subst. congruence.
  - intros t H. destruct t; try discriminate; reflexivity.
Qed.


(** C6: when the file exists, is read and has no content, [readDataFile]
    returns the empty map and no error. *)
Theorem read_empty_file (e : env) (fs : FS) :
  ReadFile e fs = Some [] -> readDataFile lib e fs = Ok (Some []).
Proof. intros H. unfold readDataFile. now rewrite H. Qed.

(** C7: a second [saveDataFile] of the same document that succeeds leaves
    the file that the first one left. *)
Theorem replace_idempotent (e1 e2 : env) (fs : FS) (D : JSONData lib) :
  snd (saveDataFile lib e1 fs D) = None ->
  snd (saveDataFile lib e2 (fst (saveDataFile lib e1 fs D)) D) = None ->
  fst (saveDataFile lib e2 (fst (saveDataFile lib e1 fs D)) D)
  = fst (saveDataFile lib e1 fs D).
Proof.
  destruct (saveDataFile lib e1 fs D) as [fs1 [err|]] eqn:H1; [discriminate|].
  cbn [fst snd]. intros _.
  destruct (saveDataFile lib e2 fs1 D) as [fs2 [err|]] eqn:H2; [discriminate|].
  cbn [fst snd]. intros _.
  destruct (saveDataFile_success _ _ _ _ H1) as (t1 & Hm1 & -> & _).
  destruct (saveDataFile_success _ _ _ _ H2) as (t2 & Hm2 & -> & _).
  congruence.
Qed.

(** A request that is no OPTIONS request goes through the middleware to
    the handler of /data. *)
Lemma served_passes (e : env) (fs : FS) (c : CorsHeaders) (r : Request) :
  Method r <> MethodOptions -> served lib e fs c r = dataRoute lib e fs r.
Proof.
  intros H. apply method_eqb in H. unfold served, CORS. rewrite H. cbn [negb].
  now destruct (length (Origin c) =? 0)%nat.
Qed.

(** A POST or PUT is answered with 201 or 200 exactly when its body is
    read and decoded and the document is saved, and then with the status
    of its method and the envelope of that status. *)
Lemma update_answer (e : env) (fs : FS) (r : Request) :
  Method r = MethodPost \/ Method r = MethodPut ->
  (StatusCode (snd (dataRoute lib e fs r)) < 400
   <-> exists body D fs',
         Body r = Some body /\ Unmarshal lib body = Ok D
         /\ saveDataFile lib e fs D = (fs', None))
  /\ (StatusCode (snd (dataRoute lib e fs r)) < 400 ->
      snd (dataRoute lib e fs r)
      = {| StatusCode := if bytes_eqb (Method r) MethodPost then 201 else 200;
           ContentType := B "application/json";
           Payload := envelope (if bytes_eqb (Method r) MethodPost then 201 else 200) |}).
Proof.
  intros Hm.
  assert (Hupd : dataRoute lib e fs r = updateDataHandler lib e fs r
                 /\ negb (bytes_eqb (Method r) MethodPost) && negb (bytes_eqb (Method r) MethodPut) = false).
  { destruct Hm as [H|H]; unfold dataRoute; rewrite H; split; reflexivity. }
  destruct Hupd as [-> Hneg]. unfold updateDataHandler. rewrite Hneg.
  destruct (Body r) as [body|].
  2:{ cbn [snd StatusCode http_Error]. split; [split|].
      - intros Hok. discriminate Hok.
      - intros (body & D & fs' & Hb & _). discriminate.
      - intros Hok. discriminate Hok. }
  destruct (Unmarshal lib body) as [D|err] eqn:HU.
  2:{ cbn [snd StatusCode http_Error]. split; [split|].
      - intros Hok. discriminate Hok.
      - intros (body' & D & fs' & Hb & Hu & _). inversion Hb; subst. congruence.
      - intros Hok. discriminate Hok. }
  destruct (saveDataFile lib e fs D) as [fs' [err|]] eqn:HS.
  - cbn [snd StatusCode http_Error]. split; [split|].
    + intros Hok. discriminate Hok.
    + intros (body' & D' & fs'' & Hb & Hu & Hs). inversion Hb; subst.
      rewrite HU in Hu. inversion Hu; subst. rewrite HS in Hs. discriminate Hs.
    + intros Hok. discriminate Hok.
  - cbn [snd StatusCode]. split; [split|].
    + intros _. now exists body, D, fs'.
    + intros _. destruct (bytes_eqb (Method r) MethodPost); reflexivity.
    + intros _. destruct (bytes_eqb (Method r) MethodPost); reflexivity.
Qed.

(** C8, as amended: on /data a POST is answered with 201 and the envelope
    of status 201 exactly when it succeeds (its body is read and decoded and
    the document is saved), a PUT that succeeds with 200 and the envelope
    of status 200, and a method other than GET, POST, PUT and OPTIONS with
    405 Method Not Allowed. An OPTIONS request does not reach the handler
    of /data: the middleware answers it, with a status and no body, and the
    file is left as it is; the status is 200 when the request names no
    origin, and 200, 400, 403 or 405 when it names one. *)
Theorem data_status_codes (e : env) (fs : FS) (c : CorsHeaders) (r : Request) :
  (Method r = MethodPost ->
   (StatusCode (snd (served lib e fs c r)) < 400
    <-> exists body D fs',
          Body r = Some body /\ Unmarshal lib body = Ok D
          /\ saveDataFile lib e fs D = (fs', None))
   /\ (StatusCode (snd (served lib e fs c r)) < 400 ->
       snd (served lib e fs c r)
       = {| StatusCode := 201; ContentType := B "application/json";
            Payload := envelope 201 |}))
  /\ (Method r = MethodPut ->
      (StatusCode (snd (served lib e fs c r)) < 400
       <-> exists body D fs',
             Body r = Some body /\ Unmarshal lib body = Ok D
             /\ saveDataFile lib e fs D = (fs', None))
      /\ (StatusCode (snd (served lib e fs c r)) < 400 ->
          snd (served lib e fs c r)
          = {| StatusCode := 200; ContentType := B "application/json";
               Payload := envelope 200 |}))
  /\ scan (envelope 201)
     = Some (JObject [(B "message", JString (B "Data successfully stored/updated"));
                      (B "status", JNumber (B "201"))])
  /\ scan (envelope 200)
     = Some (JObject [(B "message", JString (B "Data successfully stored/updated"));
                      (B "status", JNumber (B "200"))])
  /\ (Method r <> MethodGet -> Method r <> MethodPost -> Method r <> MethodPut ->
      Method r <> MethodOptions ->
      served lib e fs c r
      = (fs, http_Error (B "Method Not Allowed") StatusMethodNotAllowed))
  /\ (Method r = MethodOptions ->
      served lib e fs c r = (fs, status_only (StatusCode (snd (served lib e fs c r))))
      /\ (StatusCode (snd (served lib e fs c r)) = StatusOK
          \/ StatusCode (snd (served lib e fs c r)) = StatusBadRequest
          \/ StatusCode (snd (served lib e fs c r)) = StatusForbidden
          \/ StatusCode (snd (served lib e fs c r)) = StatusMethodNotAllowed)
      /\ (Origin c = [] -> served lib e fs c r = (fs, status_only StatusOK))).
Proof.
  split; [|split; [|split; [|split; [|split]]]].
  - intros Hm. rewrite served_passes by (rewrite Hm; now apply method_eqb).
    destruct (update_answer e fs r (or_introl Hm)) as [Hiff Hans].
    split; [exact Hiff|]. intros Hok. rewrite (Hans Hok), Hm. reflexivity.
  - intros Hm. rewrite served_passes by (rewrite Hm; now apply method_eqb).
    destruct (update_answer e fs r (or_intror Hm)) as [Hiff Hans].
    split; [exact Hiff|]. intros Hok. rewrite (Hans Hok), Hm. reflexivity.
  - reflexivity.
  - reflexivity.
  - intros Hg Hpost Hput Hopt. rewrite served_passes by exact Hopt. unfold dataRoute.
    apply method_eqb in Hg, Hpost, Hput. now rewrite Hg, Hpost, Hput.
  - intros Hm. unfold served, CORS. rewrite Hm.
    change (bytes_eqb MethodOptions MethodOptions) with true. cbn [negb].
    split; [|split].
    + destruct (length (Origin c) =? 0)%nat; [reflexivity|].
      destruct (AccessControlRequestMethod c) as [method|]; [|reflexivity].
      destruct (negb (isMatch method allowedMethods)); [reflexivity|].
      now destruct (forallb _ _).
    + destruct (length (Origin c) =? 0)%nat; [now left|].
      destruct (AccessControlRequestMethod c) as [method|]; [|right; now left].
      destruct (negb (isMatch method allowedMethods)); [right; right; now right|].
      destruct (forallb _ _); [now left|right; right; now left].
    + intros ->. reflexivity.
Qed.

(** An update whose body is a valid array, string, number or boolean is
    answered with 400, and the file is unchanged. *)
Lemma update_array_or_scalar (e : env) (fs : FS) (r : Request) (body : bytes) (t : jtree) :
  Method r = MethodPost \/ Method r = MethodPut ->
  Body r = Some body -> scan body = Some t -> array_or_scalar t = true ->
  dataRoute lib e fs r
  = (fs, http_Error (B "Invalid JSON format in request body") StatusBadRequest).
Proof.
  intros Hm Hb Hs Ht.
  assert (Hupd : dataRoute lib e fs r = updateDataHandler lib e fs r
                 /\ negb (bytes_eqb (Method r) MethodPost) && negb (bytes_eqb (Method r) MethodPut) = false).
  { destruct Hm as [H|H]; unfold dataRoute; rewrite H; split; reflexivity. }
  destruct Hupd as [-> Hneg]. unfold updateDataHandler.
  now rewrite Hneg, Hb, (Unmarshal_array_or_scalar body t Hs Ht).
Qed.

(** X15: of the bodies that are valid JSON and no object, [null] is the
    only one that is accepted. A POST or PUT on /data whose body is a valid
    JSON array, string, number or boolean is answered with 400 and the file
    is unchanged; a body that is accepted is the literal null or a JSON
    object. *)
Theorem array_or_scalar_rejected (e : env) (fs : FS) (r : Request) (body : bytes) :
  Method r = MethodPost \/ Method r = MethodPut ->
  Body r = Some body ->
  (forall t, scan body = Some t -> array_or_scalar t = true ->
     dataRoute lib e fs r
     = (fs, http_Error (B "Invalid JSON format in request body") StatusBadRequest))
  /\ (StatusCode (snd (dataRoute lib e fs r)) < 400 ->
      scan body = Some JNull \/ is_object_text body).
Proof.
  intros Hm Hb.
  assert (Hupd : dataRoute lib e fs r = updateDataHandler lib e fs r
                 /\ negb (bytes_eqb (Method r) MethodPost) && negb (bytes_eqb (Method r) MethodPut) = false).
  { destruct Hm as [H|H]; unfold dataRoute; rewrite H; split; reflexivity. }
  split; [intros t Hs Ht; now apply (update_array_or_scalar e fs r body t)|].
  destruct Hupd as [-> Hneg]. unfold updateDataHandler. rewrite Hneg, Hb.
  - destruct (Unmarshal lib body) as [D|err] eqn:Hu; [|intros Hok; cbv in Hok; discriminate].
    intros _. destruct (Unmarshal_Ok _ _ Hu) as (t & Hs & _ & Ht).
    destruct t; try discriminate; [now left|right; now exists l].
Qed.

(** What a POST and a PUT of the body [null] do when the write
    succeeds. *)
Lemma update_null (e : env) (fs : FS) :
  write e = WriteOk ->
  dataRoute lib e fs {| Method := MethodPost; Body := Some (B "null") |}
  = (Some (B "null"),
     {| StatusCode := 201; ContentType := B "application/json";
        Payload := envelope 201 |})
  /\ dataRoute lib e fs {| Method := MethodPut; Body := Some (B "null") |}
     = (Some (B "null"),
        {| StatusCode := 200; ContentType := B "application/json";
           Payload := envelope 200 |}).
Proof.
  intros Hw.
  assert (Hsave : saveDataFile lib e fs None = (Some (B "null"), None)).
  { unfold saveDataFile, MarshalIndent, marshal_with, WriteFile. now rewrite Hw. }
  split.
  - unfold dataRoute, updateDataHandler. cbn [Method Body].
    change (bytes_eqb MethodPost MethodGet) with false.
    change (bytes_eqb MethodPost MethodPost) with true.
    change (Unmarshal lib (B "null")) with (@Ok json_error (JSONData lib) None).
    cbv iota beta. cbn [orb negb andb]. cbv iota beta. now rewrite Hsave.
  - unfold dataRoute, updateDataHandler. cbn [Method Body].
    change (bytes_eqb MethodPut MethodGet) with false.
    change (bytes_eqb MethodPut MethodPost) with false.
    change (bytes_eqb MethodPut MethodPut) with true.
    change (Unmarshal lib (B "null")) with (@Ok json_error (JSONData lib) None).
    cbv iota beta. cbn [orb negb andb]. cbv iota beta. now rewrite Hsave.
Qed.

(** C9: some request body that is valid JSON and no object, a top-level
    array or scalar, is accepted by POST and PUT on /data and its value is
    persisted: the body [null] is answered with 201 or 200 when the write
    succeeds, and the file then holds a text that is read as the same
    value, which is no object. *)
Theorem non_object_body_accepted (e : env) (fs : FS) :
  write e = WriteOk ->
  exists body t text,
    scan body = Some t /\ not_object t = true
    /\ dataRoute lib e fs {| Method := MethodPost; Body := Some body |}
       = (Some text,
          {| StatusCode := 201; ContentType := B "application/json";
             Payload := envelope 201 |})
    /\ dataRoute lib e fs {| Method := MethodPut; Body := Some body |}
       = (Some text,
          {| StatusCode := 200; ContentType := B "application/json";
             Payload := envelope 200 |})
    /\ scan text = Some t.
Proof.
  intros Hw. destruct (update_null e fs Hw) as [Hpost Hput].
  exists (B "null"), JNull, (B "null"). repeat split; assumption || reflexivity.
Qed.

(** C10: a POST or PUT on /data whose body is exactly [null] is answered
    with 201 or 200 when the write succeeds; the file then holds the four
    bytes [null], which is no JSON object, and [readDataFile] returns the
    nil map and no error. *)
Theorem null_body_is_stored (e : env) (fs : FS) :
  write e = WriteOk ->
  dataRoute lib e fs {| Method := MethodPost; Body := Some (B "null") |}
  = (Some (B "null"),
     {| StatusCode := 201; ContentType := B "application/json";
        Payload := envelope 201 |})
  /\ dataRoute lib e fs {| Method := MethodPut; Body := Some (B "null") |}
     = (Some (B "null"),
        {| StatusCode := 200; ContentType := B "application/json";
           Payload := envelope 200 |})
  /\ ~ is_object_text (B "null")
  /\ forall e', read_fails e' = false ->
       readDataFile lib e' (Some (B "null")) = Ok None.
Proof.
  intros Hw.
  assert (Hsave : saveDataFile lib e fs None = (Some (B "null"), None)).
  { unfold saveDataFile, MarshalIndent, marshal_with, WriteFile. now rewrite Hw. }
  repeat split.
  - unfold dataRoute, updateDataHandler. cbn [Method Body].
    change (bytes_eqb MethodPost MethodGet) with false.
    change (bytes_eqb MethodPost MethodPost) with true.
    change (Unmarshal lib (B "null")) with (@Ok json_error (JSONData lib) None).
    cbv iota beta. cbn [orb negb andb]. cbv iota beta. now rewrite Hsave.
  - unfold dataRoute, updateDataHandler. cbn [Method Body].
    change (bytes_eqb MethodPut MethodGet) with false.
    change (bytes_eqb MethodPut MethodPost) with false.
    change (bytes_eqb MethodPut MethodPut) with true.
    change (Unmarshal lib (B "null")) with (@Ok json_error (JSONData lib) None).
    cbv iota beta. cbn [orb negb andb]. cbv iota beta. now rewrite Hsave.
  - intros [l Hl]. discriminate.
  - intros e' Hr. unfold readDataFile, ReadFile. rewrite Hr. reflexivity.
Qed.

End Claims.

(** ** The theorems at work

    Closed instances over [integers]: the hypotheses of the theorems hold
    together, and the statements that fail, fail on these inputs. *)

(** The hypotheses of [replace_then_read] hold for the cart. *)
Lemma replace_then_read_cart :
  snd (saveDataFile integers calm None cart) = None
  /\ readDataFile integers calm (fst (saveDataFile integers calm None cart))
     = Ok cart.
Proof.
  apply (replace_then_read integers calm calm None cart).
  - split; [reflexivity|split].
    + cbn. repeat split; reflexivity.
    + vm_compute. discriminate.
  - reflexivity.
  - reflexivity.
Defined.

(** C2 as stated fails: after the start on a fresh path, a POST of [null]
    is answered with 201 and leaves a file that is neither empty nor a
    JSON object. (And a file that is there at the start is left as it is,
    an array for one.) *)
Lemma null_is_persisted :
  NewStore integers calm (Some (B "[]")) = Started (Some (B "[]"))
  /\ NewStore integers calm None = Started (Some (B "{}"))
  /\ StatusCode (snd (dataRoute integers calm (Some (B "{}"))
                        {| Method := MethodPost; Body := Some (B "null") |}))
     = StatusCreated
  /\ fst (dataRoute integers calm (Some (B "{}"))
            {| Method := MethodPost; Body := Some (B "null") |})
     = Some (B "null")
  /\ run integers (Some (B "{}")) [(calm, OpReplace None)] = Some (Some (B "null"))
  /\ B "null" <> []
  /\ ~ is_object_text (B "null").
Proof.
  repeat split; try reflexivity; [discriminate|].
  intros [l Hl]. discriminate.
Qed.

(** The hypotheses of [file_shape_invariant] hold for a start on a fresh
    path followed by a replace, a read and a replace by the nil map. *)
Lemma file_shape_invariant_run :
  stored_shape (Some (B "{}")) /\ stored_shape (Some (B "null")).
Proof.
  apply (file_shape_invariant integers calm None (Some (B "{}")) (Some (B "null"))
           [(calm, OpReplace cart); (calm, OpRead); (calm, OpReplace None)]).
  - exact I.
  - reflexivity.
  - repeat constructor. vm_compute. discriminate.
  - vm_compute. reflexivity.
Defined.

(** C3 as stated fails: when the write fails after the file was opened,
    the POST is answered with 500 and the document that was stored is
    lost. *)
Lemma failed_write_loses_document :
  dataRoute integers disk_full (Some cart_text)
    {| Method := MethodPost; Body := Some (B "{}") |}
  = (Some [],
     http_Error (B "Internal Server Error: Failed to save data")
                StatusInternalServerError)
  /\ Some [] <> Some cart_text.
Proof. split; [reflexivity|discriminate]. Qed.

(** C4 as stated fails: a file whose content is valid JSON, an array,
    makes the read fail with a [ParseError]. *)
Lemma array_file_is_parse_error :
  Valid (B "[]") = true
  /\ B "[]" <> []
  /\ readDataFile integers calm (Some (B "[]"))
     = Err (ParseError UnmarshalTypeError).
Proof. repeat split; try reflexivity. discriminate. Qed.



(** C8 as stated fails: an OPTIONS request on /data is answered with 200
    and no body, not with 405, whether it names no origin or is the
    preflight of a browser. *)
Lemma options_is_not_405 :
  served integers calm (Some cart_text) no_origin
    {| Method := MethodOptions; Body := Some [] |}
  = (Some cart_text, status_only StatusOK)
  /\ served integers calm (Some cart_text) preflight_put
       {| Method := MethodOptions; Body := Some [] |}
     = (Some cart_text, status_only StatusOK)
  /\ StatusOK <> StatusMethodNotAllowed.
Proof. repeat split. discriminate. Qed.

(** [data_status_codes] for a POST of the cart: it succeeds, and is
    answered with 201. *)
Lemma data_status_codes_cart :
  snd (served integers calm None preflight_put
         {| Method := MethodPost; Body := Some cart_body |})
  = {| StatusCode := 201; ContentType := B "application/json";
       Payload := envelope 201 |}.
Proof.
  destruct (data_status_codes integers calm None preflight_put
              {| Method := MethodPost; Body := Some cart_body |}) as [Hpost _].
  destruct (Hpost eq_refl) as [Hiff Hans].
  apply Hans. apply Hiff.
  exists cart_body, cart, (Some cart_text). repeat split; reflexivity.
Defined.

(** The hypothesis of [non_object_body_accepted] holds for a calm
    write. *)
Lemma non_object_body_accepted_calm :
  exists body t text,
    scan body = Some t /\ not_object t = true
    /\ dataRoute integers calm (Some cart_text)
         {| Method := MethodPost; Body := Some body |}
       = (Some text,
          {| StatusCode := 201; ContentType := B "application/json";
             Payload := envelope 201 |})
    /\ dataRoute integers calm (Some cart_text)
         {| Method := MethodPut; Body := Some body |}
       = (Some text,
          {| StatusCode := 200; ContentType := B "application/json";
             Payload := envelope 200 |})
    /\ scan text = Some t.
Proof.
  apply (non_object_body_accepted integers calm (Some cart_text)). reflexivity.
Defined.

(** The hypothesis of [read_empty_file] holds for an empty file. *)
Lemma read_empty_file_calm :
  readDataFile integers calm (Some []) = Ok (Some []).
Proof. apply (read_empty_file integers calm (Some [])). reflexivity. Defined.

(** The hypotheses of [replace_idempotent] hold for two calm writes. *)
Lemma replace_idempotent_cart :
  fst (saveDataFile integers calm
         (fst (saveDataFile integers calm None cart)) cart)
  = fst (saveDataFile integers calm None cart).
Proof.
  apply (replace_idempotent integers calm calm None cart); reflexivity.
Defined.

(** Whatever [strconv] does, no body that is a valid JSON array, string,
    number or boolean escapes the answer 400 or changes the file. *)
Lemma no_array_or_scalar_is_accepted :
  ~ exists (lib : strconv) (e : env) (fs : FS) (r : Request)
           (body : bytes) (t : jtree),
      (Method r = MethodPost \/ Method r = MethodPut)
      /\ Body r = Some body
      /\ scan body = Some t
      /\ array_or_scalar t = true
      /\ (StatusCode (snd (dataRoute lib e fs r)) <> StatusBadRequest
          \/ fst (dataRoute lib e fs r) <> fs).
Proof.
  intros (lib & e & fs & r & body & t & Hm & Hb & Hs & Ht & Hacc).
  rewrite (update_array_or_scalar lib e fs r body t Hm Hb Hs Ht) in Hacc.
  cbn [fst snd StatusCode http_Error] in Hacc. destruct Hacc as [H|H]; now apply H.
Qed.

(** The hypotheses of [array_or_scalar_rejected] hold for a POST of an
    array. *)
Lemma array_body_rejected :
  dataRoute integers calm (Some cart_text)
    {| Method := MethodPost; Body := Some (B "[1, 2, 3]") |}
  = (Some cart_text,
     http_Error (B "Invalid JSON format in request body") StatusBadRequest).
Proof.
  apply (proj1 (array_or_scalar_rejected integers calm (Some cart_text)
                  {| Method := MethodPost; Body := Some (B "[1, 2, 3]") |}
                  (B "[1, 2, 3]") (or_introl eq_refl) eq_refl)
               (JArray [JNumber (B "1"); JNumber (B "2"); JNumber (B "3")])).
  - reflexivity.
  - reflexivity.
Defined.

(** The hypothesis of [null_body_is_stored] holds for a calm write. *)
Lemma null_body_is_stored_calm :
  dataRoute integers calm (Some cart_text)
    {| Method := MethodPost; Body := Some (B "null") |}
  = (Some (B "null"),
     {| StatusCode := 201; ContentType := B "application/json";
        Payload := envelope 201 |})
  /\ readDataFile integers calm (Some (B "null")) = Ok None.
Proof.
  destruct (null_body_is_stored integers calm (Some cart_text) eq_refl)
    as (Hpost & _ & _ & Hread).
  split; [exact Hpost|exact (Hread calm eq_refl)].
Defined.

(** The scenario of the specification: POST of the cart, GET, PUT of an
    empty cart, GET. *)
Example cart_scenario :
  let post := dataRoute integers calm (Some (B "{}"))
                {| Method := MethodPost; Body := Some cart_body |} in
  let put := dataRoute integers calm (fst post)
               {| Method := MethodPut; Body := Some empty_cart_body |} in
  StatusCode (snd post) = 201
  /\ fst post = Some cart_text
  /\ readDataFile integers calm (fst post) = Ok cart
  /\ StatusCode (snd put) = 200
  /\ readDataFile integers calm (fst put) = Ok (Some [(B "cart", VSlice [])]).
Proof. repeat split; reflexivity. Qed.

(** * More of the code *)

(** ** More of the handlers and of the store *)

Section Handlers.

Variable lib : strconv.
Local Abbreviation value := (value lib).

(** The scanner reads back the line that the encoder of a response
    writes: the text of the value and a new line. *)
Lemma scan_encode_line (pretty : bool) (v : value) :
  printable lib v = true -> nesting lib v <= maxNestingDepth ->
  scan (encode lib pretty 0 v ++ [10]) = Some (tree_of lib v).
Proof.
  intros Hp Hn. unfold scan.
  rewrite (scan_value_encode lib v Hp pretty 0%nat 0 _ [10]); [reflexivity|lia| |reflexivity].
  pose proof (vfuel_length lib pretty v Hp 0%nat). rewrite length_app. lia.
Qed.

(** The empty map is a well-formed document. *)
Lemma WellFormed_empty : WellFormed lib (Some []).
Proof. cbn. repeat split; unfold maxNestingDepth; lia. Qed.

(** What [Marshal] writes for a document that was decoded, followed by a
    new line, is decoded as the document. *)
Lemma Marshal_line (D : JSONData lib) :
  D = None \/ WellFormed lib D ->
  exists text, Marshal lib D = Ok text /\ Unmarshal lib (text ++ [10]) = Ok D.
Proof.
  intros [->|Hwf].
  - exists (B "null"). split; reflexivity.
  - destruct D as [m|]; [|destruct Hwf]. pose proof Hwf as (Hp & Hf & Hn).
    exists (encode lib false 0 (VMap m)). split.
    + unfold Marshal, marshal_with. now rewrite (printable_marshalable lib _ Hp).
    + unfold Unmarshal. rewrite (scan_encode_line false (VMap m) Hp Hn).
      pose proof (decode_tree_of lib (VMap m) Hf) as Hd.
      cbn [tree_of] in *. now rewrite Hd.
Qed.

(** A document that [readDataFile] returns is the nil map or
    well-formed. *)
Lemma readDataFile_WellFormed (e : env) (fs : FS) (D : JSONData lib) :
  strconv_sound lib ->
  readDataFile lib e fs = Ok D -> D = None \/ WellFormed lib D.
Proof.
  intros Hlib. unfold readDataFile. destruct (ReadFile e fs) as [content|]; [|discriminate].
  destruct (length content =? 0)%nat.
  - intros H. inversion H; subst. right. exact WellFormed_empty.
  - destruct (Unmarshal lib content) as [D'|err] eqn:Hu; [|discriminate].
    intros H. inversion H; subst. exact (Unmarshal_WellFormed lib Hlib content D Hu).
Qed.

(** The answer to a GET when the read gives a document. *)
Lemma getDataHandler_Ok (e : env) (fs : FS) (b : option bytes) (D : JSONData lib) (text : bytes) :
  readDataFile lib e fs = Ok D -> Marshal lib D = Ok text ->
  dataRoute lib e fs {| Method := MethodGet; Body := b |}
  = (fs, {| StatusCode := StatusOK; ContentType := B "application/json";
            Payload := text ++ [10] |}).
Proof.
  intros Hr Hm. unfold dataRoute, getDataHandler. cbn [Method].
  change (bytes_eqb MethodGet MethodGet) with true. cbn [negb]. cbv iota.
  now rewrite Hr, Hm.
Qed.

(** X1: when [readDataFile] gives a document, a GET on /data is answered
    with 200, the content type application/json and one line, the compact
    text of the document; the line is decoded as the document that was
    read, and the file is left as it is. *)
Theorem get_returns_document (e : env) (fs : FS) (b : option bytes) (D : JSONData lib) :
  strconv_sound lib ->
  readDataFile lib e fs = Ok D ->
  exists text,
    Marshal lib D = Ok text
    /\ dataRoute lib e fs {| Method := MethodGet; Body := b |}
       = (fs, {| StatusCode := StatusOK; ContentType := B "application/json";
                 Payload := text ++ [10] |})
    /\ Unmarshal lib (text ++ [10]) = Ok D.
Proof.
  intros Hlib Hr.
  destruct (Marshal_line D (readDataFile_WellFormed e fs D Hlib Hr)) as (text & Hm & Hu).
  exists text. repeat split; [exact Hm| |exact Hu].
  exact (getDataHandler_Ok e fs b D text Hr Hm).
Qed.

(** X2: a GET on /data is answered with 200 exactly when the file can be
    read and is empty or holds a JSON value that fits the document type
    ([null], or an object whose numbers are in range); in every other case,
    a file that is missing among them, the answer is 500 with the one
    message [Internal Server Error], and the file is left as it is. *)
Theorem get_status_by_file (e : env) (fs : FS) (b : option bytes) :
  (StatusCode (snd (dataRoute lib e fs {| Method := MethodGet; Body := b |})) = StatusOK
   <-> exists content,
         ReadFile e fs = Some content
         /\ (content = [] \/ exists t, scan content = Some t /\ fits lib t = true))
  /\ (StatusCode (snd (dataRoute lib e fs {| Method := MethodGet; Body := b |})) = StatusOK
      \/ dataRoute lib e fs {| Method := MethodGet; Body := b |}
         = (fs, http_Error (B "Internal Server Error") StatusInternalServerError))
  /\ dataRoute lib e None {| Method := MethodGet; Body := b |}
     = (None, http_Error (B "Internal Server Error") StatusInternalServerError).
Proof.
  assert (Hget : dataRoute lib e fs {| Method := MethodGet; Body := b |}
                 = (fs, match readDataFile lib e fs with
                        | Err _ => http_Error (B "Internal Server Error") StatusInternalServerError
                        | Ok data =>
                          {| StatusCode := StatusOK; ContentType := B "application/json";
                             Payload := match Marshal lib data with
                                        | Ok t => t ++ [10]
                                        | Err _ => []
                                        end |}
                        end)) by reflexivity.
  split; [|split].
  - rewrite Hget. cbn [snd]. unfold readDataFile.
    destruct (ReadFile e fs) as [content|].
    2:{ split; [intros H; cbv in H; discriminate|intros (c & H & _); discriminate]. }
    destruct content as [|c content].
    { cbn [length Nat.eqb]. split; [intros _; exists []; auto|reflexivity]. }
    cbn [length Nat.eqb].
    destruct (Unmarshal lib (c :: content)) as [D|err] eqn:Hu.
    + destruct (Unmarshal_Ok lib _ _ Hu) as (t & Hs & Hfit & _).
      split; [intros _; exists (c :: content); eauto|reflexivity].
    + split; [intros H; cbv in H; discriminate|].
      intros (c' & Hc & [Hnil|(t & Hs & Hfit)]); inversion Hc; subst; [discriminate|].
      destruct (Unmarshal_Err lib _ _ Hu) as [Hv|(t' & Hs' & Hfit')].
      * unfold Valid in Hv. now rewrite Hs in Hv.
      * rewrite Hs in Hs'. inversion Hs'; subst. congruence.
  - rewrite Hget. cbn [snd]. destruct (readDataFile lib e fs); [left|right]; reflexivity.
  - unfold dataRoute, getDataHandler, readDataFile, ReadFile. cbn [Method].
    change (bytes_eqb MethodGet MethodGet) with true. cbn [negb]. cbv iota.
    destruct (read_fails e); reflexivity.
Qed.

(** X3: after a POST or PUT on /data that is answered with 201 or 200, a
    GET is answered with 200 and one line that is decoded as the document
    of the body that was sent. *)
Theorem update_then_get (e e' : env) (fs : FS) (r : Request) (b : option bytes) :
  strconv_sound lib ->
  Method r = MethodPost \/ Method r = MethodPut ->
  StatusCode (snd (dataRoute lib e fs r)) < 400 ->
  read_fails e' = false ->
  exists body D text,
    Body r = Some body /\ Unmarshal lib body = Ok D
    /\ dataRoute lib e' (fst (dataRoute lib e fs r)) {| Method := MethodGet; Body := b |}
       = (fst (dataRoute lib e fs r),
          {| StatusCode := StatusOK; ContentType := B "application/json";
             Payload := text ++ [10] |})
    /\ Unmarshal lib (text ++ [10]) = Ok D.
Proof.
  intros Hlib Hm Hok Hr.
  destruct (update_then_read lib e e' fs r Hlib Hm Hok Hr) as (body & D & Hb & Hu & Hread).
  destruct (Marshal_line D (Unmarshal_WellFormed lib Hlib body D Hu)) as (text & Hmar & Hback).
  exists body, D, text. repeat split; try assumption.
  exact (getDataHandler_Ok e' _ b D text Hread Hmar).
Qed.

(** A text of spaces only is no JSON text. *)
Lemma scan_blank (data : bytes) : forallb is_space data = true -> scan data = None.
Proof.
  intros H. unfold scan.
  assert (Hs : skip_space data = []).
  { induction data as [|c t IH]; [reflexivity|]. cbn [forallb] in H.
    apply andb_prop in H. destruct H as [Hc Ht]. cbn [skip_space]. rewrite Hc. auto. }
  replace (2 * length data + 2)%nat with (S (2 * length data + 1)) by lia.
  cbn [scan_value]. now rewrite Hs.
Qed.

(** X4: a body of spaces only, the empty body among them, is refused by
    POST and PUT with 400 and the file is left as it is; a file of spaces
    only makes [readDataFile] fail with a parse error, unless it has no
    byte at all: the test for the empty file is on the length, not on
    blank content. *)
Theorem blank_input (e : env) (fs : FS) (r : Request) (body : bytes) :
  forallb is_space body = true ->
  (Method r = MethodPost \/ Method r = MethodPut ->
   Body r = Some body ->
   dataRoute lib e fs r
   = (fs, http_Error (B "Invalid JSON format in request body") StatusBadRequest))
  /\ (read_fails e = false ->
      readDataFile lib e (Some body)
      = match body with
        | [] => Ok (Some [])
        | _ :: _ => Err (ParseError SyntaxError)
        end).
Proof.
  intros Hblank. pose proof (scan_blank body Hblank) as Hs. split.
  - intros Hm Hb.
    assert (Hupd : dataRoute lib e fs r = updateDataHandler lib e fs r
                   /\ negb (bytes_eqb (Method r) MethodPost) && negb (bytes_eqb (Method r) MethodPut) = false).
    { destruct Hm as [H|H]; unfold dataRoute; rewrite H; split; reflexivity. }
    destruct Hupd as [-> Hneg]. unfold updateDataHandler, Unmarshal.
    now rewrite Hneg, Hb, Hs.
  - intros Hr. unfold readDataFile, ReadFile. rewrite Hr.
    destruct body as [|c body]; [reflexivity|]. cbn [length Nat.eqb].
    unfold Unmarshal. now rewrite Hs.
Qed.


(** *** Members of the same key *)

Lemma map_set_mem {A : Type} (m : list (bytes * A)) (k : bytes) (v : A) :
  In (k, v) (map_set m k v).
Proof.
  induction m as [|[k' v'] m IH]; cbn [map_set]; [now left|].
  destruct (bytes_ltb k k'); [now left|].
  destruct (bytes_eqb k k'); [now left|]. now right.
Qed.

Lemma map_set_other {A : Type} (m : list (bytes * A)) (k : bytes) (v : A) (kv : bytes * A) :
  In kv m -> fst kv <> k -> In kv (map_set m k v).
Proof.
  induction m as [|[k' v'] m IH]; intros Hin Hne; [destruct Hin|]. cbn [map_set].
  destruct (bytes_ltb k k'); [now right|].
  destruct (bytes_eqb k k') eqn:Heq.
  - apply bytes_eqb_eq in Heq. subst k'.
    destruct Hin as [<-|Hin]; [now contradiction Hne|now right].
  - destruct Hin as [<-|Hin]; [now left|right; auto].
Qed.

Lemma fold_map_store_keeps {A : Type} (kvs acc : list (bytes * A)) (kv : bytes * A) :
  In kv acc -> ~ In (fst kv) (map fst kvs) -> In kv (fold_left map_store kvs acc).
Proof.
  revert acc. induction kvs as [|[k v] kvs IH]; intros acc Hin Hk; [exact Hin|].
  cbn [fold_left]. apply IH.
  - unfold map_store. cbn [fst snd]. apply map_set_other; [exact Hin|].
    intros Heq. apply Hk. left. now rewrite Heq.
  - intros H. apply Hk. now right.
Qed.

Lemma fold_map_store_In {A : Type} (kvs acc : list (bytes * A)) (kv : bytes * A) :
  In kv (fold_left map_store kvs acc) -> In kv kvs \/ In kv acc.
Proof.
  revert acc. induction kvs as [|[k v] kvs IH]; intros acc Hin; [now right|].
  cbn [fold_left] in Hin. destruct (IH _ Hin) as [H|H]; [left; now right|].
  apply map_set_In in H. destruct H as [->|H]; [left; now left|now right].
Qed.

Lemma keys_sorted_unique {A : Type} (m : list (bytes * A)) (k : bytes) (v v' : A) :
  keys_sorted m = true -> In (k, v) m -> In (k, v') m -> v = v'.
Proof.
  induction m as [|[k0 v0] m IH]; intros Hs Hin Hin'; [destruct Hin|].
  pose proof (keys_sorted_head k0 v0 m Hs) as Hhead.
  destruct Hin as [Heq|Hin], Hin' as [Heq'|Hin'].
  - congruence.
  - inversion Heq; subst. pose proof (Hhead _ _ Hin') as Hlt.
    now rewrite bytes_ltb_irrefl in Hlt.
  - inversion Heq'; subst. pose proof (Hhead _ _ Hin) as Hlt.
    now rewrite bytes_ltb_irrefl in Hlt.
  - exact (IH (keys_sorted_tail _ _ Hs) Hin Hin').
Qed.

(** The members of an object that are decoded, one for one. *)
Lemma decoded_members (l : list (bytes * jtree)) (kvs : list (bytes * value)) :
  all_some (map (fun kv => with_key (fst kv) (decode lib (snd kv))) l) = Some kvs ->
  Forall2 (fun x kv => fst kv = fst x /\ decode lib (snd x) = Some (snd kv)) l kvs.
Proof.
  intros H. apply all_some_Forall2 in H.
  induction H as [|x kv l kvs Hx Hall IH]; constructor; [|exact IH].
  destruct (decode lib (snd x)) as [v|]; [|discriminate].
  cbn [with_key] in Hx. inversion Hx; subst. now split.
Qed.

(** X5: in the document that [Unmarshal] makes of a JSON object, each key
    stands once, and the keys stand as they are written to the file, in
    increasing order of their bytes, whatever their order in the text; the
    value of a key is the value of its last member in the text (a member is
    replaced by a later one of the same key), and the document holds
    nothing else. *)
Theorem duplicate_key_last_wins (body : bytes) (l : list (bytes * jtree))
    (m : list (bytes * value)) :
  scan body = Some (JObject l) ->
  Unmarshal lib body = Ok (Some m) ->
  keys_sorted m = true
  /\ (forall k v v', In (k, v) m -> In (k, v') m -> v = v')
  /\ (forall l1 k t l2,
        l = l1 ++ (k, t) :: l2 -> ~ In k (map fst l2) ->
        exists v, decode lib t = Some v /\ In (k, v) m)
  /\ (forall k v, In (k, v) m -> exists t, In (k, t) l /\ decode lib t = Some v).
Proof.
  intros Hs. unfold Unmarshal. rewrite Hs. cbn [decode].
  destruct (all_some (map (fun kv => with_key (fst kv) (decode lib (snd kv))) l))
    as [kvs|] eqn:Hall; [|discriminate].
  intros H. inversion H; subst. clear H.
  pose proof (decoded_members l kvs Hall) as Hmem.
  destruct (fold_map_store (fun _ => True) kvs []) as [_ Hsorted];
    [apply Forall_forall; auto|constructor|reflexivity|].
  split; [exact Hsorted|]. split; [|split].
  - intros k v v'. now apply keys_sorted_unique.
  - intros l1 k t l2 -> Hlast.
    apply Forall2_app_inv_l in Hmem. destruct Hmem as (kvs1 & kvs' & H1 & H2 & ->).
    inversion H2 as [|x kv ? kvs2 [Hk Hd] H2']; subst. destruct kv as [k' v].
    cbn [fst snd] in *. subst k'. exists v. split; [exact Hd|].
    rewrite fold_left_app. cbn [fold_left].
    apply fold_map_store_keeps; [apply map_set_mem|]. cbn [fst].
    replace (map fst kvs2) with (map fst l2); [exact Hlast|].
    clear -H2'. induction H2' as [|x kv l2 kvs2 [Hk _] _ IH]; [reflexivity|].
    cbn [map]. now rewrite Hk, IH.
  - intros k v Hin. apply fold_map_store_In in Hin. destruct Hin as [Hin|[]].
    clear -Hmem Hin. induction Hmem as [|x kv l kvs [Hk Hd] _ IH]; [destruct Hin|].
    destruct Hin as [->|Hin].
    + cbn [fst snd] in *. exists (snd x). split; [left; destruct x; cbn in *; now subst|exact Hd].
    + destruct (IH Hin) as (t & Ht & Hdt). exists t. split; [now right|exact Hdt].
Qed.

(** *** What decides the answer to an update *)

(** A JSON text whose value fits the document type is decoded. *)
Lemma Unmarshal_fits (data : bytes) (t : jtree) :
  scan data = Some t -> fits lib t = true -> exists D, Unmarshal lib data = Ok D.
Proof.
  intros Hs Hfit. destruct (Unmarshal lib data) as [D|err] eqn:Hu; [eauto|].
  destruct (Unmarshal_Err lib _ _ Hu) as [Hv|(t' & Hs' & Hfit')].
  - unfold Valid in Hv. now rewrite Hs in Hv.
  - rewrite Hs in Hs'. inversion Hs'; subst. congruence.
Qed.

(** A document that was decoded is encoded without an error. *)
Lemma Unmarshal_MarshalIndent (data : bytes) (D : JSONData lib) :
  strconv_sound lib -> Unmarshal lib data = Ok D ->
  exists text, MarshalIndent lib D = Ok text.
Proof.
  intros Hlib Hu. destruct (Unmarshal_WellFormed lib Hlib data D Hu) as [->|Hwf].
  - now exists (B "null").
  - destruct D as [m|]; [|destruct Hwf]. destruct Hwf as (Hp & _ & _).
    exists (encode lib true 0 (VMap m)). unfold MarshalIndent, marshal_with.
    now rewrite (printable_marshalable lib _ Hp).
Qed.

(** The update handler behind the route, for a POST or PUT whose body is
    read. *)
Lemma dataRoute_update (e : env) (fs : FS) (r : Request) (body : bytes) :
  Method r = MethodPost \/ Method r = MethodPut ->
  Body r = Some body ->
  dataRoute lib e fs r
  = match Unmarshal lib body with
    | Err _ => (fs, http_Error (B "Invalid JSON format in request body") StatusBadRequest)
    | Ok newData =>
      match saveDataFile lib e fs newData with
      | (fs', Some _) =>
        (fs', http_Error (B "Internal Server Error: Failed to save data")
                         StatusInternalServerError)
      | (fs', None) =>
        (fs', {| StatusCode := if bytes_eqb (Method r) MethodPost
                               then StatusCreated else StatusOK;
                 ContentType := B "application/json";
                 Payload := envelope (if bytes_eqb (Method r) MethodPost
                                      then StatusCreated else StatusOK) |})
      end
    end.
Proof.
  intros Hm Hb.
  assert (Hupd : dataRoute lib e fs r = updateDataHandler lib e fs r
                 /\ negb (bytes_eqb (Method r) MethodPost) && negb (bytes_eqb (Method r) MethodPut) = false).
  { destruct Hm as [H|H]; unfold dataRoute; rewrite H; split; reflexivity. }
  destruct Hupd as [-> Hneg]. unfold updateDataHandler. now rewrite Hneg, Hb.
Qed.

(** X6: for a POST or PUT on /data whose body is read, the body and the
    file write decide the answer: 400 exactly when the body is no JSON text
    of a value that fits the document type; 201 or 200 exactly when it is
    one and [os.WriteFile] succeeds; 500 exactly when it is one and
    [os.WriteFile] fails. A document that was decoded is always encoded:
    the error of [MarshalIndent] never shows. *)
Theorem update_status_by_input (e : env) (fs : FS) (r : Request) (body : bytes) :
  strconv_sound lib ->
  Method r = MethodPost \/ Method r = MethodPut ->
  Body r = Some body ->
  (StatusCode (snd (dataRoute lib e fs r)) = StatusBadRequest
   <-> forall t, scan body = Some t -> fits lib t = false)
  /\ (StatusCode (snd (dataRoute lib e fs r)) < 400
      <-> (exists t, scan body = Some t /\ fits lib t = true) /\ write e = WriteOk)
  /\ (StatusCode (snd (dataRoute lib e fs r)) = StatusInternalServerError
      <-> (exists t, scan body = Some t /\ fits lib t = true) /\ write e <> WriteOk).
Proof.
  intros Hlib Hm Hb. rewrite (dataRoute_update e fs r body Hm Hb).
  destruct (Unmarshal lib body) as [D|err] eqn:Hu.
  - destruct (Unmarshal_Ok lib _ _ Hu) as (t & Hs & Hfit & _).
    destruct (Unmarshal_MarshalIndent body D Hlib Hu) as [text Hmar].
    unfold saveDataFile, WriteFile. rewrite Hmar.
    assert (Hex : exists t, scan body = Some t /\ fits lib t = true) by eauto.
    destruct (write e) eqn:Hw; destruct (bytes_eqb (Method r) MethodPost);
      cbn [fst snd StatusCode http_Error];
      (split; [|split]); (split; intros H);
      lazymatch type of H with
      | forall t, _ => specialize (H t Hs); congruence
      | _ /\ _ => destruct H as [_ H]; first [discriminate H|now contradiction H|reflexivity]
      | _ => first [ cbv in H; discriminate H
                   | split; [exact Hex|first [reflexivity|discriminate]] ]
      end.
  - cbn [fst snd StatusCode http_Error].
    assert (Hno : forall t, scan body = Some t -> fits lib t = false).
    { intros t Hs. destruct (fits lib t) eqn:Hfit; [|reflexivity].
      destruct (Unmarshal_fits body t Hs Hfit) as [D HD]. congruence. }
    (split; [|split]); (split; intros H);
      lazymatch type of H with
      | _ /\ _ =>
        destruct H as [(t & Hs & Hfit) _]; rewrite (Hno t Hs) in Hfit; discriminate Hfit
      | forall t, _ => reflexivity
      | _ => first [exact Hno|cbv in H; discriminate H]
      end.
Qed.

(** X7: an update that is accepted overwrites: the file it leaves is
    decided by the body alone. With the same body, whatever the file held
    before and whichever of POST and PUT is used, the update is accepted
    again and leaves the same file. *)
Theorem update_overwrites (e : env) (fs1 fs2 : FS) (r1 r2 : Request) :
  Method r1 = MethodPost \/ Method r1 = MethodPut ->
  Method r2 = MethodPost \/ Method r2 = MethodPut ->
  Body r1 = Body r2 ->
  StatusCode (snd (dataRoute lib e fs1 r1)) < 400 ->
  StatusCode (snd (dataRoute lib e fs2 r2)) < 400
  /\ fst (dataRoute lib e fs2 r2) = fst (dataRoute lib e fs1 r1).
Proof.
  intros Hm1 Hm2 Hb.
  destruct (Body r1) as [body|] eqn:Hb1.
  2:{ assert (Hupd : dataRoute lib e fs1 r1 = updateDataHandler lib e fs1 r1
                     /\ negb (bytes_eqb (Method r1) MethodPost) && negb (bytes_eqb (Method r1) MethodPut) = false).
      { destruct Hm1 as [H|H]; unfold dataRoute; rewrite H; split; reflexivity. }
      destruct Hupd as [-> Hneg]. unfold updateDataHandler. rewrite Hneg, Hb1.
      intros H. cbv in H. discriminate. }
  rewrite (dataRoute_update e fs1 r1 body Hm1 Hb1).
  rewrite (dataRoute_update e fs2 r2 body Hm2 (eq_sym Hb)).
  destruct (Unmarshal lib body) as [D|err]; [|intros H; cbv in H; discriminate].
  unfold saveDataFile. destruct (MarshalIndent lib D) as [text|err];
    [|intros H; cbv in H; discriminate].
  unfold WriteFile. destruct (write e); try (intros H; cbv in H; discriminate).
  intros _. cbn [fst snd StatusCode]. split; [|reflexivity].
  destruct (bytes_eqb (Method r2) MethodPost); cbv; reflexivity.
Qed.

(** X8: [NewStore] never writes over a file that is there, whatever it
    holds, and writes nothing when [os.Stat] fails with another error than
    "does not exist" (the store then starts without a file). The one file
    it ever writes is the empty object, on a path where there is none; it
    ends the process only when that write fails. *)
Theorem NewStore_keeps_file (e : env) (fs : FS) (content : bytes) :
  NewStore lib e (Some content) = Started (Some content)
  /\ (stat_fails e = true -> NewStore lib e fs = Started fs)
  /\ (forall fs', NewStore lib e fs = Started fs' ->
        fs' = fs \/ (fs = None /\ fs' = Some (B "{}")))
  /\ (forall fs', NewStore lib e fs = Fatal fs' ->
        fs = None /\ stat_fails e = false /\ write e <> WriteOk).
Proof.
  assert (Hnew : saveDataFile lib e None (Some [])
                 = match write e with
                   | WriteOk => (Some (B "{}"), None)
                   | OpenFails => (None, Some WriteError)
                   | WriteFails n => (Some (firstn n (B "{}")), Some WriteError)
                   | CloseFails => (Some (B "{}"), Some WriteError)
                   end).
  { unfold saveDataFile, MarshalIndent, marshal_with, WriteFile.
    cbn [marshalable forallb encode]. destruct (write e); reflexivity. }
  unfold NewStore, Stat. split; [|split; [|split]].
  - destruct (stat_fails e); reflexivity.
  - intros ->. reflexivity.
  - intros fs'. destruct (stat_fails e); [intros H; inversion H; now left|].
    destruct fs as [c|]; [intros H; inversion H; now left|].
    rewrite Hnew. destruct (write e); intros H; inversion H. right. now split.
  - intros fs'. destruct (stat_fails e); [discriminate|].
    destruct fs as [c|]; [discriminate|].
    rewrite Hnew. destruct (write e); intros H; [discriminate H|..];
      (repeat split; discriminate).
Qed.

(** X9: what a GET returns can be sent back. After an update that was
    accepted, a PUT of the line that a GET returns is accepted and leaves
    the file as it is, byte for byte. *)
Theorem put_back_keeps_file (e e1 e2 : env) (fs : FS) (r : Request) (b : option bytes) :
  strconv_sound lib ->
  Method r = MethodPost \/ Method r = MethodPut ->
  StatusCode (snd (dataRoute lib e fs r)) < 400 ->
  read_fails e1 = false ->
  write e2 = WriteOk ->
  let fs1 := fst (dataRoute lib e fs r) in
  let got := snd (dataRoute lib e1 fs1 {| Method := MethodGet; Body := b |}) in
  StatusCode got = StatusOK
  /\ dataRoute lib e2 fs1 {| Method := MethodPut; Body := Some (Payload got) |}
     = (fs1, {| StatusCode := StatusOK; ContentType := B "application/json";
                Payload := envelope StatusOK |}).
Proof.
  intros Hlib Hm Hok Hr Hw fs1 got.
  destruct (update_accepted lib e fs r Hm Hok) as (body & D & text & Hb & Hu & Hmar & Hfs).
  destruct (update_then_read lib e e1 fs r Hlib Hm Hok Hr) as (body' & D' & Hb' & Hu' & Hread).
  assert (D' = D) by congruence. subst D'. clear body' Hb' Hu'.
  destruct (Marshal_line D (Unmarshal_WellFormed lib Hlib body D Hu)) as (line & Hline & Hback).
  pose proof (getDataHandler_Ok e1 fs1 b D line Hread Hline) as Hget.
  subst got. rewrite Hget. cbn [snd StatusCode Payload]. split; [reflexivity|].
  match goal with
  | |- dataRoute _ _ _ ?put = _ =>
    rewrite (dataRoute_update e2 fs1 put _ (or_intror eq_refl) eq_refl)
  end.
  rewrite Hback. unfold saveDataFile, WriteFile. rewrite Hmar, Hw.
  cbn [Method]. change (bytes_eqb MethodPut MethodPost) with false. cbv iota.
  subst fs1. now rewrite Hfs.
Qed.

(** X10: every document that an update stores is the nil map or
    well-formed: its strings and keys are valid UTF-8 (what was not in the
    body has been replaced by U+FFFD), its numbers are finite and are read
    back from what is written for them, the keys of every object are in
    increasing order, each once, and it is nested no deeper than 10000. *)
Theorem accepted_document_well_formed (e : env) (fs : FS) (r : Request) :
  strconv_sound lib ->
  Method r = MethodPost \/ Method r = MethodPut ->
  StatusCode (snd (dataRoute lib e fs r)) < 400 ->
  exists body D text,
    Body r = Some body /\ Unmarshal lib body = Ok D
    /\ (D = None \/ WellFormed lib D)
    /\ MarshalIndent lib D = Ok text
    /\ fst (dataRoute lib e fs r) = Some text.
Proof.
  intros Hlib Hm Hok.
  destruct (update_accepted lib e fs r Hm Hok) as (body & D & text & Hb & Hu & Hmar & Hfs).
  exists body, D, text. repeat split; try assumption.
  exact (Unmarshal_WellFormed lib Hlib body D Hu).
Qed.

End Handlers.

(** ** The text of a response is safe inside HTML *)

Lemma html_safe_high (b : Z) : 128 <= b -> html_safe b = true.
Proof. intros H. unfold html_safe. now decide_tests. Qed.

Lemma html_safe_hex (d : Z) : 0 <= d < 16 -> html_safe (hex d) = true.
Proof.
  intros H. unfold html_safe, hex. destruct (d <? 10) eqn:E; bool_hyps; now decide_tests.
Qed.

Lemma escapeByte_safe (b : Z) :
  0 <= b < 128 -> forallb html_safe (escapeByte b) = true.
Proof.
  intros Hb. unfold escapeByte.
  assert (H1 : html_safe (hex (b / 16)) = true)
    by (apply html_safe_hex; Z.div_mod_to_equations; lia).
  assert (H2 : html_safe (hex (b mod 16)) = true)
    by (apply html_safe_hex; Z.div_mod_to_equations; lia).
  destruct ((b =? 92) || (b =? 34)) eqn:E.
  { apply orb_true_iff in E. destruct E as [E|E]; bool_hyps; subst; reflexivity. }
  repeat match goal with
         | |- forallb _ (if ?c then _ else _) = true => destruct c; [reflexivity|]
         end.
  cbn [forallb]. rewrite H1, H2. reflexivity.
Qed.

Lemma DecodeRune_high (p0 : Z) (t : bytes) (r : Z) (size : nat) :
  128 <= p0 -> utf8.DecodeRune (p0 :: t) = (r, size) -> 128 <= r.
Proof.
  intros Hp Hd. unfold utf8.DecodeRune, utf8.cont, utf8.RuneError in Hd.
  replace (p0 <? 128) with false in Hd by (symmetry; apply Z.ltb_ge; lia).
  repeat match type of Hd with
         | (if ?c then _ else _) = _ => destruct c eqn:?
         | match ?l with _ => _ end = _ => destruct l
         end; inversion Hd; subst; try lia; bool_hyps; try lia.
  - destruct (p0 =? 224) eqn:Ea; bool_hyps; lia.
  - destruct (p0 =? 240) eqn:Ea; bool_hyps; lia.
Qed.

Lemma EncodeRune_high (r : Z) :
  128 <= r -> Forall (fun b => 128 <= b) (utf8.EncodeRune r).
Proof.
  intros Hr. unfold utf8.EncodeRune, utf8.MaxRune.
  repeat match goal with
         | |- Forall _ (if ?c then _ else _) => destruct c eqn:?
         end; bool_hyps; repeat constructor; try lia;
    try (Z.div_mod_to_equations; lia).
Qed.

Lemma Forall_skipn {A : Type} (P : A -> Prop) (n : nat) (l : list A) :
  Forall P l -> Forall P (skipn n l).
Proof.
  revert l. induction n as [|n IH]; intros l H; [exact H|].
  destruct l as [|x l]; [constructor|]. inversion H; subst. cbn [skipn]. auto.
Qed.

(** What [appendString] writes for a valid string is safe. *)
Lemma appendString_loop_safe (n : nat) :
  forall src : bytes,
    utf8.Valid_loop n src = true ->
    forallb html_safe (appendString_loop n src) = true.
Proof.
  induction n as [|n IH]; intros src Hv; [reflexivity|].
  destruct src as [|b t]; [reflexivity|].
  cbn [utf8.Valid_loop] in Hv. cbn [appendString_loop].
  destruct (utf8.DecodeRune (b :: t)) as [c size] eqn:Hd.
  apply andb_prop in Hv. destruct Hv as [Hv Hrest].
  apply andb_prop in Hv. destruct Hv as [Hb Hok].
  apply negb_true_iff in Hok. apply Z.leb_le in Hb.
  destruct (b <? 128) eqn:E128.
  - bool_hyps. assert (Hsize : size = 1%nat).
    { unfold utf8.DecodeRune in Hd.
      replace (b <? 128) with true in Hd by (symmetry; apply Z.ltb_lt; lia).
      now inversion Hd. }
    subst size. cbn [skipn] in Hrest. rewrite forallb_app, (IH t Hrest), andb_true_r.
    destruct (htmlSafe b) eqn:Hs; [|apply escapeByte_safe; lia].
    cbn [forallb]. rewrite andb_true_r. unfold htmlSafe in Hs. unfold html_safe.
    bool_hyps. now decide_tests.
  - rewrite Hok. bool_hyps.
    destruct (EncodeRune_DecodeRune b t c size Hb Hd Hok) as [Henc _].
    pose proof (DecodeRune_high b t c size ltac:(lia) Hd) as Hc.
    destruct ((c =? 8232) || (c =? 8233)) eqn:E.
    + rewrite forallb_app, (IH _ Hrest), andb_true_r.
      cbn [forallb]. rewrite html_safe_hex by (Z.div_mod_to_equations; lia). reflexivity.
    + rewrite forallb_app, (IH _ Hrest), andb_true_r. rewrite <- Henc.
      apply forallb_forall. intros x Hx.
      pose proof (EncodeRune_high c Hc) as Hall. rewrite Forall_forall in Hall.
      apply html_safe_high. auto.
Qed.

Lemma appendString_safe (s : bytes) :
  utf8.Valid s = true -> forallb html_safe (appendString s) = true.
Proof.
  intros Hv. unfold appendString. cbn [forallb].
  rewrite forallb_app, (appendString_loop_safe _ _ Hv). reflexivity.
Qed.

Lemma digits_bytes (s : bytes) : forallb number_byte (fst (digits s)) = true.
Proof.
  induction s as [|c t IH]; [reflexivity|]. cbn [digits].
  destruct (is_digit c) eqn:Hc; [|reflexivity].
  destruct (digits t) as [d r]. cbn [fst forallb] in *. unfold number_byte at 1.
  now rewrite Hc, IH.
Qed.

Lemma cons_to_bytes (p s r : bytes) (o : option (bytes * bytes)) :
  forallb number_byte p = true ->
  (forall s' r', o = Some (s', r') -> forallb number_byte s' = true) ->
  cons_to p o = Some (s, r) -> forallb number_byte s = true.
Proof.
  intros Hp Ho H. apply cons_to_inv in H. destruct H as (s' & H & ->).
  rewrite forallb_app, Hp. exact (Ho _ _ H).
Qed.

Lemma digits1_bytes (s d r : bytes) :
  digits1 s = Some (d, r) -> forallb number_byte d = true.
Proof.
  unfold digits1. pose proof (digits_bytes s) as H.
  destruct (digits s) as [[|c d'] r']; [discriminate|].
  intros Heq. inversion Heq; subst. exact H.
Qed.

Lemma scan_number_bytes (s l r : bytes) :
  scan_number s = Some (l, r) -> forallb number_byte l = true.
Proof.
  unfold scan_number.
  set (p := match s with
            | c :: t => if c =? 45 then ([45], t) else ([], s)
            | [] => ([], s)
            end).
  assert (Hsign : forallb number_byte (fst p) = true).
  { subst p. destruct s as [|c t]; [reflexivity|]. destruct (c =? 45); reflexivity. }
  destruct p as [sign s1]. cbn [fst] in Hsign.
  destruct (scan_int s1) as [[i s2]|] eqn:Hi; [|discriminate].
  destruct (scan_frac s2) as [[f s3]|] eqn:Hf; [|discriminate].
  destruct (scan_exp s3) as [[x s4]|] eqn:Hx; [|discriminate].
  intros H. inversion H; subst. rewrite !forallb_app, Hsign. cbn [andb].
  assert (Hint : forallb number_byte i = true).
  { unfold scan_int in Hi. destruct s1 as [|c t]; [discriminate|].
    destruct (c =? 48) eqn:E0; [inversion Hi; subst; reflexivity|].
    destruct (is_digit c) eqn:Ed; [|discriminate].
    pose proof (digits_bytes t) as Hd. destruct (digits t) as [d r'].
    inversion Hi; subst. cbn [forallb fst] in *. unfold number_byte at 1.
    now rewrite Ed, Hd. }
  assert (Hfrac : forallb number_byte f = true).
  { unfold scan_frac in Hf. destruct s2 as [|c t]; [inversion Hf; reflexivity|].
    destruct (c =? 46); [|inversion Hf; reflexivity].
    refine (cons_to_bytes _ _ _ _ _ _ Hf); [reflexivity|].
    intros s' r'. apply digits1_bytes. }
  assert (Hexp : forallb number_byte x = true).
  { unfold scan_exp in Hx. destruct s3 as [|c t]; [inversion Hx; reflexivity|].
    destruct ((c =? 101) || (c =? 69)) eqn:Ee; [|inversion Hx; reflexivity].
    assert (Hc : number_byte c = true).
    { unfold number_byte. apply orb_true_iff in Ee.
      destruct Ee as [->| ->]; now rewrite ?orb_true_r. }
    destruct t as [|g t']; [discriminate|].
    destruct ((g =? 43) || (g =? 45)) eqn:Eg.
    - assert (Hg : number_byte g = true).
      { unfold number_byte. apply orb_true_iff in Eg.
        destruct Eg as [->| ->]; now rewrite ?orb_true_r. }
      refine (cons_to_bytes _ _ _ _ _ _ Hx); [|intros s' r'; apply digits1_bytes].
      cbn [forallb]. now rewrite Hc, Hg.
    - refine (cons_to_bytes _ _ _ _ _ _ Hx); [|intros s' r'; apply digits1_bytes].
      cbn [forallb]. now rewrite Hc. }
  now rewrite Hint, Hfrac, Hexp.
Qed.

Lemma number_byte_safe (c : Z) : number_byte c = true -> html_safe c = true.
Proof.
  unfold number_byte, is_digit, html_safe. intros H.
  repeat (apply orb_true_iff in H; destruct H as [H|H]); bool_hyps; now decide_tests.
Qed.

Lemma number_literal_safe (lit : bytes) :
  is_number_literal lit = true -> forallb html_safe lit = true.
Proof.
  unfold is_number_literal. destruct (scan_number lit) as [[l r]|] eqn:Hs; [|discriminate].
  destruct r; [|discriminate]. intros _.
  pose proof (scan_number_sound _ _ _ Hs) as Heq. rewrite app_nil_r in Heq. subst l.
  pose proof (scan_number_bytes _ _ _ Hs) as Hb.
  apply forallb_forall. intros c Hc. rewrite forallb_forall in Hb.
  apply number_byte_safe. auto.
Qed.

Lemma join_safe (sep : bytes) (parts : list bytes) :
  forallb html_safe sep = true ->
  Forall (fun p => forallb html_safe p = true) parts ->
  forallb html_safe (join sep parts) = true.
Proof.
  intros Hsep Hall. induction Hall as [|p ps Hp Hall IH]; [reflexivity|].
  destruct ps as [|q ps]; [exact Hp|].
  change (join sep (p :: q :: ps)) with (p ++ sep ++ join sep (q :: ps)).
  now rewrite !forallb_app, Hp, Hsep, IH.
Qed.

Section Safe.

Variable lib : strconv.

(** The compact text of a printable value is safe. *)
Lemma encode_safe (v : value lib) :
  printable lib v = true ->
  forall d, forallb html_safe (encode lib false d v) = true.
Proof.
  induction v as [ |b|f|s|l IHl|m IHm] using value_ind'; intros Hp d.
  - reflexivity.
  - destruct b; reflexivity.
  - cbn [printable] in Hp. apply andb_prop in Hp. destruct Hp as [_ Hlit].
    cbn [encode]. now apply number_literal_safe.
  - cbn [printable] in Hp. cbn [encode]. now apply appendString_safe.
  - destruct l as [|x l]; [reflexivity|]. cbn [printable] in Hp. cbn [encode newline].
    rewrite !forallb_app. cbn [forallb app].
    match goal with
    | |- context [forallb html_safe (join ?sep ?parts)] =>
      assert (Hj : forallb html_safe (join sep parts) = true)
    end; [|rewrite Hj; reflexivity].
    apply join_safe; [reflexivity|].
    rewrite forallb_forall in Hp. rewrite Forall_forall in *.
    intros p Hin. apply in_map_iff in Hin. destruct Hin as (y & <- & Hy). auto.
  - destruct m as [|kv m]; [reflexivity|]. cbn [printable] in Hp. cbn [encode newline].
    rewrite !forallb_app. cbn [forallb app].
    match goal with
    | |- context [forallb html_safe (join ?sep ?parts)] =>
      assert (Hj : forallb html_safe (join sep parts) = true)
    end; [|rewrite Hj; reflexivity].
    apply join_safe; [reflexivity|].
    rewrite forallb_forall in Hp. rewrite Forall_forall in *.
    intros p Hin. apply in_map_iff in Hin. destruct Hin as (y & <- & Hy).
    specialize (Hp y Hy). apply andb_prop in Hp. destruct Hp as [Hk Hpv].
    rewrite !forallb_app, (appendString_safe _ Hk), (IHm y Hy Hpv). reflexivity.
Qed.

(** X11: the body of the answer to a GET opens no tag and no entity in
    HTML. When [readDataFile] gives a document, the line that the GET
    returns holds no [<], no [>], no [&] and no byte below 32 before its
    final new line: the encoder writes these as [\u] escapes, and what was
    no valid UTF-8 in a string has been replaced when the document was
    decoded. (DEL and the characters from U+0080 on are written as they
    are.) *)
Theorem get_payload_html_safe (e : env) (fs : FS) (b : option bytes) (D : JSONData lib) :
  strconv_sound lib ->
  readDataFile lib e fs = Ok D ->
  exists text,
    Payload (snd (dataRoute lib e fs {| Method := MethodGet; Body := b |}))
    = text ++ [10]
    /\ forallb html_safe text = true.
Proof.
  intros Hlib Hr.
  destruct (readDataFile_WellFormed lib e fs D Hlib Hr) as [->|Hwf].
  - exists (B "null"). split; [|reflexivity].
    now rewrite (getDataHandler_Ok lib e fs b None (B "null") Hr eq_refl).
  - destruct D as [m|]; [|destruct Hwf]. destruct Hwf as (Hp & _ & _).
    exists (encode lib false 0 (VMap m)). split; [|now apply encode_safe].
    rewrite (getDataHandler_Ok lib e fs b (Some m) (encode lib false 0 (VMap m)) Hr);
      [reflexivity|].
    unfold Marshal, marshal_with. now rewrite (printable_marshalable lib _ Hp).
Qed.

End Safe.

(** ** The lock of the store *)

Section Lock.

Variable lib : strconv.
Local Abbreviation call := (call lib).
Local Abbreviation world := (world lib).

Lemma nth_error_set_call_eq (l : list (env * call)) (i : nat) (e : env) (c c' : call) :
  nth_error l i = Some (e, c) -> nth_error (set_call l i c') i = Some (e, c').
Proof.
  revert i. induction l as [|[e0 c0] l IH]; intros [|i] H; try discriminate.
  - cbn in *. now inversion H.
  - cbn in *. auto.
Qed.

Lemma nth_error_set_call_neq (l : list (env * call)) (i j : nat) (c' : call) :
  j <> i -> nth_error (set_call l i c') j = nth_error l j.
Proof.
  revert i j. induction l as [|[e0 c0] l IH]; intros i j H; [destruct i; reflexivity|].
  destruct i as [|i], j as [|j]; cbn; try reflexivity; [contradiction|]. apply IH. lia.
Qed.

Lemma length_set_call (l : list (env * call)) (i : nat) (c' : call) :
  length (set_call l i c') = length l.
Proof.
  revert i. induction l as [|[e0 c0] l IH]; intros [|i]; cbn; auto.
Qed.

Lemma inside_set_call (p : call -> bool) (l : list (env * call)) (i : nat)
    (e : env) (c : call) :
  nth_error l i = Some (e, c) ->
  forall c', (inside p (set_call l i c') + (if p c then 1 else 0)
              = inside p l + (if p c' then 1 else 0))%nat.
Proof.
  unfold inside. revert i. induction l as [|[e0 c0] l IH]; intros [|i] H c'; try discriminate.
  - cbn in H. inversion H; subst. cbn [set_call filter snd].
    destruct (p c), (p c'); cbn [length]; lia.
  - cbn in H. specialize (IH i H c'). cbn [set_call filter snd].
    destruct (p c0); cbn [length]; lia.
Qed.

Lemma inside_pos (p : call -> bool) (l : list (env * call)) (i : nat) (e : env) (c : call) :
  nth_error l i = Some (e, c) -> p c = true -> (1 <= inside p l)%nat.
Proof.
  unfold inside. revert i. induction l as [|[e0 c0] l IH]; intros [|i] Hi Hc; try discriminate.
  - cbn in Hi. inversion Hi; subst. cbn [filter snd]. rewrite Hc. cbn [length]. lia.
  - cbn in Hi. specialize (IH i Hi Hc). cbn [filter snd].
    destruct (p c0); cbn [length]; lia.
Qed.

Lemma inside_unique (p : call -> bool) (l : list (env * call)) (i j : nat)
    (e e' : env) (c c' : call) :
  (inside p l <= 1)%nat ->
  nth_error l i = Some (e, c) -> p c = true ->
  nth_error l j = Some (e', c') -> p c' = true -> i = j.
Proof.
  revert i j. induction l as [|[e0 c0] l IH]; intros i j Hle Hi Hc Hj Hc';
    [destruct i; discriminate|].
  assert (Hcons : inside p ((e0, c0) :: l)
                  = ((if p c0 then 1 else 0) + inside p l)%nat).
  { unfold inside. cbn [filter snd]. destruct (p c0); reflexivity. }
  rewrite Hcons in Hle.
  destruct i as [|i], j as [|j]; cbn [nth_error] in Hi, Hj.
  - reflexivity.
  - inversion Hi; subst. rewrite Hc in Hle.
    pose proof (inside_pos p l j e' c' Hj Hc'). lia.
  - inversion Hj; subst. rewrite Hc' in Hle.
    pose proof (inside_pos p l i e c Hi Hc). lia.
  - f_equal. apply (IH i j); auto. destruct (p c0); lia.
Qed.

Lemma inside_ex (p : call -> bool) (l : list (env * call)) :
  (1 <= inside p l)%nat ->
  exists i e c, nth_error l i = Some (e, c) /\ p c = true.
Proof.
  unfold inside. induction l as [|[e0 c0] l IH]; cbn [filter snd length]; [lia|].
  destruct (p c0) eqn:Hp.
  - intros _. now exists 0%nat, e0, c0.
  - intros H. destruct (IH H) as (i & e & c & Hi & Hc). now exists (S i), e, c.
Qed.

Lemma inside_zero (p : call -> bool) (l : list (env * call)) (i : nat) (e : env) (c : call) :
  inside p l = 0%nat -> nth_error l i = Some (e, c) -> p c = false.
Proof.
  intros H0 Hi. destruct (p c) eqn:Hp; [|reflexivity].
  pose proof (inside_pos p l i e c Hi Hp). lia.
Qed.

Lemma todo_set_call (l : list (env * call)) (i : nat) (e : env) (c : call) :
  nth_error l i = Some (e, c) ->
  forall c', (todo (set_call l i c') + remaining c
              = todo l + remaining c')%nat.
Proof.
  revert i. induction l as [|[e0 c0] l IH]; intros [|i] H c'; try discriminate.
  - cbn in H. inversion H; subst. cbn [set_call todo fold_right snd]. lia.
  - cbn in H. specialize (IH i H c'). cbn [set_call todo fold_right snd] in *.
    fold (todo l). fold (todo (set_call l i c')). lia.
Qed.

Lemma exec_app (w : world) (s1 s2 : list nat) :
  exec w (s1 ++ s2) = exec (exec w s1) s2.
Proof. revert w. induction s1 as [|i s1 IH]; intros w; cbn [app exec]; auto. Qed.

(** At the start no call holds the lock. *)
Lemma inside_spawn (p : call -> bool) (trace : list (env * store_op lib)) :
  p read_entry = false -> (forall d, p (save_entry d) = false) ->
  inside p (map spawn trace) = 0%nat.
Proof.
  intros Hr Hs. unfold inside. induction trace as [|[e [|d]] trace IH]; [reflexivity| |];
    cbn [map spawn fst snd filter]; [rewrite Hr|rewrite Hs]; exact IH.
Qed.

Lemma lock_inv_go (fs : FS) (trace : list (env * store_op lib)) :
  lock_inv (go fs trace).
Proof.
  unfold lock_inv, go. cbn [mu calls sync.unlocked sync.readers sync.writer].
  rewrite !inside_spawn by reflexivity. repeat split.
Qed.

Ltac count_new Hcr Hcw :=
  match goal with
  | |- context [set_call _ _ ?c'] =>
    specialize (Hcr c'); specialize (Hcw c');
    cbn [holds_read holds_write] in Hcr, Hcw
  end.

Lemma lock_inv_step (w w' : world) (i : nat) :
  lock_inv w -> step w i = Some w' -> lock_inv w'.
Proof.
  intros (Hr & Hw & Hrw) Hstep. unfold step in Hstep.
  destruct (nth_error (calls w) i) as [[e c]|] eqn:Hi; [|discriminate].
  pose proof (inside_set_call holds_read _ _ _ _ Hi) as Hcr.
  pose proof (inside_set_call holds_write _ _ _ _ Hi) as Hcw.
  destruct w as [fs [n b] l]. cbn [file mu calls sync.readers sync.writer] in *.
  unfold lock_inv.
  destruct c; cbn [call_step] in Hstep;
    unfold sync.RLock, sync.RUnlock, sync.Lock, sync.Unlock in Hstep;
    cbn [sync.writer sync.readers] in Hstep;
    try discriminate;
    try (destruct b; [discriminate|]);
    try (destruct (MarshalIndent lib data); [destruct (write e)|]);
    try (destruct (write e));
    try (destruct n; [|discriminate]);
    inversion Hstep; subst;
    cbn [file mu calls sync.readers sync.writer]; count_new Hcr Hcw;
    repeat split;
    first [ lia | discriminate | exact Hrw
          | intros Hb; specialize (Hrw Hb); lia
          | destruct b; lia ].
Qed.

Lemma lock_inv_exec (w : world) (sched : list nat) :
  lock_inv w -> lock_inv (exec w sched).
Proof.
  revert w. induction sched as [|i sched IH]; intros w Hw; [exact Hw|].
  cbn [exec]. apply IH. destruct (step w i) as [w'|] eqn:Hs; [|exact Hw].
  exact (lock_inv_step w w' i Hw Hs).
Qed.

(** X12: the lock keeps the calls apart. Whatever calls of [readDataFile]
    and [saveDataFile] run together and however they are scheduled, at most
    one call is between [Lock] and [Unlock], and while one is, no call is
    between [RLock] and [RUnlock]: [os.ReadFile] never runs while
    [os.WriteFile] has the file open. The lock counts its holders. *)
Theorem lock_keeps_apart (fs : FS) (trace : list (env * store_op lib)) (sched : list nat) :
  let w := exec (go fs trace) sched in
  (inside holds_write (calls w) <= 1)%nat
  /\ (inside holds_write (calls w) = 1%nat -> inside holds_read (calls w) = 0%nat)
  /\ sync.readers (mu w) = inside holds_read (calls w)
  /\ sync.writer (mu w) = (inside holds_write (calls w) =? 1)%nat.
Proof.
  intros w. destruct (lock_inv_exec _ sched (lock_inv_go fs trace)) as (Hr & Hw & Hrw).
  fold w in Hr, Hw, Hrw. destruct (sync.writer (mu w)); rewrite <- Hw.
  - repeat split; try lia; try (intros _; rewrite <- Hr; now apply Hrw).
  - repeat split; try lia; try discriminate.
Qed.

(** A call that is not waiting takes a step, and has one step less to
    take. *)
Lemma step_todo (w w' : world) (i : nat) :
  step w i = Some w' -> (todo (calls w') < todo (calls w))%nat.
Proof.
  unfold step. destruct (nth_error (calls w) i) as [[e c]|] eqn:Hi; [|discriminate].
  pose proof (todo_set_call _ _ _ _ Hi) as Ht.
  destruct (call_step e (file w) (mu w) c) as [[[fs' mu'] c']|] eqn:Hc; [|discriminate].
  intros H. inversion H; subst. cbn [calls]. specialize (Ht c').
  destruct c; cbn [call_step] in Hc.
  - destruct (sync.RLock (mu w)); inversion Hc; subst. cbn [remaining] in Ht. lia.
  - inversion Hc; subst. cbn [remaining] in Ht. lia.
  - inversion Hc; subst. cbn [remaining] in Ht. lia.
  - discriminate.
  - destruct (sync.Lock (mu w)); inversion Hc; subst. cbn [remaining] in Ht. lia.
  - destruct (MarshalIndent lib data); [destruct (write e)|]; inversion Hc; subst;
      cbn [remaining] in Ht; lia.
  - destruct (write e); inversion Hc; subst; cbn [remaining] in Ht; lia.
  - inversion Hc; subst. cbn [remaining] in Ht. lia.
  - inversion Hc; subst. cbn [remaining] in Ht. lia.
  - discriminate.
Qed.

Lemma todo_ex (l : list (env * call)) :
  (1 <= todo l)%nat ->
  exists i e c, nth_error l i = Some (e, c) /\ returned c = false.
Proof.
  induction l as [|[e0 c0] l IH]; cbn [todo fold_right snd]; [lia|].
  fold (todo l). destruct (returned c0) eqn:Hc.
  - intros H. destruct c0; try discriminate; cbn [remaining] in H;
      (destruct (IH H) as (i & e & c & Hi & Hr); now exists (S i), e, c).
  - intros _. now exists 0%nat, e0, c0.
Qed.

Lemma todo_zero (l : list (env * call)) :
  todo l = 0%nat -> forallb (fun ec => returned (snd ec)) l = true.
Proof.
  induction l as [|[e0 c0] l IH]; cbn [todo fold_right snd forallb]; [reflexivity|].
  fold (todo l). intros H. rewrite IH by lia.
  destruct c0; cbn [remaining] in H; try lia; reflexivity.
Qed.

(** While a call has not returned, some call can take a step. *)
Lemma lock_progress (w : world) :
  lock_inv w -> (1 <= todo (calls w))%nat ->
  exists i w', step w i = Some w'.
Proof.
  intros (Hr & Hw & Hrw) Htodo. unfold step.
  destruct (sync.writer (mu w)) eqn:Hb.
  { destruct (inside_ex holds_write (calls w)) as (i & e & c & Hi & Hc); [lia|].
    exists i. rewrite Hi.
    destruct c; try discriminate; cbn [call_step]; eauto.
    - destruct (MarshalIndent lib data); [destruct (write e)|]; eauto.
    - destruct (write e); eauto. }
  destruct (sync.readers (mu w)) as [|n] eqn:Hn.
  2:{ destruct (inside_ex holds_read (calls w)) as (i & e & c & Hi & Hc); [lia|].
      exists i. rewrite Hi. destruct c; try discriminate; cbn [call_step]; eauto. }
  destruct (todo_ex _ Htodo) as (i & e & c & Hi & Hc). exists i. rewrite Hi.
  pose proof (inside_zero holds_read _ i e c (eq_sym Hr) Hi) as Hcr.
  pose proof (inside_zero holds_write _ i e c (eq_sym Hw) Hi) as Hcw.
  destruct c; try discriminate; cbn [call_step].
  - unfold sync.RLock. rewrite Hb. eauto.
  - unfold sync.Lock. rewrite Hb, Hn. eauto.
Qed.

Lemma lock_finish (n : nat) :
  forall w : world,
    lock_inv w -> (todo (calls w) <= n)%nat ->
    exists more, todo (calls (exec w more)) = 0%nat.
Proof.
  induction n as [|n IH]; intros w Hinv Hn.
  - exists []. cbn [exec]. lia.
  - destruct (Nat.eq_dec (todo (calls w)) 0) as [H0|Hpos]; [now exists []|].
    destruct (lock_progress w Hinv) as (i & w' & Hs); [lia|].
    pose proof (step_todo w w' i Hs) as Hlt.
    destruct (IH w' (lock_inv_step w w' i Hinv Hs)) as [more Hmore]; [lia|].
    exists (i :: more). cbn [exec]. now rewrite Hs.
Qed.

(** X13: no call waits for ever and the lock is not left held. From every
    world that a schedule reaches, some schedule goes on to a world where
    every call has returned, and there the lock is free: the deferred
    [RUnlock] and [Unlock] run on every path, the errors of [os.ReadFile],
    [MarshalIndent] and [os.WriteFile] among them. *)
Theorem calls_can_return (fs : FS) (trace : list (env * store_op lib)) (sched : list nat) :
  exists more,
    let w := exec (go fs trace) (sched ++ more) in
    forallb (fun ec => returned (snd ec)) (calls w) = true
    /\ mu w = sync.unlocked.
Proof.
  pose proof (lock_inv_exec _ sched (lock_inv_go fs trace)) as Hinv.
  destruct (lock_finish _ _ Hinv (Nat.le_refl _)) as [more Hmore].
  exists more. rewrite exec_app. cbv zeta.
  set (w := exec (exec (go fs trace) sched) more) in *.
  pose proof (todo_zero _ Hmore) as Hret. split; [exact Hret|].
  destruct (lock_inv_exec _ more Hinv) as (Hr & Hw & _). fold w in Hr, Hw.
  assert (Hnone : forall p, (forall c, returned c = true -> p c = false) ->
                            inside p (calls w) = 0%nat).
  { intros p Hp. unfold inside. clear -Hret Hp.
    induction (calls w) as [|[e c] l IH]; [reflexivity|].
    cbn [forallb snd] in Hret. apply andb_prop in Hret. destruct Hret as [Hc Hl].
    cbn [filter snd]. rewrite (Hp c Hc). auto. }
  rewrite Hnone in Hr by (intros c; destruct c; (discriminate || reflexivity)).
  rewrite Hnone in Hw by (intros c; destruct c; (discriminate || reflexivity)).
  destruct (mu w) as [n b]. cbn [sync.readers sync.writer] in *. subst n.
  destruct b; [discriminate|reflexivity].
Qed.

(** *** Calls that run together take effect one after the other *)

Lemma run_alone_nth (w : world) (i j : nat) :
  j <> i -> nth_error (calls (run_alone w i)) j = nth_error (calls w) j.
Proof.
  intros Hne. unfold run_alone. destruct (nth_error (calls w) i) as [[e c]|]; [|reflexivity].
  destruct c; try reflexivity; cbn [calls]; now apply nth_error_set_call_neq.
Qed.

Lemma run_alone_length (w : world) (i : nat) :
  length (calls (run_alone w i)) = length (calls w).
Proof.
  unfold run_alone. destruct (nth_error (calls w) i) as [[e c]|]; [|reflexivity].
  destruct c; try reflexivity; cbn [calls]; apply length_set_call.
Qed.

Lemma run_alone_mu (w : world) (i : nat) : mu (run_alone w i) = mu w.
Proof.
  unfold run_alone. destruct (nth_error (calls w) i) as [[e c]|]; [|reflexivity].
  destruct c; reflexivity.
Qed.

Lemma run_alone_read (w : world) (i : nat) (e : env) :
  nth_error (calls w) i = Some (e, read_entry) ->
  run_alone w i
  = {| file := file w; mu := mu w;
       calls := set_call (calls w) i (read_done (readDataFile lib e (file w))) |}.
Proof. unfold run_alone. now intros ->. Qed.

Lemma run_alone_save (w : world) (i : nat) (e : env) (d : JSONData lib) :
  nth_error (calls w) i = Some (e, save_entry d) ->
  run_alone w i
  = {| file := fst (saveDataFile lib e (file w) d); mu := mu w;
       calls := set_call (calls w) i
                  (save_done (snd (saveDataFile lib e (file w) d))) |}.
Proof. unfold run_alone. now intros ->. Qed.

Lemma serial_nth (order : list nat) (w : world) (j : nat) :
  ~ In j order ->
  nth_error (calls (fold_left (run_alone) order w)) j = nth_error (calls w) j.
Proof.
  revert w. induction order as [|i order IH]; intros w Hj; [reflexivity|].
  cbn [fold_left]. rewrite IH by (intros H; apply Hj; now right).
  apply run_alone_nth. intros ->. apply Hj. now left.
Qed.

Lemma serial_length (order : list nat) (w : world) :
  length (calls (fold_left (run_alone) order w)) = length (calls w).
Proof.
  revert w. induction order as [|i order IH]; intros w; [reflexivity|].
  cbn [fold_left]. now rewrite IH, run_alone_length.
Qed.

Lemma serial_mu (order : list nat) (w : world) :
  mu (fold_left (run_alone) order w) = mu w.
Proof.
  revert w. induction order as [|i order IH]; intros w; [reflexivity|].
  cbn [fold_left]. now rewrite IH, run_alone_mu.
Qed.

Lemma serial_snoc (order : list nat) (w : world) (i : nat) :
  fold_left (run_alone) (order ++ [i]) w
  = run_alone (fold_left (run_alone) order w) i.
Proof. now rewrite fold_left_app. Qed.

(** What holds of a call holds on when another call takes a step. *)
Lemma call_inv_frame (w0 ws ws' w w' : world) (order order' : list nat)
    (j : nat) (e : env) (c : call) :
  (holds_write c = true -> file w' = file w /\ file ws' = file ws) ->
  (In j order <-> In j order') ->
  nth_error (calls ws') j = nth_error (calls ws) j ->
  call_inv w0 ws w order j e c -> call_inv w0 ws' w' order' j e c.
Proof.
  intros Hfile Hin Hnth. destruct c; cbn [call_inv holds_write] in *;
    rewrite ?Hnth, <- ?Hin; try tauto.
  - destruct (Hfile eq_refl) as [-> ->]. tauto.
  - destruct (Hfile eq_refl) as [-> _]. tauto.
  - destruct (Hfile eq_refl) as [-> _]. tauto.
  - destruct (Hfile eq_refl) as [-> ->]. tauto.
Qed.

Lemma call_inv_others (w0 ws ws' w w' : world) (order order' : list nat)
    (i : nat) (e : env) (c : call) :
  nth_error (calls w) i = Some (e, c) ->
  (inside holds_write (calls w) <= 1)%nat ->
  holds_write c = true \/ (file w' = file w /\ file ws' = file ws) ->
  (forall j, j <> i -> (In j order <-> In j order')) ->
  (forall j, j <> i -> nth_error (calls ws') j = nth_error (calls ws) j) ->
  (forall j e' c', nth_error (calls w) j = Some (e', c') ->
                   call_inv w0 ws w order j e' c') ->
  forall j e' c', j <> i -> nth_error (calls w) j = Some (e', c') ->
                  call_inv w0 ws' w' order' j e' c'.
Proof.
  intros Hi Hle Hfile Hin Hnth Hall j e' c' Hne Hj.
  apply (call_inv_frame w0 ws ws' w w' order order'); auto.
  intros Hc'. destruct Hfile as [Hc|Hfile]; [|exact Hfile].
  contradiction Hne. symmetry. exact (inside_unique holds_write _ _ _ _ _ _ _ Hle Hi Hc Hj Hc').
Qed.

Lemma serial_inv_go (fs : FS) (trace : list (env * store_op lib)) :
  serial_inv (go fs trace) (go fs trace).
Proof.
  exists []. cbn [fold_left].
  split; [constructor|]. split; [intros i []|]. split; [apply lock_inv_go|].
  split; [reflexivity|]. split; [|reflexivity].
  intros i e c Hi. pose proof Hi as Hi'. cbn [go calls] in Hi'.
  rewrite nth_error_map in Hi'.
  destruct (nth_error trace i) as [[e0 [|d]]|]; [| |discriminate];
    cbn [option_map spawn fst snd] in Hi'; inversion Hi'; subst; cbn [call_inv];
    (split; [intros []|exact Hi]).
Qed.

Lemma NoDup_snoc {A : Type} (l : list A) (x : A) :
  NoDup l -> ~ In x l -> NoDup (l ++ [x]).
Proof.
  induction 1 as [|y l Hy Hl IH]; intros Hx; cbn [app].
  - constructor; [intros []|constructor].
  - constructor.
    + intros H. apply in_app_or in H. destruct H as [H|[H|[]]]; [contradiction|].
      apply Hx. now left.
    + apply IH. intros H. apply Hx. now right.
Qed.

(** The world after a step of call [i], when the call and the file
    stand as they should. *)
Lemma serial_inv_next (w0 w : world) (order order' : list nat) (i : nat)
    (e : env) (c c' : call) (fs' : FS) (mu' : sync.RWMutex) :
  let ws := fold_left run_alone order w0 in
  let ws' := fold_left run_alone order' w0 in
  let w' := {| file := fs'; mu := mu'; calls := set_call (calls w) i c' |} in
  NoDup order' ->
  (forall j, In j order' -> (j < length (calls w0))%nat) ->
  lock_inv w -> lock_inv w' ->
  length (calls w) = length (calls w0) ->
  nth_error (calls w) i = Some (e, c) ->
  (forall j e c, nth_error (calls w) j = Some (e, c) -> call_inv w0 ws w order j e c) ->
  holds_write c = true \/ (fs' = file w /\ file ws' = file ws) ->
  (forall j, j <> i -> (In j order <-> In j order')) ->
  (forall j, j <> i -> nth_error (calls ws') j = nth_error (calls ws) j) ->
  call_inv w0 ws' w' order' i e c' ->
  (inside holds_write (calls w') = 0%nat -> fs' = file ws') ->
  serial_inv w0 w'.
Proof.
  intros ws ws' w' Hnd Hlt Hlock Hlock' Hlen Hi Hcalls Hfiles Hin Hnth Hnew Hfile.
  subst w'. exists order'. fold ws'.
  split; [exact Hnd|]. split; [exact Hlt|]. split; [exact Hlock'|].
  split; [cbn [calls]; now rewrite length_set_call|]. split; [|exact Hfile].
  intros j e' c'' Hj. cbn [calls] in Hj. destruct (Nat.eq_dec j i) as [->|Hne].
  - rewrite (nth_error_set_call_eq _ _ _ _ c' Hi) in Hj. inversion Hj; subst. exact Hnew.
  - rewrite nth_error_set_call_neq in Hj by exact Hne.
    apply (call_inv_others w0 ws ws' w _ order order' i e c); auto.
    destruct Hlock as (_ & Hw & _). destruct (sync.writer (mu w)); lia.
Qed.

Ltac write_held Hcw :=
  match goal with
  | |- context [set_call _ _ ?c'] =>
    specialize (Hcw c'); cbn [holds_write] in Hcw; lia
  end.

Lemma serial_inv_step (w0 w w' : world) (i : nat) :
  serial_inv w0 w -> step w i = Some w' -> serial_inv w0 w'.
Proof.
  intros (order & Hnd & Hlt & Hlock & Hlen & Hcalls & Hfile) Hstep.
  pose proof (lock_inv_step _ _ _ Hlock Hstep) as Hlock'.
  unfold step in Hstep.
  destruct (nth_error (calls w) i) as [[e c]|] eqn:Hi; [|discriminate].
  pose proof (Hcalls i e c Hi) as Hci.
  pose proof (inside_set_call holds_write _ _ _ _ Hi) as Hcw.
  assert (Hilt : (i < length (calls w0))%nat).
  { rewrite <- Hlen. apply nth_error_Some. now rewrite Hi. }
  assert (Hsnoc : forall j, j <> i -> (In j order <-> In j (order ++ [i]))).
  { intros j Hne. rewrite in_app_iff. cbn [In]. intuition congruence. }
  assert (Hlt' : forall j, In j (order ++ [i]) -> (j < length (calls w0))%nat).
  { intros j Hj. apply in_app_or in Hj. destruct Hj as [Hj|[<-|[]]]; auto. }
  destruct c; cbn [call_step] in Hstep; cbn [call_inv] in Hci.
  - (* RLock *)
    destruct (sync.RLock (mu w)) as [mu'|]; [|discriminate].
    inversion Hstep; subst w'. clear Hstep.
    apply (serial_inv_next w0 w order order i e read_entry); auto; try tauto.
    cbn [calls]. specialize (Hcw read_locked). cbn [holds_write] in Hcw.
    intros H0. apply Hfile. lia.
  - (* os.ReadFile *)
    inversion Hstep; subst w'. clear Hstep. destruct Hci as [Hnot Hw0].
    assert (Hws : nth_error (calls (fold_left run_alone order w0)) i = Some (e, read_entry))
      by (rewrite serial_nth; assumption).
    assert (Hfw : file w = file (fold_left run_alone order w0)).
    { apply Hfile. destruct Hlock as (Hr & Hw & Hrw).
      pose proof (inside_pos holds_read _ _ _ _ Hi eq_refl).
      destruct (sync.writer (mu w)); [specialize (Hrw eq_refl)|]; lia. }
    assert (Hrun : fold_left run_alone (order ++ [i]) w0
                   = {| file := file (fold_left run_alone order w0);
                        mu := mu (fold_left run_alone order w0);
                        calls := set_call (calls (fold_left run_alone order w0)) i
                                   (read_done (readDataFile lib e (file w))) |}).
    { rewrite serial_snoc, (run_alone_read _ _ _ Hws), Hfw. reflexivity. }
    apply (serial_inv_next w0 w order (order ++ [i]) i e read_locked); auto.
    + now apply NoDup_snoc.
    + right. split; [reflexivity|]. now rewrite Hrun.
    + intros j Hne. rewrite serial_snoc. now apply run_alone_nth.
    + cbn [call_inv]. split; [apply in_or_app; right; now left|].
      rewrite Hrun. cbn [calls]. exact (nth_error_set_call_eq _ _ _ _ _ Hws).
    + intros _. rewrite Hrun. exact Hfw.
  - (* RUnlock *)
    inversion Hstep; subst w'. clear Hstep.
    apply (serial_inv_next w0 w order order i e (read_exit res)); auto; try tauto.
    cbn [calls]. specialize (Hcw (read_done res)). cbn [holds_write] in Hcw.
    intros H0. apply Hfile. lia.
  - discriminate.
  - (* Lock *)
    destruct (sync.Lock (mu w)) as [mu'|] eqn:Hl; [|discriminate].
    inversion Hstep; subst w'. clear Hstep.
    assert (Hfw : file w = file (fold_left run_alone order w0)).
    { apply Hfile. destruct Hlock as (_ & Hw & _). unfold sync.Lock in Hl.
      destruct (sync.writer (mu w)); [discriminate|lia]. }
    apply (serial_inv_next w0 w order order i e (save_entry data)); auto; try tauto;
      try (cbn [call_inv]; tauto);
      try (cbn [calls]; specialize (Hcw (save_locked data)); cbn [holds_write] in Hcw; lia).
  - (* MarshalIndent and OpenFile *)
    destruct Hci as (Hnot & Hw0 & Hfw).
    pose proof (inside_pos holds_write _ _ _ _ Hi eq_refl) as Hpos.
    destruct (MarshalIndent lib data) as [text|err] eqn:Hm; [destruct (write e) eqn:Hwr|];
      inversion Hstep; subst w'; clear Hstep;
      apply (serial_inv_next w0 w order order i e (save_locked data)); auto; try tauto;
      lazymatch goal with
      | |- call_inv _ _ _ _ _ _ _ =>
        cbn [call_inv file]; split; [exact Hnot|]; exists data;
        first [ split; [exact Hw0|]; unfold saveDataFile, WriteFile;
                rewrite Hm, ?Hwr, Hfw; reflexivity
              | repeat split; auto; congruence ]
      | |- _ => cbn [calls]; write_held Hcw
      end.
  - (* Write *)
    destruct Hci as (Hnot & d & Hw0 & Hm & Hopen & Hfw).
    pose proof (inside_pos holds_write _ _ _ _ Hi eq_refl) as Hpos.
    destruct (write e) eqn:Hwr; [|contradiction| |];
      inversion Hstep; subst w'; clear Hstep;
      apply (serial_inv_next w0 w order order i e (save_opened jsonData)); auto; try tauto;
      lazymatch goal with
      | |- call_inv _ _ _ _ _ _ _ =>
        cbn [call_inv file]; split; [exact Hnot|]; exists d, jsonData; rewrite Hwr;
        repeat split; auto; congruence
      | |- _ => cbn [calls]; write_held Hcw
      end.
  - (* Close *)
    destruct Hci as (Hnot & d & text & Hw0 & Hm & Hopen & Hfw & Hfailed).
    pose proof (inside_pos holds_write _ _ _ _ Hi eq_refl) as Hpos.
    inversion Hstep; subst w'; clear Hstep.
    apply (serial_inv_next w0 w order order i e (save_written failed)); auto; try tauto;
      lazymatch goal with
      | |- call_inv _ _ _ _ _ _ _ =>
        cbn [call_inv file]; split; [exact Hnot|]; exists d; split; [exact Hw0|];
        unfold saveDataFile, WriteFile; rewrite Hm, Hfw, Hfailed;
        destruct (write e); [reflexivity|contradiction|reflexivity|reflexivity]
      | |- _ => cbn [calls]; write_held Hcw
      end.
  - (* Unlock *)
    inversion Hstep; subst w'. clear Hstep. destruct Hci as (Hnot & d & Hw0 & Hsave).
    assert (Hws : nth_error (calls (fold_left run_alone order w0)) i = Some (e, save_entry d))
      by (rewrite serial_nth; assumption).
    assert (Hrun : fold_left run_alone (order ++ [i]) w0
                   = {| file := file w;
                        mu := mu (fold_left run_alone order w0);
                        calls := set_call (calls (fold_left run_alone order w0)) i
                                   (save_done err) |}).
    { rewrite serial_snoc, (run_alone_save _ _ _ _ Hws), Hsave. reflexivity. }
    apply (serial_inv_next w0 w order (order ++ [i]) i e (save_exit err)); auto.
    + now apply NoDup_snoc.
    + intros j Hne. rewrite serial_snoc. now apply run_alone_nth.
    + cbn [call_inv]. split; [apply in_or_app; right; now left|].
      rewrite Hrun. cbn [calls]. exact (nth_error_set_call_eq _ _ _ _ _ Hws).
    + intros _. now rewrite Hrun.
  - discriminate.
Qed.

Lemma serial_inv_exec (w0 w : world) (sched : list nat) :
  serial_inv w0 w -> serial_inv w0 (exec w sched).
Proof.
  revert w. induction sched as [|i sched IH]; intros w Hw; [exact Hw|].
  cbn [exec]. apply IH. destruct (step w i) as [w'|] eqn:Hs; [|exact Hw].
  exact (serial_inv_step w0 w w' i Hw Hs).
Qed.

(** X14: calls that run together take effect one after the other.
    Whatever calls of [readDataFile] and [saveDataFile] run together and
    however their steps are scheduled, once they have all returned the file
    and every result are those of the same calls made one at a time, each
    running alone from entry to return, in some order: no read sees a file
    that [os.WriteFile] has truncated and not yet written, and no save is
    lost or mixed with another. *)
Theorem calls_take_effect_in_turn (fs : FS) (trace : list (env * store_op lib))
    (sched : list nat) :
  forallb (fun ec => returned (snd ec)) (calls (exec (go fs trace) sched)) = true ->
  exists order,
    Permutation order (seq 0 (length trace))
    /\ exec (go fs trace) sched = fold_left run_alone order (go fs trace).
Proof.
  intros Hret.
  destruct (serial_inv_exec _ _ sched (serial_inv_go fs trace))
    as (order & Hnd & Hlt & Hlock & Hlen & Hcalls & Hfile).
  set (w := exec (go fs trace) sched) in *.
  set (ws := fold_left run_alone order (go fs trace)) in *.
  assert (Hn : length (calls (go fs trace)) = length trace)
    by (cbn [go calls]; apply length_map).
  assert (Hdone : forall i e c, nth_error (calls w) i = Some (e, c) ->
                                In i order /\ nth_error (calls ws) i = Some (e, c)).
  { intros i e c Hi. rewrite forallb_forall in Hret.
    pose proof (Hret (e, c) (nth_error_In _ _ Hi)) as Hc. cbn [snd] in Hc.
    specialize (Hcalls i e c Hi). destruct c; try discriminate; exact Hcalls. }
  assert (Hnone : forall p : call -> bool,
             (forall c, returned c = true -> p c = false) ->
             inside p (calls w) = 0%nat).
  { intros p Hp. unfold inside. clear -Hret Hp.
    induction (calls w) as [|[e c] l IH]; [reflexivity|].
    cbn [forallb snd] in Hret. apply andb_prop in Hret. destruct Hret as [Hc Hl].
    cbn [filter snd]. rewrite (Hp c Hc). auto. }
  assert (Hnw : inside holds_write (calls w) = 0%nat)
    by (apply Hnone; intros c; destruct c; (discriminate || reflexivity)).
  assert (Hnr : inside holds_read (calls w) = 0%nat)
    by (apply Hnone; intros c; destruct c; (discriminate || reflexivity)).
  exists order. split.
  - apply NoDup_Permutation; [exact Hnd|apply seq_NoDup|].
    intros i. rewrite in_seq. split.
    + intros Hi. specialize (Hlt i Hi). lia.
    + intros [_ Hi]. cbn [plus] in Hi.
      destruct (nth_error (calls w) i) as [[e c]|] eqn:Hc.
      * exact (proj1 (Hdone i e c Hc)).
      * apply nth_error_None in Hc. lia.
  - assert (Hcs : calls w = calls ws).
    { apply nth_error_ext. intros i.
      destruct (nth_error (calls w) i) as [[e c]|] eqn:Hc.
      - symmetry. exact (proj2 (Hdone i e c Hc)).
      - symmetry. apply nth_error_None. apply nth_error_None in Hc.
        unfold ws. rewrite serial_length. lia. }
    assert (Hmu : mu w = mu ws).
    { unfold ws. rewrite serial_mu. cbn [go mu].
      destruct Hlock as (Hr & Hw & _). rewrite Hnr in Hr. rewrite Hnw in Hw.
      destruct (mu w) as [n b]. cbn [sync.readers sync.writer] in *. subst n.
      destruct b; [discriminate|reflexivity]. }
    specialize (Hfile Hnw).
    assert (Hext : forall a b : world,
               file a = file b -> mu a = mu b -> calls a = calls b -> a = b).
    { intros [f m l] [f' m' l']. cbn [file mu calls]. congruence. }
    now apply Hext.
Qed.

End Lock.

(** ** The theorems at work, again *)

(** The hypotheses of [get_returns_document] hold for the file of the
    cart. *)
Lemma get_returns_document_cart :
  exists text,
    Marshal integers cart = Ok text
    /\ dataRoute integers calm (Some cart_text) {| Method := MethodGet; Body := None |}
       = (Some cart_text,
          {| StatusCode := StatusOK; ContentType := B "application/json";
             Payload := text ++ [10] |})
    /\ Unmarshal integers (text ++ [10]) = Ok cart.
Proof.
  apply (get_returns_document integers calm (Some cart_text) None cart integers_sound).
  reflexivity.
Defined.

(** The hypotheses of [update_then_get] hold for a POST of the cart. *)
Lemma update_then_get_cart :
  exists body D text,
    Some cart_body = Some body /\ Unmarshal integers body = Ok D
    /\ dataRoute integers calm
         (fst (dataRoute integers calm (Some (B "{}"))
                 {| Method := MethodPost; Body := Some cart_body |}))
         {| Method := MethodGet; Body := None |}
       = (fst (dataRoute integers calm (Some (B "{}"))
                 {| Method := MethodPost; Body := Some cart_body |}),
          {| StatusCode := StatusOK; ContentType := B "application/json";
             Payload := text ++ [10] |})
    /\ Unmarshal integers (text ++ [10]) = Ok D.
Proof.
  apply (update_then_get integers calm calm (Some (B "{}"))
           {| Method := MethodPost; Body := Some cart_body |} None integers_sound).
  - now left.
  - vm_compute. reflexivity.
  - reflexivity.
Defined.

(** The hypothesis of [blank_input] holds for a body of a space and a new
    line. *)
Lemma blank_input_spaces :
  dataRoute integers calm (Some cart_text)
    {| Method := MethodPost; Body := Some [32; 10] |}
  = (Some cart_text,
     http_Error (B "Invalid JSON format in request body") StatusBadRequest)
  /\ readDataFile integers calm (Some [32; 10]) = Err (ParseError SyntaxError).
Proof.
  destruct (blank_input integers calm (Some cart_text)
              {| Method := MethodPost; Body := Some [32; 10] |} [32; 10] eq_refl)
    as [Hpost Hread].
  split; [apply Hpost; [now left|reflexivity]|apply Hread; reflexivity].
Defined.

(** The hypotheses of [duplicate_key_last_wins] hold for a body in which
    a key stands twice: the document holds the second value. *)
Lemma duplicate_key_twice :
  keys_sorted [(B "a", @VFloat integers 2)] = true
  /\ (forall k v v', In (k, v) [(B "a", @VFloat integers 2)] ->
                     In (k, v') [(B "a", @VFloat integers 2)] -> v = v')
  /\ (forall l1 k t l2,
        [(B "a", JNumber (B "1")); (B "a", JNumber (B "2"))] = l1 ++ (k, t) :: l2 ->
        ~ In k (map fst l2) ->
        exists v, decode integers t = Some v /\ In (k, v) [(B "a", @VFloat integers 2)])
  /\ (forall k v, In (k, v) [(B "a", @VFloat integers 2)] ->
        exists t, In (k, t) [(B "a", JNumber (B "1")); (B "a", JNumber (B "2"))]
                  /\ decode integers t = Some v).
Proof.
  apply (duplicate_key_last_wins integers twice_body); reflexivity.
Defined.

(** The hypotheses of [update_status_by_input] hold for a POST of the
    cart: it is accepted when the write succeeds and answered with 500 when
    the disk is full. *)
Lemma update_status_cart :
  StatusCode (snd (dataRoute integers calm None
                     {| Method := MethodPost; Body := Some cart_body |})) < 400
  /\ StatusCode (snd (dataRoute integers disk_full None
                        {| Method := MethodPost; Body := Some cart_body |}))
     = StatusInternalServerError.
Proof.
  assert (Hfits : exists t, scan cart_body = Some t /\ fits integers t = true).
  { eexists. split; [vm_compute; reflexivity|reflexivity]. }
  split.
  - apply (update_status_by_input integers calm None
             {| Method := MethodPost; Body := Some cart_body |} cart_body
             integers_sound (or_introl eq_refl) eq_refl).
    split; [exact Hfits|reflexivity].
  - apply (update_status_by_input integers disk_full None
             {| Method := MethodPost; Body := Some cart_body |} cart_body
             integers_sound (or_introl eq_refl) eq_refl).
    split; [exact Hfits|discriminate].
Defined.

(** The hypotheses of [update_overwrites] hold for a POST of the cart on
    a path without a file and a PUT of it over another document. *)
Lemma update_overwrites_cart :
  StatusCode (snd (dataRoute integers calm (Some (B "null"))
                     {| Method := MethodPut; Body := Some cart_body |})) < 400
  /\ fst (dataRoute integers calm (Some (B "null"))
            {| Method := MethodPut; Body := Some cart_body |})
     = fst (dataRoute integers calm None
              {| Method := MethodPost; Body := Some cart_body |}).
Proof.
  apply (update_overwrites integers calm None (Some (B "null"))
           {| Method := MethodPost; Body := Some cart_body |}
           {| Method := MethodPut; Body := Some cart_body |}).
  - now left.
  - now right.
  - reflexivity.
  - vm_compute. reflexivity.
Defined.

(** The hypotheses of [put_back_keeps_file] hold for a POST of the
    cart. *)
Lemma put_back_cart :
  StatusCode (snd (dataRoute integers calm (Some cart_text)
                     {| Method := MethodGet; Body := None |})) = StatusOK
  /\ dataRoute integers calm (Some cart_text)
       {| Method := MethodPut;
          Body := Some (Payload (snd (dataRoute integers calm (Some cart_text)
                                        {| Method := MethodGet; Body := None |}))) |}
     = (Some cart_text,
        {| StatusCode := StatusOK; ContentType := B "application/json";
           Payload := envelope StatusOK |}).
Proof.
  apply (put_back_keeps_file integers calm calm calm (Some (B "{}"))
           {| Method := MethodPost; Body := Some cart_body |} None integers_sound).
  - now left.
  - vm_compute. reflexivity.
  - reflexivity.
  - reflexivity.
Defined.

(** The hypotheses of [accepted_document_well_formed] hold for a POST of
    the cart. *)
Lemma accepted_cart_well_formed :
  exists body D text,
    Some cart_body = Some body /\ Unmarshal integers body = Ok D
    /\ (D = None \/ WellFormed integers D)
    /\ MarshalIndent integers D = Ok text
    /\ fst (dataRoute integers calm None
               {| Method := MethodPost; Body := Some cart_body |}) = Some text.
Proof.
  apply (accepted_document_well_formed integers calm None
           {| Method := MethodPost; Body := Some cart_body |} integers_sound).
  - now left.
  - vm_compute. reflexivity.
Defined.

(** The hypothesis of [calls_take_effect_in_turn] holds for a POST of the
    cart and a GET that run together: every call returns, and the GET has
    read the cart. *)
Lemma together_in_turn :
  exists order,
    Permutation order (seq 0 (length together))
    /\ exec (go None together) post_first
       = fold_left run_alone order (go None together).
Proof.
  apply (calls_take_effect_in_turn integers None together post_first).
  vm_compute. reflexivity.
Defined.

Example together_scenario :
  exec (go None together) post_first
  = {| file := Some cart_text; mu := sync.unlocked;
       calls := [(calm, save_done None); (calm, read_done (Ok cart))] |}.
Proof. vm_compute. reflexivity. Qed.

(** The hypotheses of [get_payload_html_safe] hold for a file whose
    document holds a tag. *)
Lemma get_payload_html_safe_tag :
  exists text,
    Payload (snd (dataRoute integers calm (Some tag_file)
                    {| Method := MethodGet; Body := None |}))
    = text ++ [10]
    /\ forallb html_safe text = true.
Proof.
  apply (get_payload_html_safe integers calm (Some tag_file) None
           (Some [(B "note", VString (B "<b>&"))]) integers_sound).
  reflexivity.
Defined.
